(** * Echoes of Madness: the session engine

    A shallow embedding of the game's session engine and the properties its
    specification states about it.

    The repository holds two snapshots of the application component
    [App.tsx].  The later one resumes a deferred dice roll or puzzle through
    a serialisable [ActionContext] and a single resolver
    ([handleActionComplete]); it is embedded in module [App].  The earlier
    one stores success and failure callbacks in the session state and is the
    only one that moves monsters; it is embedded in module [AppCallbacks].
    The dice widget is module [DiceRoller], the content bridge
    ([services/gemini]) is module [Gemini]; two of the puzzles a search can
    turn into are modules [CodePuzzle] and [SlidingPuzzle].

    Conventions.
    - A JavaScript number that only ever holds an integer is a [Z]; a monster's
      health, which the later snapshot can turn into [NaN], is a [number].
    - [Math.random()] is a rational [u] with [0 <= u < 1], passed in by the
      caller; [Date.now()] is an integer passed in by the caller.
    - A React state update [setGameState (prev => ...)] is a function on the
      session; the state a handler captured before an [await] (the
      [currentState] or [gameState] of its closure) and the state its updater
      receives afterwards ([prev]) are separate arguments.
    - A [TypeError] (reading a field of [undefined]) or a [RangeError] (an
      array of invalid length) is [None].
    - Narration ([speak]), the loading overlay and console output are not
      part of the session and are left out. *)

From Stdlib Require Import ZArith QArith Qround Lia Bool Ascii String.
From stdpp Require Import base tactics option list gmap strings pretty.

#[local] Open Scope Z_scope.

(** ** JavaScript helpers *)

(** A JavaScript [number] holding an integer or [NaN]. *)
Inductive number := Num (z : Z) | NaN.

Definition number_sub (a b : number) : number :=
  match a, b with
  | Num x, Num y => Num (x - y)
  | _, _ => NaN
  end.

Definition number_add (a b : number) : number :=
  match a, b with
  | Num x, Num y => Num (x + y)
  | _, _ => NaN
  end.

(** [a <= 0]; every comparison with [NaN] is false. *)
Definition number_le0 (a : number) : bool :=
  match a with
  | Num x => x <=? 0
  | NaN => false
  end.

(** [s.includes(sub)] on strings. *)
Fixpoint str_includes (sub s : string) : bool :=
  String.prefix sub s ||
  match s with
  | EmptyString => false
  | String _ s' => str_includes sub s'
  end.

(** [arr.includes(s)] on arrays of strings. *)
Definition includes (s : string) (arr : list string) : bool :=
  bool_decide (s ∈ arr).

(** [arr.slice(-n)]: the last [n] elements. *)
Definition slice_last {A} (n : nat) (arr : list A) : list A :=
  drop (length arr - n) arr.

(** [a < b] on rationals, as a boolean. *)
Definition Qltb (a b : Q) : bool := negb (Qle_bool b a).

(** [Math.floor(u * n)] as an array index. *)
Definition random_index (u : Q) (n : nat) : nat :=
  Z.to_nat (Qfloor (u * inject_Z (Z.of_nat n))).

(** [arr.findIndex(p)]. *)
Fixpoint findIndex {A} (p : A -> bool) (arr : list A) : option nat :=
  match arr with
  | [] => None
  | a :: arr' => if p a then Some 0%nat else S <$> findIndex p arr'
  end.

(** [s.toLowerCase()], on the ASCII letters. *)
Definition lower_ascii (c : ascii) : ascii :=
  let n := nat_of_ascii c in
  if (65 <=? n)%nat && (n <=? 90)%nat then ascii_of_nat (n + 32) else c.

Fixpoint toLowerCase (s : string) : string :=
  match s with
  | EmptyString => EmptyString
  | String c s' => String (lower_ascii c) (toLowerCase s')
  end.

(** [Math.min(...zs)] and [Math.max(...zs)] of a non-empty array. *)
Definition minimum (z : Z) (zs : list Z) : Z := foldr Z.min z zs.
Definition maximum (z : Z) (zs : list Z) : Z := foldr Z.max z zs.

(** ** types.ts *)

Module Types.

Inductive Attribute := Strength | Agility | Observation | Lore | Influence | Will.

Inductive TokenType := Explore | Search | Interact | Sight | Escape.

Inductive Direction := North | South | East | West.

Inductive GamePhase :=
  Lobby | ItemDistribution | Setup | Playing | Mythos | DiceRoll | Puzzle
| GameOver | Victory.

Inductive PuzzleType := Sliding | Rune | Code.

(** [ElderSign = 'PASS'] is the success face, [Blank = 'FAIL']. *)
Inductive DiceFace := ElderSign | Clue | Blank.

Inductive NetworkMode := Offline | Host | Client.

Inductive Difficulty := Easy | Normal | Hard.

Inductive MythosKind := SPAWN | TEST | FLAVOR.

#[global] Instance Attribute_eq_dec : EqDecision Attribute.
Proof. solve_decision. Defined.
#[global] Instance TokenType_eq_dec : EqDecision TokenType.
Proof. solve_decision. Defined.
#[global] Instance Direction_eq_dec : EqDecision Direction.
Proof. solve_decision. Defined.
#[global] Instance GamePhase_eq_dec : EqDecision GamePhase.
Proof. solve_decision. Defined.
#[global] Instance DiceFace_eq_dec : EqDecision DiceFace.
Proof. solve_decision. Defined.
#[global] Instance NetworkMode_eq_dec : EqDecision NetworkMode.
Proof. solve_decision. Defined.
#[global] Instance Difficulty_eq_dec : EqDecision Difficulty.
Proof. solve_decision. Defined.
#[global] Instance MythosKind_eq_dec : EqDecision MythosKind.
Proof. solve_decision. Defined.

(** [interface Player]; the presentation fields [color] and [image] are left out. *)
Module Player.
Record t := mkPlayer {
  id : string;
  name : string;
  investigatorId : string;
  clues : Z;
  items : list string;
  health : Z;
  sanity : Z;
  attributes : Attribute -> Z;
  x : Z;
  y : Z;
  movesRemaining : Z;
  actionsRemaining : Z;
  isWounded : bool;
  isInsane : bool;
  secretObjective : option string;
  usedItemAbilityRound : bool;
  isReady : bool
}.
Definition set_clues (v : Z) (r : t) : t :=
  mkPlayer (id r) (name r) (investigatorId r) v (items r) (health r) (sanity r) (attributes r) (x r) (y r) (movesRemaining r) (actionsRemaining r) (isWounded r) (isInsane r) (secretObjective r) (usedItemAbilityRound r) (isReady r).
Definition set_items (v : list string) (r : t) : t :=
  mkPlayer (id r) (name r) (investigatorId r) (clues r) v (health r) (sanity r) (attributes r) (x r) (y r) (movesRemaining r) (actionsRemaining r) (isWounded r) (isInsane r) (secretObjective r) (usedItemAbilityRound r) (isReady r).
Definition set_health (v : Z) (r : t) : t :=
  mkPlayer (id r) (name r) (investigatorId r) (clues r) (items r) v (sanity r) (attributes r) (x r) (y r) (movesRemaining r) (actionsRemaining r) (isWounded r) (isInsane r) (secretObjective r) (usedItemAbilityRound r) (isReady r).
Definition set_sanity (v : Z) (r : t) : t :=
  mkPlayer (id r) (name r) (investigatorId r) (clues r) (items r) (health r) v (attributes r) (x r) (y r) (movesRemaining r) (actionsRemaining r) (isWounded r) (isInsane r) (secretObjective r) (usedItemAbilityRound r) (isReady r).
Definition set_x (v : Z) (r : t) : t :=
  mkPlayer (id r) (name r) (investigatorId r) (clues r) (items r) (health r) (sanity r) (attributes r) v (y r) (movesRemaining r) (actionsRemaining r) (isWounded r) (isInsane r) (secretObjective r) (usedItemAbilityRound r) (isReady r).
Definition set_y (v : Z) (r : t) : t :=
  mkPlayer (id r) (name r) (investigatorId r) (clues r) (items r) (health r) (sanity r) (attributes r) (x r) v (movesRemaining r) (actionsRemaining r) (isWounded r) (isInsane r) (secretObjective r) (usedItemAbilityRound r) (isReady r).
Definition set_movesRemaining (v : Z) (r : t) : t :=
  mkPlayer (id r) (name r) (investigatorId r) (clues r) (items r) (health r) (sanity r) (attributes r) (x r) (y r) v (actionsRemaining r) (isWounded r) (isInsane r) (secretObjective r) (usedItemAbilityRound r) (isReady r).
Definition set_actionsRemaining (v : Z) (r : t) : t :=
  mkPlayer (id r) (name r) (investigatorId r) (clues r) (items r) (health r) (sanity r) (attributes r) (x r) (y r) (movesRemaining r) v (isWounded r) (isInsane r) (secretObjective r) (usedItemAbilityRound r) (isReady r).
Definition set_isWounded (v : bool) (r : t) : t :=
  mkPlayer (id r) (name r) (investigatorId r) (clues r) (items r) (health r) (sanity r) (attributes r) (x r) (y r) (movesRemaining r) (actionsRemaining r) v (isInsane r) (secretObjective r) (usedItemAbilityRound r) (isReady r).
Definition set_isInsane (v : bool) (r : t) : t :=
  mkPlayer (id r) (name r) (investigatorId r) (clues r) (items r) (health r) (sanity r) (attributes r) (x r) (y r) (movesRemaining r) (actionsRemaining r) (isWounded r) v (secretObjective r) (usedItemAbilityRound r) (isReady r).
Definition set_secretObjective (v : option string) (r : t) : t :=
  mkPlayer (id r) (name r) (investigatorId r) (clues r) (items r) (health r) (sanity r) (attributes r) (x r) (y r) (movesRemaining r) (actionsRemaining r) (isWounded r) (isInsane r) v (usedItemAbilityRound r) (isReady r).
Definition set_usedItemAbilityRound (v : bool) (r : t) : t :=
  mkPlayer (id r) (name r) (investigatorId r) (clues r) (items r) (health r) (sanity r) (attributes r) (x r) (y r) (movesRemaining r) (actionsRemaining r) (isWounded r) (isInsane r) (secretObjective r) v (isReady r).
Definition set_isReady (v : bool) (r : t) : t :=
  mkPlayer (id r) (name r) (investigatorId r) (clues r) (items r) (health r) (sanity r) (attributes r) (x r) (y r) (movesRemaining r) (actionsRemaining r) (isWounded r) (isInsane r) (secretObjective r) (usedItemAbilityRound r) v.
End Player.

(** [interface Monster] (without [image]). *)
Module Monster.
Record t := mkMonster {
  id : string;
  templateId : string;
  name : string;
  health : number;
  maxHealth : number;
  damage : Z;
  horror : Z;
  x : Z;
  y : Z;
  tier : Z
}.
Definition set_health (v : number) (r : t) : t :=
  mkMonster (id r) (templateId r) (name r) v (maxHealth r) (damage r) (horror r) (x r) (y r) (tier r).
Definition set_x (v : Z) (r : t) : t :=
  mkMonster (id r) (templateId r) (name r) (health r) (maxHealth r) (damage r) (horror r) v (y r) (tier r).
Definition set_y (v : Z) (r : t) : t :=
  mkMonster (id r) (templateId r) (name r) (health r) (maxHealth r) (damage r) (horror r) (x r) v (tier r).
End Monster.

(** [interface Token]. *)
Module Token.
Record t := mkToken {
  id : string;
  type : TokenType;
  x : Z;
  y : Z;
  description : string;
  resolved : bool;
  requiredAttribute : option Attribute;
  difficulty : option Z;
  direction : option Direction
}.
Definition set_resolved (v : bool) (r : t) : t :=
  mkToken (id r) (type r) (x r) (y r) (description r) v (requiredAttribute r) (difficulty r) (direction r).
End Token.

(** [interface Tile] (without [roomImage], a URL for the renderer). *)
Module Tile.
Record t := mkTile {
  id : string;
  roomId : string;
  name : string;
  description : string;
  x : Z;
  y : Z;
  imageType : string;
  roomX : option Z;
  roomY : option Z;
  roomWidth : option Z;
  roomHeight : option Z
}.
Definition set_roomX (v : option Z) (r : t) : t :=
  mkTile (id r) (roomId r) (name r) (description r) (x r) (y r) (imageType r) v (roomY r) (roomWidth r) (roomHeight r).
Definition set_roomY (v : option Z) (r : t) : t :=
  mkTile (id r) (roomId r) (name r) (description r) (x r) (y r) (imageType r) (roomX r) v (roomWidth r) (roomHeight r).
Definition set_roomWidth (v : option Z) (r : t) : t :=
  mkTile (id r) (roomId r) (name r) (description r) (x r) (y r) (imageType r) (roomX r) (roomY r) v (roomHeight r).
Definition set_roomHeight (v : option Z) (r : t) : t :=
  mkTile (id r) (roomId r) (name r) (description r) (x r) (y r) (imageType r) (roomX r) (roomY r) (roomWidth r) v.
End Tile.


(** The pending dice roll of [GameState.activeDiceRoll].  [K] is what the
    request carries to resume the game once the roll is confirmed: an
    [ActionContext] in [App], a pair of callbacks in [AppCallbacks]. *)
Record DiceRollRequest (K : Type) := mkDiceRollRequest {
  playerId : string;
  attribute : Attribute;
  count : Z;
  target : Z;
  dr_description : string;
  dr_resume : K
}.
Arguments mkDiceRollRequest {K}.
Arguments playerId {K}.
Arguments attribute {K}.
Arguments count {K}.
Arguments target {K}.
Arguments dr_description {K}.
Arguments dr_resume {K}.

(** The pending puzzle of [GameState.activePuzzle]. *)
Record PuzzleRequest (K : Type) := mkPuzzleRequest {
  pz_type : PuzzleType;
  pz_token : Token.t;
  pz_resume : K
}.
Arguments mkPuzzleRequest {K}.
Arguments pz_type {K}.
Arguments pz_token {K}.
Arguments pz_resume {K}.

Record MythosEvent := mkMythosEvent {
  text : string;
  me_type : MythosKind
}.

(** [interface GameState] (without [roomCode]). *)
Module GameState.
Record t (K : Type) := mkGameState {
  phase : GamePhase;
  difficulty : Difficulty;
  round : Z;
  players : list Player.t;
  monsters : list Monster.t;
  currentPlayerIndex : nat;
  tiles : list Tile.t;
  tokens : list Token.t;
  itemDeck : list string;
  log : list string;
  storyContext : string;
  evidenceCollected : Z;
  evidenceRequired : Z;
  isEscapeOpen : bool;
  networkMode : NetworkMode;
  activeDiceRoll : option (DiceRollRequest K);
  activePuzzle : option (PuzzleRequest K);
  mythosEvent : option MythosEvent
}.
Arguments mkGameState {K}.
Arguments phase {K}.
Arguments difficulty {K}.
Arguments round {K}.
Arguments players {K}.
Arguments monsters {K}.
Arguments currentPlayerIndex {K}.
Arguments tiles {K}.
Arguments tokens {K}.
Arguments itemDeck {K}.
Arguments log {K}.
Arguments storyContext {K}.
Arguments evidenceCollected {K}.
Arguments evidenceRequired {K}.
Arguments isEscapeOpen {K}.
Arguments networkMode {K}.
Arguments activeDiceRoll {K}.
Arguments activePuzzle {K}.
Arguments mythosEvent {K}.
Definition set_phase {K} (v : GamePhase) (r : t K) : t K :=
  mkGameState v (difficulty r) (round r) (players r) (monsters r) (currentPlayerIndex r) (tiles r) (tokens r) (itemDeck r) (log r) (storyContext r) (evidenceCollected r) (evidenceRequired r) (isEscapeOpen r) (networkMode r) (activeDiceRoll r) (activePuzzle r) (mythosEvent r).
Definition set_round {K} (v : Z) (r : t K) : t K :=
  mkGameState (phase r) (difficulty r) v (players r) (monsters r) (currentPlayerIndex r) (tiles r) (tokens r) (itemDeck r) (log r) (storyContext r) (evidenceCollected r) (evidenceRequired r) (isEscapeOpen r) (networkMode r) (activeDiceRoll r) (activePuzzle r) (mythosEvent r).
Definition set_players {K} (v : list Player.t) (r : t K) : t K :=
  mkGameState (phase r) (difficulty r) (round r) v (monsters r) (currentPlayerIndex r) (tiles r) (tokens r) (itemDeck r) (log r) (storyContext r) (evidenceCollected r) (evidenceRequired r) (isEscapeOpen r) (networkMode r) (activeDiceRoll r) (activePuzzle r) (mythosEvent r).
Definition set_monsters {K} (v : list Monster.t) (r : t K) : t K :=
  mkGameState (phase r) (difficulty r) (round r) (players r) v (currentPlayerIndex r) (tiles r) (tokens r) (itemDeck r) (log r) (storyContext r) (evidenceCollected r) (evidenceRequired r) (isEscapeOpen r) (networkMode r) (activeDiceRoll r) (activePuzzle r) (mythosEvent r).
Definition set_currentPlayerIndex {K} (v : nat) (r : t K) : t K :=
  mkGameState (phase r) (difficulty r) (round r) (players r) (monsters r) v (tiles r) (tokens r) (itemDeck r) (log r) (storyContext r) (evidenceCollected r) (evidenceRequired r) (isEscapeOpen r) (networkMode r) (activeDiceRoll r) (activePuzzle r) (mythosEvent r).
Definition set_tiles {K} (v : list Tile.t) (r : t K) : t K :=
  mkGameState (phase r) (difficulty r) (round r) (players r) (monsters r) (currentPlayerIndex r) v (tokens r) (itemDeck r) (log r) (storyContext r) (evidenceCollected r) (evidenceRequired r) (isEscapeOpen r) (networkMode r) (activeDiceRoll r) (activePuzzle r) (mythosEvent r).
Definition set_tokens {K} (v : list Token.t) (r : t K) : t K :=
  mkGameState (phase r) (difficulty r) (round r) (players r) (monsters r) (currentPlayerIndex r) (tiles r) v (itemDeck r) (log r) (storyContext r) (evidenceCollected r) (evidenceRequired r) (isEscapeOpen r) (networkMode r) (activeDiceRoll r) (activePuzzle r) (mythosEvent r).
Definition set_itemDeck {K} (v : list string) (r : t K) : t K :=
  mkGameState (phase r) (difficulty r) (round r) (players r) (monsters r) (currentPlayerIndex r) (tiles r) (tokens r) v (log r) (storyContext r) (evidenceCollected r) (evidenceRequired r) (isEscapeOpen r) (networkMode r) (activeDiceRoll r) (activePuzzle r) (mythosEvent r).
Definition set_log {K} (v : list string) (r : t K) : t K :=
  mkGameState (phase r) (difficulty r) (round r) (players r) (monsters r) (currentPlayerIndex r) (tiles r) (tokens r) (itemDeck r) v (storyContext r) (evidenceCollected r) (evidenceRequired r) (isEscapeOpen r) (networkMode r) (activeDiceRoll r) (activePuzzle r) (mythosEvent r).
Definition set_storyContext {K} (v : string) (r : t K) : t K :=
  mkGameState (phase r) (difficulty r) (round r) (players r) (monsters r) (currentPlayerIndex r) (tiles r) (tokens r) (itemDeck r) (log r) v (evidenceCollected r) (evidenceRequired r) (isEscapeOpen r) (networkMode r) (activeDiceRoll r) (activePuzzle r) (mythosEvent r).
Definition set_evidenceCollected {K} (v : Z) (r : t K) : t K :=
  mkGameState (phase r) (difficulty r) (round r) (players r) (monsters r) (currentPlayerIndex r) (tiles r) (tokens r) (itemDeck r) (log r) (storyContext r) v (evidenceRequired r) (isEscapeOpen r) (networkMode r) (activeDiceRoll r) (activePuzzle r) (mythosEvent r).
Definition set_evidenceRequired {K} (v : Z) (r : t K) : t K :=
  mkGameState (phase r) (difficulty r) (round r) (players r) (monsters r) (currentPlayerIndex r) (tiles r) (tokens r) (itemDeck r) (log r) (storyContext r) (evidenceCollected r) v (isEscapeOpen r) (networkMode r) (activeDiceRoll r) (activePuzzle r) (mythosEvent r).
Definition set_isEscapeOpen {K} (v : bool) (r : t K) : t K :=
  mkGameState (phase r) (difficulty r) (round r) (players r) (monsters r) (currentPlayerIndex r) (tiles r) (tokens r) (itemDeck r) (log r) (storyContext r) (evidenceCollected r) (evidenceRequired r) v (networkMode r) (activeDiceRoll r) (activePuzzle r) (mythosEvent r).
Definition set_activeDiceRoll {K} (v : option (DiceRollRequest K)) (r : t K) : t K :=
  mkGameState (phase r) (difficulty r) (round r) (players r) (monsters r) (currentPlayerIndex r) (tiles r) (tokens r) (itemDeck r) (log r) (storyContext r) (evidenceCollected r) (evidenceRequired r) (isEscapeOpen r) (networkMode r) v (activePuzzle r) (mythosEvent r).
Definition set_activePuzzle {K} (v : option (PuzzleRequest K)) (r : t K) : t K :=
  mkGameState (phase r) (difficulty r) (round r) (players r) (monsters r) (currentPlayerIndex r) (tiles r) (tokens r) (itemDeck r) (log r) (storyContext r) (evidenceCollected r) (evidenceRequired r) (isEscapeOpen r) (networkMode r) (activeDiceRoll r) v (mythosEvent r).
Definition set_mythosEvent {K} (v : option MythosEvent) (r : t K) : t K :=
  mkGameState (phase r) (difficulty r) (round r) (players r) (monsters r) (currentPlayerIndex r) (tiles r) (tokens r) (itemDeck r) (log r) (storyContext r) (evidenceCollected r) (evidenceRequired r) (isEscapeOpen r) (networkMode r) (activeDiceRoll r) (activePuzzle r) v.
End GameState.


End Types.

(** ** constants.ts *)

Module Constants.
Import Types.

Inductive ItemType := Weapon | Utility | Relic.

#[global] Instance ItemType_eq_dec : EqDecision ItemType.
Proof. solve_decision. Defined.

(** [ITEMS], in declaration order; of an [ItemDef] only [type] is read by
    the engine. *)
Definition ITEMS_table : list (string * ItemType) :=
  [ ("Old Revolver", Weapon); ("Rusty Knife", Weapon); ("Holy Water", Weapon);
    ("Crowbar", Weapon); ("Brass Knuckles", Weapon); ("Shotgun", Weapon);
    ("Ritual Dagger", Weapon);
    ("Lantern", Utility); ("Bandages", Utility); ("Ancient Tome", Relic);
    ("Pocket Watch", Relic); ("Magnifying Glass", Utility);
    ("Elder Sign", Relic); ("Painkillers", Utility);
    ("Smelling Salts", Utility); ("Kerosene", Utility); ("Lockpick", Utility);
    ("First Aid Kit", Utility); ("Lucky Cigarette Case", Relic);
    ("Detective's Journal", Utility); ("Eldritch Glyph", Relic) ].

(** [ITEMS[k]?.type] *)
Definition ITEMS (k : string) : option ItemType :=
  snd <$> List.find (fun kv => String.eqb (fst kv) k) ITEMS_table.

(** [ITEMS[k]?.type === 'Weapon'] *)
Definition isWeapon (k : string) : bool :=
  bool_decide (ITEMS k = Some Weapon).

(** [STARTING_ITEMS = Object.keys(ITEMS)] *)
Definition STARTING_ITEMS : list string := fst <$> ITEMS_table.

(** [DICE_FACES]: three successes, two clues, three blanks. *)
Definition DICE_FACES : list DiceFace :=
  [ElderSign; ElderSign; ElderSign; Clue; Clue; Blank; Blank; Blank].

Record MonsterTemplate := mkMonsterTemplate {
  mt_id : string;
  mt_name : string;
  mt_tier : Z;
  mt_health : Z;
  mt_damage : Z;
  mt_horror : Z
}.

Definition MONSTER_TEMPLATES : list MonsterTemplate :=
  [ mkMonsterTemplate "m_cultist" "Cultist" 1 2 0 1;
    mkMonsterTemplate "m_rat" "Swarm of Rats" 1 1 1 0;
    mkMonsterTemplate "m_maniac" "Crazed Maniac" 1 3 1 0;
    mkMonsterTemplate "m_deepone" "Deep One" 2 4 1 0;
    mkMonsterTemplate "m_ghost" "Vengeful Spirit" 2 4 0 1;
    mkMonsterTemplate "m_hound" "Hound of Tindalos" 2 5 1 1;
    mkMonsterTemplate "m_shoggoth" "Shoggoth" 3 10 2 2;
    mkMonsterTemplate "m_starspawn" "Star Spawn" 3 12 2 3 ].

(** [INVESTIGATOR_TEMPLATES]: of an [Investigator] the engine reads [id]
    and the maxima [health] and [sanity]. *)
Record Investigator := mkInvestigator {
  inv_id : string;
  inv_health : Z;
  inv_sanity : Z
}.

Definition INVESTIGATOR_TEMPLATES : list Investigator :=
  [ mkInvestigator "inv_1" 7 7; mkInvestigator "inv_2" 7 7;
    mkInvestigator "inv_3" 6 8; mkInvestigator "inv_4" 8 6;
    mkInvestigator "inv_5" 6 8; mkInvestigator "inv_6" 7 7;
    mkInvestigator "inv_7" 9 5; mkInvestigator "inv_8" 6 8;
    mkInvestigator "inv_9" 6 8; mkInvestigator "inv_10" 7 7 ].

End Constants.

(** ** components/DiceRoller.tsx *)

Module DiceRoller.
Import Types Constants.

(** The properties the application passes to the widget (without
    [playerColor] and the callbacks, which are the [Emit]s below). *)
Record Props := mkProps {
  attribute : Attribute;
  amount : Z;
  playerClues : Z;
  playerItems : list string;
  usedItemAbilityRound : bool;
  target : Z
}.

(** The widget's own state: [results], [spentClues], [bonusDice]
    (the animation flag [rolling] is left out). *)
Record State := mkState {
  results : option (list DiceFace);
  spentClues : Z;
  bonusDice : Z
}.

Definition initial : State := mkState None 0 0.

(** Calls of the parent's [onConsumeItem] and [onMarkItemUsed]. *)
Inductive Emit := ConsumeItem (item : string) | MarkItemUsed.

Definition passiveBonus (pr : Props) : Z :=
  (if bool_decide (attribute pr = Observation)
      && includes "Magnifying Glass" (playerItems pr) then 1 else 0)
  + (if bool_decide (attribute pr = Lore)
        && includes "Ancient Tome" (playerItems pr) then 1 else 0)
  + (if bool_decide (attribute pr = Will)
        && includes "Elder Sign" (playerItems pr) then 1 else 0).

(** [DICE_FACES[Math.floor(Math.random() * DICE_FACES.length)]]; the index
    is in range for every draw [0 <= u < 1] (lemma [face_of_draw_in_range]),
    the default is never used for such a draw. *)
Definition face_of_draw (u : Q) : DiceFace :=
  default Blank (DICE_FACES !! random_index u (length DICE_FACES)).

(** [rollDice]: [rnd i] is the draw of die [i].  [Array(totalDice)] throws
    a [RangeError] unless the total is an array length, from 0 to 2^32 - 1:
    the result is [None] then, and the widget keeps the state it has. *)
Definition rollDice (pr : Props) (rnd : nat -> Q) (st : State) : option State :=
  let totalDice := amount pr + bonusDice st + passiveBonus pr in
  if (totalDice <? 0) || (4294967295 <? totalDice) then None
  else
    Some (mkState
            (Some ((fun i => face_of_draw (rnd i)) <$> seq 0 (Z.to_nat totalDice)))
            (spentClues st) (bonusDice st)).

(** [convertClue(index)]: spend a clue on the die at [index]. *)
Definition convertClue (pr : Props) (index : nat) (st : State) : State :=
  match results st with
  | None => st
  | Some rs =>
      if playerClues pr <=? spentClues st then st
      else if bool_decide (rs !! index = Some Clue)
      then mkState (Some (<[index := ElderSign]> rs)) (spentClues st + 1)
                   (bonusDice st)
      else st
  end.

(** [results.filter(r => r === face).length] *)
Definition count_face (face : DiceFace) (rs : list DiceFace) : Z :=
  Z.of_nat (length (List.filter (fun r => bool_decide (r = face)) rs)).

Definition passes (st : State) : Z :=
  match results st with
  | Some rs => count_face ElderSign rs
  | None => 0
  end.

Definition clues (st : State) : Z :=
  match results st with
  | Some rs => count_face Clue rs
  | None => 0
  end.

Definition isPass (pr : Props) (st : State) : bool := target pr <=? passes st.

Definition useExtraDiceItem (st : State) : State * list Emit :=
  (mkState (results st) (spentClues st) (bonusDice st + 2),
   [ConsumeItem "Lucky Cigarette Case"]).



(** Detective's Journal: the first clue face becomes a success. *)
Definition useSingleConvertItem (st : State) : State * list Emit :=
  match results st with
  | None => (st, [])
  | Some rs =>
      match findIndex (fun r => bool_decide (r = Clue)) rs with
      | Some clueIdx =>
          (mkState (Some (<[clueIdx := ElderSign]> rs)) (spentClues st)
                   (bonusDice st),
           [MarkItemUsed])
      | None => (st, [])
      end
  end.

(** Eldritch Glyph: every clue face becomes a success. *)
Definition useAllConvertItem (st : State) : State * list Emit :=
  match results st with
  | None => (st, [])
  | Some rs =>
      (mkState (Some ((fun r => if bool_decide (r = Clue) then ElderSign else r)
                        <$> rs))
               (spentClues st) (bonusDice st),
       [ConsumeItem "Eldritch Glyph"])
  end.

(** What the player can do once the dice lie on the table: click a die,
    or use one of the two converting items. *)
Inductive Click :=
| ClickDie (index : nat)
| ClickSingleConvertItem
| ClickAllConvertItem.

Definition click (pr : Props) (c : Click) (st : State) : State :=
  match c with
  | ClickDie index => convertClue pr index st
  | ClickSingleConvertItem => (useSingleConvertItem st).1
  | ClickAllConvertItem => (useAllConvertItem st).1
  end.

(** The state after a sequence of clicks, oldest first. *)
Definition clicks (pr : Props) (cs : list Click) (st : State) : State :=
  foldl (fun s c => click pr c s) st cs.

(** The arguments of [onComplete(results, spentClues)] when the player
    confirms; the button exists only once the dice are rolled. *)
Definition confirm (st : State) : option (list DiceFace * Z) :=
  match results st with
  | Some rs => Some (rs, spentClues st)
  | None => None
  end.

End DiceRoller.

(** ** services/gemini.ts, the content bridge *)

Module Gemini.
Import Types.

(** A search point of a room descriptor; [attribute] may be missing. *)
Record SearchPoint := mkSearchPoint {
  sp_description : string;
  sp_attribute : option Attribute
}.

(** The answer of [generateRoomDiscovery]. *)
Record RoomData := mkRoomData {
  rd_name : string;
  rd_description : string;
  visualType : string;
  searchPoints : option (list SearchPoint)
}.

(** The answer of [generateMythosEvent] ([param] is not read by [App]). *)
Record MythosAnswer := mkMythosAnswer {
  narrative : string;
  kind : MythosKind
}.

(** The answer of [generateIntro]. *)
Record Intro := mkIntro {
  title : string;
  introText : string;
  startingRoomDescription : string
}.

(** What a rejected live call carries: the fields [generateWithRetry]
    inspects. *)
Record ApiError := mkApiError {
  status : option Z;
  code : option Z;
  message : option string
}.

(** The outcome of one live call [ai.models.generateContent(...)]:
    [response.text], or a rejection. *)
Inductive Outcome := Answered (text : option string) | Rejected (error : ApiError).

(** The module's state: whether a client exists ([ai !== null]), the
    circuit breaker [isOffline], and, for the record, the live calls made so
    far. *)
Record Bridge := mkBridge {
  ai : bool;
  isOffline : bool;
  liveCalls : nat
}.

(** The state the module starts in: [ai = apiKey ? ... : null] and
    [isOffline = !apiKey]. *)
Definition boot (apiKey : bool) : Bridge := mkBridge apiKey (negb apiKey) 0.

(** Computations on the bridge. *)
Definition M (A : Type) : Type := Bridge -> A * Bridge.

#[global] Instance M_ret : MRet M := fun A a b => (a, b).

#[global] Instance M_bind : MBind M :=
  fun A B f m b => let '(a, b') := m b in f a b'.

(** Reading the breaker, tripping it, and making one live call against
    [service], which tells the outcome of the [n]-th live call. *)
Definition offline : M bool := fun b => (isOffline b, b).

Definition hasClient : M bool := fun b => (ai b, b).

Definition trip : M unit := fun b => (tt, mkBridge (ai b) true (liveCalls b)).

Definition live (service : nat -> Outcome) : M Outcome :=
  fun b => (service (liveCalls b), mkBridge (ai b) (isOffline b) (S (liveCalls b))).

Definition isQuotaError (error : ApiError) : bool :=
  bool_decide (status error = Some 429)
  || bool_decide (code error = Some 429)
  || from_option (str_includes "quota") false (message error)
  || from_option (str_includes "429") false (message error)
  || from_option (str_includes "EXHAUSTED") false (message error).

(** What [generateWithRetry] throws. *)
Inductive Thrown := OfflineMode | QuotaExceeded | Other (error : ApiError).

(** [generateWithRetry(fn, retries)]: [fn] is the live call (the back-off
    delay between attempts is not modelled). *)
Fixpoint generateWithRetry (service : nat -> Outcome) (retries : nat)
    : M (Thrown + option string) :=
  off ← offline;
  client ← hasClient;
  if off || negb client then mret (inl OfflineMode)
  else
    r ← live service;
    match r with
    | Answered text => mret (inr text)
    | Rejected error =>
        if isQuotaError error
        then _ ← trip; mret (inl QuotaExceeded)
        else
          match retries with
          | S retries' => generateWithRetry service retries'
          | O => mret (inl (Other error))
          end
    end.

(** *** Fallback generators *)

Definition getFallbackIntro : Intro :=
  mkIntro "The Silent Manor"
    "You stand before the looming doors of Blackwood Manor. A letter from an old friend summoned you here, but the house stands silent. The heavy oak doors are unlocked, inviting you into the darkness."
    "A grand foyer, choked with dust and shadows. Portraits of long-dead ancestors seem to watch your every move.".

Definition fallbackRoom (name desc type : string)
    (d1 : string) (a1 : Attribute) (d2 : string) (a2 : Attribute) : RoomData :=
  mkRoomData name desc type
    (Some [mkSearchPoint d1 (Some a1); mkSearchPoint d2 (Some a2)]).

(** [getFallbackRoom(direction, fromType, existingTypes)]; [u] is the draw
    among the missing mandatory rooms, [now] is [Date.now()]. *)
Definition getFallbackRoom (direction fromType : string)
    (existingTypes : list string) (u : Q) (now : Z) : option RoomData :=
  let isFromHallway := String.eqb fromType "hallway" in
  let normalizedTypes := toLowerCase <$> existingTypes in
  if negb isFromHallway then
    Some (fallbackRoom "Corridor"
            "A narrow, paneled hallway stretching into darkness." "hallway"
            "A discarded note" Observation "A loose floorboard" Strength)
  else
    let mandatory :=
      [ fallbackRoom "Kitchen" "Smells of rot." "kitchen"
          "Pantry" Observation "Icebox" Strength;
        fallbackRoom "Bathroom" "Dripping tap." "bathroom"
          "Medicine Cabinet" Lore "Bathtub" Observation ] in
    let missing :=
      List.filter (fun m => negb (includes (visualType m) normalizedTypes))
                  mandatory in
    match missing with
    | _ :: _ => missing !! random_index u (length missing)
    | [] =>
        let rooms :=
          [ fallbackRoom "Dusty Library" "Shelves lined with rotting books." "study"
              "Ancient Tome" Lore "Desk Drawer" Observation;
            fallbackRoom "Guest Bedroom" "The bed is made, but cold." "bedroom"
              "Under mattress" Observation "Wardrobe" Strength;
            fallbackRoom "Master Bedroom" "The grandeur has faded." "bedroom"
              "Vanity" Influence "Jewelry Box" Agility;
            fallbackRoom "Storage Closet" "Filled with junk." "closet"
              "Old boxes" Strength "Shelf" Observation;
            fallbackRoom "Ritual Chamber" "Bloodstains mar the floor." "ritual"
              "The Altar" Will "Runes" Lore ] in
        let repeatable r :=
          String.eqb (visualType r) "bedroom" || String.eqb (visualType r) "closet" in
        let available :=
          List.filter (fun r => repeatable r
                                || negb (includes (visualType r) normalizedTypes))
                      rooms in
        let pool := match available with
                    | _ :: _ => available
                    | [] => List.filter repeatable rooms
                    end in
        let index := Z.rem now (Z.of_nat (length pool)) in
        if index <? 0 then None else pool !! Z.to_nat index
    end.

Definition getFallbackMythos (threatLevel : Z) : MythosAnswer :=
  if threatLevel <? 3 then
    mkMythosAnswer
      "A cold draft extinguishes the candles for a moment. You feel watched."
      FLAVOR
  else if threatLevel <? 6 then
    mkMythosAnswer
      "A sudden noise from the darkness tests your nerves! Test Willpower."
      TEST
  else
    mkMythosAnswer "Something emerges from the shadows! A monster appears!" SPAWN.

Definition getFallbackInsanity (now : Z) : option string :=
  let objectives :=
    [ "You must end the game with at least 2 items in your inventory.";
      "You must not attack any monsters for the rest of the game.";
      "You must try to set fire to the mansion (Roleplay only).";
      "You are convinced another investigator is a doppelganger. Do not end your turn in their space." ] in
  let index := Z.rem now (Z.of_nat (length objectives)) in
  if index <? 0 then None else objectives !! Z.to_nat index.

(** The offline text of [generateInvestigationOutcome]. *)
Definition offlineOutcome (tokenDesc : string) (success : bool)
    (foundObject : option string) : string :=
  if negb success
  then "You search the " +:+ tokenDesc +:+ " but find nothing of value."
  else match foundObject with
       | Some o => if String.eqb o "" then
                     "You search the " +:+ tokenDesc +:+ " and find a clue."
                   else "You rummage through the " +:+ tokenDesc +:+ " and find "
                        +:+ o +:+ "."
       | None => "You search the " +:+ tokenDesc +:+ " and find a clue."
       end.

(** The text [generateInvestigationOutcome] falls back on when a live call
    fails. *)
Definition failedOutcome (success : bool) (foundObject : option string) : string :=
  if success
  then "You found "
       +:+ match foundObject with
           | Some o => if String.eqb o "" then "something" else o
           | None => "something"
           end +:+ "."
  else "You found nothing.".

(** *** API functions *)

(** The content-generation calls of the bridge, with their arguments (the
    story context only shapes the prompt of a live call). *)
Inductive Call :=
| GenerateIntro (difficulty : string) (investigators : list string)
| GenerateRoomDiscovery (direction context fromRoomType : string)
                        (existingTypes : list string)
| GenerateInvestigationOutcome (tokenDesc : string) (success : bool)
                               (context : string) (foundObject : option string)
| GenerateMythosEvent (context : string) (threatLevel : Z)
| GenerateInsanityCondition (context : string).

(** What a call resolves to. *)
Inductive Answer :=
| AnIntro (intro : Intro)
| ARoom (room : option RoomData)
| AText (text : option string)
| AMythos (event : MythosAnswer).

(** What is drawn locally while a call runs: [Math.random()] and
    [Date.now()]. *)
Record Local := mkLocal {
  draw : Q;
  now : Z
}.

(** The answer of the fallback generator of a call. *)
Definition fallback (c : Call) (l : Local) : Answer :=
  match c with
  | GenerateIntro _ _ => AnIntro getFallbackIntro
  | GenerateRoomDiscovery direction _ fromRoomType existingTypes =>
      ARoom (getFallbackRoom direction fromRoomType existingTypes (draw l) (now l))
  | GenerateInvestigationOutcome tokenDesc success _ foundObject =>
      AText (Some (offlineOutcome tokenDesc success foundObject))
  | GenerateMythosEvent _ threatLevel => AMythos (getFallbackMythos threatLevel)
  | GenerateInsanityCondition _ => AText (getFallbackInsanity (now l))
  end.

(** The answer of a call whose live attempt failed (the [catch] branch). *)
Definition recovered (c : Call) (l : Local) : Answer :=
  match c with
  | GenerateInvestigationOutcome _ success _ foundObject =>
      AText (Some (failedOutcome success foundObject))
  | _ => fallback c l
  end.

(** [JSON.parse(cleanJson(text))] for the three structured answers: [None]
    when it throws. *)
Record Parsers := mkParsers {
  parseIntro : string -> option Intro;
  parseRoom : string -> option RoomData;
  parseMythos : string -> option MythosAnswer
}.

(** The five exported functions, each of the shape
    [if (isOffline) return fallback; try { live } catch { fallback }]. *)
Definition generate (service : nat -> Outcome) (parsers : Parsers)
    (c : Call) (l : Local) : M Answer :=
  off ← offline;
  if (off : bool) then mret (fallback c l)
  else
    r ← generateWithRetry service 1;
    match r with
    | inl _ => mret (recovered c l)
    | inr text =>
        mret
          match c with
          | GenerateIntro _ _ =>
              match text with
              | Some text =>
                  if String.eqb text "" then recovered c l
                  else from_option AnIntro (recovered c l) (parseIntro parsers text)
              | None => recovered c l
              end
          | GenerateRoomDiscovery _ _ _ _ =>
              from_option (fun room => ARoom (Some room)) (recovered c l)
                          (parseRoom parsers (default "" text))
          | GenerateInvestigationOutcome _ _ _ _ => AText text
          | GenerateMythosEvent _ _ =>
              from_option AMythos (recovered c l)
                          (parseMythos parsers (default "" text))
          | GenerateInsanityCondition _ => AText text
          end
    end.

(** A session's worth of calls, in order, each with its local draws. *)
Fixpoint session (service : nat -> Outcome) (parsers : Parsers)
    (calls : list (Call * Local)) : M (list Answer) :=
  match calls with
  | [] => mret []
  | (c, l) :: calls =>
      a ← generate service parsers c l;
      rest ← session service parsers calls;
      mret (a :: rest)
  end.

End Gemini.

(** ** App.tsx, the snapshot that resumes through an [ActionContext] *)

Module App.
Import Types Constants.
Import Gemini (SearchPoint, mkSearchPoint, sp_description, sp_attribute, RoomData, rd_name, rd_description, visualType, searchPoints, MythosAnswer, narrative, kind).

(** Modelled from the spec: the declaration of [ActionContext] is not among
    the sources ([types.ts] is the earlier snapshot's); the two shapes are
    the ones this component builds and dispatches on,
    [{ type: 'SEARCH', tokenId }] and [{ type: 'COMBAT', monsterId }]. *)
Inductive ActionContext :=
| SEARCH (tokenId : string)
| COMBAT (monsterId : string).

Abbreviation State := (GameState.t ActionContext).

(** [players.find(p => p.id === playerId)] *)
Definition findPlayer (playerId : string) (ps : list Player.t) : option Player.t :=
  List.find (fun p => String.eqb (Player.id p) playerId) ps.

(** [players.map(p => p.id === playerId ? f(p) : p)] *)
Definition mapPlayer (playerId : string) (f : Player.t -> Player.t)
    (ps : list Player.t) : list Player.t :=
  (fun p => if String.eqb (Player.id p) playerId then f p else p) <$> ps.

(** The state update of [addLog(msg)]. *)
Definition addLog (msg : string) (prev : State) : State :=
  GameState.set_log (slice_last 50 (GameState.log prev ++ [msg])) prev.

Definition updatePlayerAction (playerId : string) (delta : Z) (prev : State) : State :=
  GameState.set_players
    (mapPlayer playerId
       (fun p => Player.set_actionsRemaining (Player.actionsRemaining p + delta) p)
       (GameState.players prev))
    prev.

(** [template ? template.health : 7] for the player's investigator. *)
Definition templateHealth (investigatorId : string) : Z :=
  match List.find (fun t => String.eqb (inv_id t) investigatorId)
                  INVESTIGATOR_TEMPLATES with
  | Some template => inv_health template
  | None => 7
  end.

(** *** applyDamage *)

(** The first state update of [applyDamage(playerId, damage, horror)]. *)
Definition applyDamage_update (playerId : string) (damage horror : Z)
    (prev : State) : State :=
  match findPlayer playerId (GameState.players prev) with
  | None => prev
  | Some player =>
      let newHealth := Player.health player - damage in
      let newSanity := Player.sanity player - horror in
      if (newHealth <=? 0) && Player.isWounded player then
        let elimMsg := Player.name player +:+ " has succumbed to their wounds!" in
        GameState.set_log (slice_last 50 (GameState.log prev ++ [elimMsg]))
          (GameState.set_players
             (List.filter (fun p => negb (String.eqb (Player.id p) playerId))
                          (GameState.players prev))
             prev)
      else
        let '(newIsWounded, newHealth, logMsg) :=
          if newHealth <=? 0
          then (true, templateHealth (Player.investigatorId player),
                Player.name player
                +:+ " is broken and Wounded! Health restored, but mobility is limited. ")
          else (Player.isWounded player, newHealth, "") in
        let '(newIsInsane, newSanity, logMsg) :=
          if newSanity <=? 0 then
            if negb (Player.isInsane player)
            then (true, 0, logMsg +:+ Player.name player +:+ " has gone INSANE! ")
            else (Player.isInsane player, 0, logMsg)
          else (Player.isInsane player, newSanity, logMsg) in
        let justWounded := newIsWounded && negb (Player.isWounded player) in
        let updatedPlayer :=
          Player.set_health newHealth
            (Player.set_sanity newSanity
               (Player.set_isWounded newIsWounded
                  (Player.set_isInsane newIsInsane
                     (Player.set_actionsRemaining
                        (if justWounded then Z.min (Player.actionsRemaining player) 1
                         else Player.actionsRemaining player)
                        (Player.set_movesRemaining
                           (if justWounded then Z.min (Player.movesRemaining player) 1
                            else Player.movesRemaining player)
                           player))))) in
        GameState.set_log
          (if String.eqb logMsg "" then GameState.log prev
           else slice_last 50 (GameState.log prev ++ [logMsg]))
          (GameState.set_players
             (mapPlayer playerId (fun _ => updatedPlayer) (GameState.players prev))
             prev)
  end.

(** The test [applyDamage] makes, on the state of its closure, before it
    asks the content bridge for a secret objective. *)
Definition applyDamage_wantsObjective (playerId : string) (horror : Z)
    (gameState : State) : bool :=
  match findPlayer playerId (GameState.players gameState) with
  | Some player =>
      negb (Player.isInsane player) && (Player.sanity player - horror <=? 0)
  | None => false
  end.

(** The second state update, once [generateInsanityCondition] has answered
    with [objective] ([response.text] can be [undefined]). *)
Definition applyDamage_objective (playerId : string) (objective : option string)
    (prev : State) : State :=
  GameState.set_players
    (mapPlayer playerId (Player.set_secretObjective objective)
               (GameState.players prev))
    prev.

(** [applyDamage] as a whole, when nothing else touches the session while
    the bridge is asked: [gameState] is the state of the closure, [prev] the
    state the first update receives, [objective] the bridge's answer. *)
Definition applyDamage (playerId : string) (damage horror : Z)
    (objective : option string) (gameState prev : State) : State :=
  let s := applyDamage_update playerId damage horror prev in
  if applyDamage_wantsObjective playerId horror gameState
  then applyDamage_objective playerId objective s
  else s.

(** *** endTurn, runMythosPhase, endMythosPhase *)

(** [monsters.filter(m => m.x === x && m.y === y)] *)
Definition monstersAt (x y : Z) (ms : list Monster.t) : list Monster.t :=
  List.filter (fun m => (Monster.x m =? x) && (Monster.y m =? y)) ms.

(** [{ ...p, actionsRemaining: p.isWounded ? 1 : 2, movesRemaining: ... }] *)
Definition refresh (p : Player.t) : Player.t :=
  Player.set_actionsRemaining (if Player.isWounded p then 1 else 2)
    (Player.set_movesRemaining (if Player.isWounded p then 1 else 2) p).

(** The state update of [endTurn] that hands the turn to [nextIndex].  The
    callback of [prev.players.map] reads [prev.players[nextIndex].id]: with
    no player at [nextIndex] and a non-empty list it throws. *)
Definition endTurn_pass (nextIndex : nat) (prev : State) : option State :=
  match GameState.players prev with
  | [] => Some (GameState.set_currentPlayerIndex nextIndex prev)
  | _ :: _ =>
      next ← GameState.players prev !! nextIndex;
      Some (GameState.set_currentPlayerIndex nextIndex
              (GameState.set_players
                 (mapPlayer (Player.id next) refresh (GameState.players prev))
                 prev))
  end.

(** The first state update of [runMythosPhase]; [nextRound] is computed
    from the state the handler captured. *)
Definition runMythosPhase_begin (currentState prev : State) : State :=
  GameState.set_phase Mythos
    (GameState.set_round (GameState.round currentState + 1) prev).

Definition sumZ (l : list Z) : Z := foldr Z.add 0 l.

(** [endTurn(remote)] up to its last synchronous state update, run on a
    session at rest ([currentState] is both the captured and the current
    state).  A client that is not relaying sends [ACTION_END_TURN] and
    changes nothing.  The bridge calls started on the way
    ([generateInsanityCondition], [generateMythosEvent]) are continued by
    [applyDamage_objective] and [runMythosPhase_event]. *)
Definition endTurn (remote : bool) (currentState : State) : option State :=
  if bool_decide (GameState.networkMode currentState = Client) && negb remote
  then Some currentState
  else
    player ← GameState.players currentState
               !! GameState.currentPlayerIndex currentState;
    let enemies :=
      monstersAt (Player.x player) (Player.y player)
                 (GameState.monsters currentState) in
    let totalDmg := sumZ (Monster.damage <$> enemies) in
    let totalHorror := sumZ (Monster.horror <$> enemies) in
    let attacked :=
      (0 <? Z.of_nat (length enemies)) && ((0 <? totalDmg) || (0 <? totalHorror)) in
    let s :=
      if attacked
      then applyDamage_update (Player.id player) totalDmg totalHorror
             (addLog (Player.name player +:+ " is attacked by enemies!") currentState)
      else currentState in
    let nextIndex :=
      ((GameState.currentPlayerIndex currentState + 1)
         `mod` length (GameState.players currentState))%nat in
    if bool_decide (nextIndex = 0%nat)
    then Some (runMythosPhase_begin currentState s)
    else endTurn_pass nextIndex s.

(** [endMythosPhase()]; it reads the current state. *)
Definition endMythosPhase (prev : State) : State :=
  match GameState.players prev with
  | [] => GameState.set_phase GameOver (addLog "ALL INVESTIGATORS ELIMINATED" prev)
  | _ :: _ =>
      addLog "New Round."
        (GameState.set_phase Playing
           (GameState.set_mythosEvent None
              (GameState.set_currentPlayerIndex 0%nat
                 (GameState.set_players
                    ((fun p => Player.set_usedItemAbilityRound false (refresh p))
                       <$> GameState.players prev)
                    prev))))
  end.

(** [Math.min(10, nextRound + (difficulty === 'Hard' ? 2 : 0))] *)
Definition threat (currentState : State) : Z :=
  Z.min 10 (GameState.round currentState + 1
            + (if bool_decide (GameState.difficulty currentState = Hard)
               then 2 else 0)).

(** [MONSTER_TEMPLATES.find(m => m.tier === tier) || MONSTER_TEMPLATES[0]] *)
Definition spawnTemplate (tier : Z) : option MonsterTemplate :=
  match List.find (fun m => mt_tier m =? tier) MONSTER_TEMPLATES with
  | Some m => Some m
  | None => MONSTER_TEMPLATES !! 0%nat
  end.

(** The rest of [runMythosPhase], after [generateMythosEvent] answered:
    monsters and players are rebuilt from the captured [currentState].  [u]
    is the draw for the spawn tile, [now] is [Date.now()].  An exception (no
    tile to spawn on) is caught and ends the phase. *)
Definition runMythosPhase_event (currentState : State) (event : MythosAnswer)
    (u : Q) (now : Z) (prev : State) : State :=
  let finish newMonsters newPlayers logMsg :=
    GameState.set_log (slice_last 50 (GameState.log prev ++ [logMsg]))
      (GameState.set_mythosEvent (Some (mkMythosEvent logMsg (kind event)))
         (GameState.set_players newPlayers
            (GameState.set_monsters newMonsters prev))) in
  match kind event with
  | SPAWN =>
      match GameState.tiles currentState
              !! random_index u (length (GameState.tiles currentState)),
            spawnTemplate (if 6 <? threat currentState then 2 else 1) with
      | Some tile, Some mTemplate =>
          let monster :=
            Monster.mkMonster ("m_" +:+ pretty now) (mt_id mTemplate)
              (mt_name mTemplate) (Num (mt_health mTemplate))
              (Num (mt_health mTemplate)) (mt_damage mTemplate)
              (mt_horror mTemplate) (Tile.x tile) (Tile.y tile)
              (mt_tier mTemplate) in
          finish (GameState.monsters currentState ++ [monster])
                 (GameState.players currentState)
                 (narrative event +:+ " A " +:+ Monster.name monster +:+ " appears!")
      | _, _ => endMythosPhase prev
      end
  | TEST =>
      finish (GameState.monsters currentState)
             ((fun p => Player.set_sanity (Z.max 0 (Player.sanity p - 1)) p)
                <$> GameState.players currentState)
             (narrative event
              +:+ " The darkness presses in. All investigators take 1 Horror.")
  | FLAVOR =>
      finish (GameState.monsters currentState) (GameState.players currentState)
             (narrative event)
  end.

(** *** Combat *)

(** What a finished dice roll or puzzle hands to [handleActionComplete] as
    [data]: the confirmed faces, or nothing (a puzzle). *)
Inductive TaskData := Faces (faces : list DiceFace) | NoData.

Definition face_name (f : DiceFace) : string :=
  match f with ElderSign => "PASS" | Clue => "CLUE" | Blank => "FAIL" end.

(** [String(data)]: an array prints as its elements joined by commas. *)
Definition data_toString (d : TaskData) : string :=
  match d with
  | Faces fs => String.concat "," (face_name <$> fs)
  | NoData => "undefined"
  end.

(** [Number(data)], the conversion [health - damage] applies to its right
    operand: the empty array is [0]; every other array of face names, and
    [undefined], is [NaN]. *)
Definition data_toNumber (d : TaskData) : number :=
  match d with
  | Faces [] => Num 0
  | Faces (_ :: _) => NaN
  | NoData => NaN
  end.

(** [totalDmg] of [handleMonsterClick]: [1] plus [1] for a weapon, [2] if
    the first weapon held is a shotgun.  The handler computes it and does
    not use it. *)
Definition totalDmg (player : Player.t) : Z :=
  let weapon := List.find isWeapon (Player.items player) in
  let baseDmg := 1 in
  let weaponDmg :=
    match weapon with
    | Some w => if str_includes "Shotgun" w then 2 else 1
    | None => 0
    end in
  baseDmg + weaponDmg.

(** [handleMonsterClick(monster, remote)].  A client that is not relaying
    sends [ACTION_MONSTER_CLICK] and changes nothing. *)
Definition handleMonsterClick (monster : Monster.t) (remote : bool)
    (currentState : State) : option State :=
  if negb (bool_decide (GameState.phase currentState = Playing))
  then Some currentState
  else if bool_decide (GameState.networkMode currentState = Client) && negb remote
  then Some currentState
  else
    player ← GameState.players currentState
               !! GameState.currentPlayerIndex currentState;
    if Player.actionsRemaining player <=? 0
    then Some (addLog "No actions remaining." currentState)
    else if (0 <? Z.abs (Player.x player - Monster.x monster)
                  + Z.abs (Player.y player - Monster.y monster))
            && negb (existsb (fun i => str_includes "Revolver" i
                                       || str_includes "Shotgun" i)
                             (Player.items player))
    then Some (addLog "Too far to attack! (Need firearm)" currentState)
    else
      let str := Player.attributes player Strength in
      Some (updatePlayerAction (Player.id player) (-1)
              (GameState.set_phase DiceRoll
                 (GameState.set_activeDiceRoll
                    (Some (mkDiceRollRequest (Player.id player) Strength str 2
                             ("Attacking " +:+ Monster.name monster)
                             (COMBAT (Monster.id monster))))
                    currentState))).

(** [resolveCombat(monsterId, hit, damage)]; [damage] is the [data] of the
    completed task. *)
Definition resolveCombat (monsterId : string) (hit : bool) (damage : TaskData)
    (prev : State) : State :=
  let monsters := GameState.monsters prev in
  let '(newMonsters, msg) :=
    match findIndex (fun m => String.eqb (Monster.id m) monsterId) monsters with
    | Some mIdx =>
        if hit then
          match monsters !! mIdx with
          | Some m =>
              let m' := Monster.set_health
                          (number_sub (Monster.health m) (data_toNumber damage)) m in
              if number_le0 (Monster.health m')
              then (delete mIdx monsters,
                    "You defeated the " +:+ Monster.name m' +:+ "!")
              else (<[mIdx := m']> monsters,
                    "You hit the " +:+ Monster.name m' +:+ " for "
                    +:+ data_toString damage +:+ " damage.")
          | None => (monsters, "Attack missed!")
          end
        else (monsters, "Attack missed!")
    | None => (monsters, "Attack missed!")
    end in
  GameState.set_log (slice_last 50 (GameState.log prev ++ [msg]))
    (GameState.set_activeDiceRoll None
       (GameState.set_phase Playing
          (GameState.set_monsters newMonsters prev))).

(** *** resolveSearch *)

Inductive RewardType := NoReward | EvidenceReward | ItemReward | ClueReward.

#[global] Instance RewardType_eq_dec : EqDecision RewardType.
Proof. solve_decision. Defined.

(** The first state update of [resolveSearch]. *)
Definition resolveSearch_begin (prev : State) : State :=
  GameState.set_phase Playing
    (GameState.set_activeDiceRoll None (GameState.set_activePuzzle None prev)).

(** The reward [resolveSearch] settles on before it asks the bridge for the
    narrative: [roll] is the draw, [state] is [gameStateRef.current] at that
    moment. *)
Definition resolveSearch_reward (success : bool) (roll : Q) (state : State)
    : RewardType :=
  if success then
    if negb (GameState.isEscapeOpen state) && Qltb roll (20 # 100)
    then EvidenceReward
    else if Qltb roll (65 # 100)
            && (0 <? Z.of_nat (length (GameState.itemDeck state)))
    then ItemReward
    else ClueReward
  else NoReward.

(** [arr.pop()]: the last element and the rest. *)
Definition pop {A} (arr : list A) : option A * list A :=
  (last arr, take (length arr - 1) arr).

(** The state update of [resolveSearch] that applies the reward, once the
    bridge answered with [narrative].  The acting player is
    [prev.players[prev.currentPlayerIndex]]; without one the update throws. *)
Definition resolveSearch_apply (token : Token.t) (success : bool)
    (rewardType : RewardType) (narrative : string) (prev : State)
    : option State :=
  currentPlayer ← GameState.players prev !! GameState.currentPlayerIndex prev;
  let giveClue p := Player.set_clues (Player.clues p + 1) p in
  let '(currentPlayer, newItemDeck, newEvidenceCount, rewardMsg) :=
    if success then
      match rewardType with
      | EvidenceReward =>
          (currentPlayer, GameState.itemDeck prev,
           GameState.evidenceCollected prev + 1, "Found: EVIDENCE")
      | ItemReward =>
          match pop (GameState.itemDeck prev) with
          | (Some popped, rest) =>
              if String.eqb popped ""
              then (giveClue currentPlayer, rest,
                    GameState.evidenceCollected prev, "Found: 1 Clue")
              else (Player.set_items (Player.items currentPlayer ++ [popped])
                                     currentPlayer,
                    rest, GameState.evidenceCollected prev, "Found: " +:+ popped)
          | (None, rest) =>
              (giveClue currentPlayer, rest,
               GameState.evidenceCollected prev, "Found: 1 Clue")
          end
      | _ =>
          (giveClue currentPlayer, GameState.itemDeck prev,
           GameState.evidenceCollected prev, "Found: 1 Clue")
      end
    else (currentPlayer, GameState.itemDeck prev,
          GameState.evidenceCollected prev, "Found nothing") in
  let newTokens :=
    if success
    then List.filter (fun t => negb (String.eqb (Token.id t) (Token.id token)))
                     (GameState.tokens prev)
    else GameState.tokens prev in
  let currentPlayer :=
    Player.set_actionsRemaining (Player.actionsRemaining currentPlayer - 1)
                                currentPlayer in
  let logMsg :=
    (if success then "SUCCESS" else "FAILURE") +:+ ": " +:+ rewardMsg +:+ ". "
    +:+ narrative in
  Some (GameState.set_players
          (<[GameState.currentPlayerIndex prev := currentPlayer]>
             (GameState.players prev))
          (GameState.set_tokens newTokens
             (GameState.set_itemDeck newItemDeck
                (GameState.set_log
                   (slice_last 50 (GameState.log prev ++ [logMsg]))
                   (GameState.set_storyContext
                      (GameState.storyContext prev +:+ " Investigation of "
                       +:+ Token.description token +:+ ": " +:+ narrative)
                      (GameState.set_evidenceCollected newEvidenceCount prev)))))).

(** [MONSTER_TEMPLATES.find(m => m.tier === 3)
     || MONSTER_TEMPLATES[MONSTER_TEMPLATES.length - 1]] *)
Definition bossTemplate : option MonsterTemplate :=
  match List.find (fun m => mt_tier m =? 3) MONSTER_TEMPLATES with
  | Some m => Some m
  | None => last MONSTER_TEMPLATES
  end.

Definition escapeToken : Token.t :=
  Token.mkToken "tok_escape" Escape 0 0 "Exit the Mansion" false None None None.

Definition finaleMsg : string :=
  "You found the final piece of evidence! The ancient ritual is exposed. The Master of the House has awoken! RETREAT TO THE FOYER!".

(** The state update [resolveSearch] schedules 100 ms after the reward:
    the finale.  [u] is the draw for the boss's tile, [now] is [Date.now()].
    It reads the current state; with no tile to spawn on it throws. *)
Definition resolveSearch_finale (u : Q) (now : Z) (current : State)
    : option State :=
  if (GameState.evidenceRequired current <=? GameState.evidenceCollected current)
     && negb (GameState.isEscapeOpen current)
  then
    spawnTile ← GameState.tiles current
                  !! random_index u (length (GameState.tiles current));
    bossTemplate ← bossTemplate;
    let bossHealth :=
      mt_health bossTemplate + Z.of_nat (length (GameState.players current)) * 3 in
    let boss :=
      Monster.mkMonster ("boss_" +:+ pretty now) (mt_id bossTemplate)
        (mt_name bossTemplate) (Num bossHealth) (Num bossHealth)
        (mt_damage bossTemplate + 1) (mt_horror bossTemplate + 1)
        (Tile.x spawnTile) (Tile.y spawnTile) 3 in
    Some (GameState.set_isEscapeOpen true
            (GameState.set_monsters (GameState.monsters current ++ [boss])
               (GameState.set_tokens (GameState.tokens current ++ [escapeToken])
                  (GameState.set_log
                     (slice_last 50
                        (GameState.log current ++ ["FINALE: " +:+ finaleMsg]))
                     current))))
  else Some current.

(** *** The dice roller's [onComplete] and [handleActionComplete] *)

(** How a confirmed roll or puzzle is taken up. *)
Inductive Completion :=
| Relayed (s : State)
    (* a client: [ACTION_COMPLETE_TASK] goes to the host, the pending
       request is cleared locally *)
| Resolved (s : State)
    (* resolved at once *)
| Searching (token : Token.t) (s : State).
    (* [resolveSearch(token, success, data)] took over; [s] is the state
       after its first update *)

(** The session a completion leaves behind (on a client: the local one). *)
Definition completion_state (c : Completion) : State :=
  match c with
  | Relayed s | Resolved s | Searching _ s => s
  end.

(** [handleActionComplete(context, success, data)]: [gameState] is the state
    of the closure, [prev] the state the updates apply to. *)
Definition handleActionComplete (context : ActionContext) (success : bool)
    (data : TaskData) (gameState prev : State) : Completion :=
  if bool_decide (GameState.networkMode gameState = Client)
  then Relayed (GameState.set_phase Playing
                  (GameState.set_activeDiceRoll None
                     (GameState.set_activePuzzle None prev)))
  else
    match context with
    | SEARCH tokenId =>
        match List.find (fun t => String.eqb (Token.id t) tokenId)
                        (GameState.tokens gameState) with
        | Some token => Searching token (resolveSearch_begin prev)
        | None => Resolved (resolveSearch_begin prev)
        end
    | COMBAT monsterId => Resolved (resolveCombat monsterId success data prev)
    end.

(** The number of successes the application counts in the confirmed
    faces. *)
Definition successes (faces : list DiceFace) : Z :=
  Z.of_nat (length (List.filter (fun f => bool_decide (f = ElderSign)) faces)).

(** Whether the roll passes: [successes >= target]. *)
Definition passed (target : Z) (faces : list DiceFace) : bool :=
  target <=? successes faces.

(** The properties the overlay passes to the dice roller: the pending
    roll's attribute, count and target, and the clues and items of the
    player whose turn it is. *)
Definition diceRollerProps (gameState : State) : option DiceRoller.Props :=
  if negb (bool_decide (GameState.phase gameState = DiceRoll)) then None
  else
    activeDiceRoll ← GameState.activeDiceRoll gameState;
    currentPlayer ← GameState.players gameState
                      !! GameState.currentPlayerIndex gameState;
    Some (DiceRoller.mkProps (attribute activeDiceRoll) (count activeDiceRoll)
            (Player.clues currentPlayer) (Player.items currentPlayer)
            (Player.usedItemAbilityRound currentPlayer) (target activeDiceRoll)).

(** The state update that charges the clues spent in the roll to the
    player whose turn it is. *)
Definition chargeClues (playerId : string) (cluesSpent : Z) (prev : State) : State :=
  GameState.set_players
    (mapPlayer playerId (fun p => Player.set_clues (Player.clues p - cluesSpent) p)
               (GameState.players prev))
    prev.

(** [onComplete(faces, cluesSpent)] of the dice roller overlay.  The overlay
    (and so this callback) exists only in phase [DiceRoll] with a pending
    roll and a current player: otherwise the result is [None]. *)
Definition onComplete (faces : list DiceFace) (cluesSpent : Z)
    (gameState : State) : option Completion :=
  if negb (bool_decide (GameState.phase gameState = DiceRoll)) then None
  else
    activeDiceRoll ← GameState.activeDiceRoll gameState;
    currentPlayer ← GameState.players gameState
                      !! GameState.currentPlayerIndex gameState;
    let success := passed (target activeDiceRoll) faces in
    let s := if 0 <? cluesSpent
             then chargeClues (Player.id currentPlayer) cluesSpent gameState
             else gameState in
    Some (handleActionComplete (dr_resume activeDiceRoll) success (Faces faces)
                               gameState s).

(** *** handleTokenClick *)

Definition formatRoomName (name : string) : string :=
  if String.prefix "the " (toLowerCase name) then name else "The " +:+ name.

Definition opposite (d : Direction) : Direction :=
  match d with North => South | South => North | East => West | West => East end.

(** The unit step of a direction on the grid ([y] grows to the south). *)
Definition step (d : Direction) : Z * Z :=
  match d with
  | North => (0, -1)
  | South => (0, 1)
  | East => (1, 0)
  | West => (-1, 0)
  end.

(** [tiles.some(t => t.x === x && t.y === y)] *)
Definition occupied (x y : Z) (tiles : list Tile.t) : bool :=
  existsb (fun t => (Tile.x t =? x) && (Tile.y t =? y)) tiles.

(** What [handleTokenClick] holds on to while it waits for the room
    descriptor: the token, the state and the player it captured, and the
    entry cell it computed. *)
Record ExploreRequest := mkExploreRequest {
  ex_token : Token.t;
  ex_currentState : State;
  ex_player : Player.t;
  ex_dir : Direction;
  entryX : Z;
  entryY : Z
}.

(** The draws of [Math.random()] made while a room is laid out, one per
    place in the code; [shuffled] is the order
    [[...newTiles].sort(() => 0.5 - Math.random())] leaves the tiles in. *)
Record ExploreDraws := mkExploreDraws {
  d2x2 : Q;
  dFwd : Q;
  dSide : Q;
  dExitCount : Q;
  dExit : nat -> Q;
  shuffled : list Tile.t -> list Tile.t;
  dDoor : nat -> Q
}.

(** The tiles of the new room: the entry tile, and for a room that is
    neither hallway nor closet a 2x2, forward or sideways extension over
    cells that [checkOccupied] finds free among the captured tiles. *)
Definition newRoomTiles (req : ExploreRequest) (roomData : RoomData)
    (draws : ExploreDraws) (now : Z) : list Tile.t :=
  let imageType := toLowerCase (visualType roomData) in
  let roomName := formatRoomName (rd_name roomData) in
  let newRoomId := "room_" +:+ pretty now in
  let tile suffix description x y :=
    Tile.mkTile ("tile_" +:+ pretty now +:+ "_" +:+ suffix) newRoomId roomName
                description x y imageType None None None None in
  let entryTile := tile "entry" (rd_description roomData) (entryX req) (entryY req) in
  let isHallway := String.eqb imageType "hallway" in
  let isCloset := String.eqb imageType "closet" in
  if negb isHallway && negb isCloset then
    let checkOccupied x y :=
      occupied x y (GameState.tiles (ex_currentState req))
      || occupied x y [entryTile] in
    let '(dx, dy) := step (ex_dir req) in
    let '(orthoX, orthoY) :=
      match ex_dir req with North | South => (1, 0) | East | West => (0, 1) end in
    let p1 := (entryX req + dx, entryY req + dy) in
    let p2 := (entryX req + orthoX, entryY req + orthoY) in
    let p3 := (entryX req + dx + orthoX, entryY req + dy + orthoY) in
    let can2x2 :=
      negb (checkOccupied p1.1 p1.2) && negb (checkOccupied p2.1 p2.2)
      && negb (checkOccupied p3.1 p3.2) in
    if can2x2 && Qltb (1 # 2) (d2x2 draws)
    then entryTile
         :: imap (fun i p => tile (pretty (Z.of_nat i)) "" p.1 p.2) [p1; p2; p3]
    else if negb (checkOccupied p1.1 p1.2) && Qltb (2 # 10) (dFwd draws)
    then [entryTile; tile "fwd" "" p1.1 p1.2]
    else if negb (checkOccupied p2.1 p2.2) && Qltb (2 # 10) (dSide draws)
    then [entryTile; tile "side" "" p2.1 p2.2]
    else [entryTile]
  else [entryTile].

(** The loop that draws [n] exits out of [possibleDirs] by [splice]; [i]
    numbers the draws.  (For a draw in [[0,1)] the index is in range; the
    last branch is there for totality.) *)
Fixpoint selectExits (n i : nat) (possibleDirs : list Direction)
    (dExit : nat -> Q) : list Direction :=
  match n with
  | O => []
  | S n' =>
      match possibleDirs with
      | [] => []
      | _ :: _ =>
          let idx := random_index (dExit i) (length possibleDirs) in
          match possibleDirs !! idx with
          | Some exDir =>
              exDir :: selectExits n' (S i) (delete idx possibleDirs) dExit
          | None => []
          end
      end
  end.

Definition direction_name (d : Direction) : string :=
  match d with
  | North => "North" | South => "South" | East => "East" | West => "West"
  end.

(** The tokens of the new room: one search token per search point, dealt
    round-robin over the shuffled tiles, and one unresolved door per
    selected exit, on a tile at that edge of the room. *)
Definition newRoomTokens (req : ExploreRequest) (roomData : RoomData)
    (draws : ExploreDraws) (now : Z) (newTiles : list Tile.t) : list Token.t :=
  let isHallway := String.eqb (toLowerCase (visualType roomData)) "hallway" in
  let xs := Tile.x <$> newTiles in
  let ys := Tile.y <$> newTiles in
  let minX := minimum (entryX req) xs in
  let minY := minimum (entryY req) ys in
  let maxX := maximum (entryX req) xs in
  let maxY := maximum (entryY req) ys in
  let exitCount :=
    if isHallway then 2%nat
    else if Qltb (6 # 10) (dExitCount draws) then 2%nat else 1%nat in
  let possibleDirs :=
    List.filter (fun d => negb (bool_decide (d = opposite (ex_dir req))))
                [North; South; East; West] in
  let selectedExits := selectExits exitCount 0 possibleDirs (dExit draws) in
  let searchPoints :=
    default [mkSearchPoint "Unknown" (Some Observation)] (searchPoints roomData) in
  let shuffledTiles := shuffled draws newTiles in
  let searchTokens :=
    imap (fun index point =>
            let targetTile :=
              shuffledTiles !! (index `mod` length shuffledTiles)%nat in
            Token.mkToken
              ("tok_" +:+ pretty now +:+ "_search_" +:+ pretty (Z.of_nat index))
              Search
              (from_option Tile.x (entryX req) targetTile)
              (from_option Tile.y (entryY req) targetTile)
              (sp_description point) false
              (Some (default Observation (sp_attribute point))) (Some 2) None)
         searchPoints in
  let doorTokens :=
    imap (fun i exDir =>
            let candidates :=
              List.filter
                (fun t => match exDir with
                          | North => Tile.y t =? minY
                          | South => Tile.y t =? maxY
                          | West => Tile.x t =? minX
                          | East => Tile.x t =? maxX
                          end)
                newTiles in
            let pool := match candidates with [] => newTiles | _ :: _ => candidates end in
            let doorTile := pool !! random_index (dDoor draws i) (length pool) in
            Token.mkToken
              ("tok_" +:+ pretty now +:+ "_door_" +:+ pretty (Z.of_nat i))
              Explore
              (from_option Tile.x (entryX req) doorTile)
              (from_option Tile.y (entryY req) doorTile)
              (if isHallway then "Heavy Door" else "Side Door") false
              None None (Some exDir))
         selectedExits in
  searchTokens ++ doorTokens.

(** [newTiles.forEach(t => { t.roomX = minX; ... })]: the bounding box of
    the room, for the renderer. *)
Definition withBoundingBox (req : ExploreRequest) (newTiles : list Tile.t)
    : list Tile.t :=
  let xs := Tile.x <$> newTiles in
  let ys := Tile.y <$> newTiles in
  let minX := minimum (entryX req) xs in
  let minY := minimum (entryY req) ys in
  let width := maximum (entryX req) xs - minX + 1 in
  let height := maximum (entryY req) ys - minY + 1 in
  (fun t => Tile.set_roomX (Some minX)
              (Tile.set_roomY (Some minY)
                 (Tile.set_roomWidth (Some width)
                    (Tile.set_roomHeight (Some height) t)))) <$> newTiles.

(** The state update at the end of the Explore branch of
    [handleTokenClick], once [generateRoomDiscovery] answered with
    [roomData].  Tiles, log and story are appended to [prev]; players and
    tokens are rebuilt from the captured state. *)
Definition handleTokenClick_explore (req : ExploreRequest) (roomData : RoomData)
    (draws : ExploreDraws) (now : Z) (prev : State) : State :=
  let currentState := ex_currentState req in
  let player := ex_player req in
  let roomName := formatRoomName (rd_name roomData) in
  let newTiles :=
    withBoundingBox req (newRoomTiles req roomData draws now) in
  let newTokens := newRoomTokens req roomData draws now newTiles in
  let updatedPlayers :=
    mapPlayer (Player.id player)
      (fun p => Player.set_x (entryX req)
                  (Player.set_y (entryY req)
                     (Player.set_actionsRemaining (Player.actionsRemaining p - 1) p)))
      (GameState.players currentState) in
  let updatedTokens :=
    (fun t => if String.eqb (Token.id t) (Token.id (ex_token req))
              then Token.set_resolved true t else t)
      <$> GameState.tokens currentState in
  GameState.set_tiles (GameState.tiles prev ++ newTiles)
    (GameState.set_tokens (updatedTokens ++ newTokens)
       (GameState.set_players updatedPlayers
          (GameState.set_storyContext
             (GameState.storyContext prev +:+ " They entered " +:+ roomName
              +:+ ". " +:+ rd_description roomData)
             (GameState.set_log
                (slice_last 50
                   (GameState.log prev
                    ++ [Player.name player +:+ " explores " +:+ roomName
                        +:+ ". " +:+ rd_description roomData]))
                prev)))).

(** How a click on a token is taken up. *)
Inductive TokenClick :=
| Settled (s : State)
    (* every state update made; a client that is not relaying sends
       [ACTION_TOKEN_CLICK] and changes nothing *)
| Exploring (req : ExploreRequest).
    (* [generateRoomDiscovery] is awaited; no state update made yet *)

(** [handleTokenClick(token, remote)] up to its first [await].  [dPuzzle]
    and [dKind] are the draws of the Search branch. *)
Definition handleTokenClick (token : Token.t) (remote : bool)
    (dPuzzle dKind : Q) (currentState : State) : option TokenClick :=
  if negb (bool_decide (GameState.phase currentState = Playing))
  then Some (Settled currentState)
  else if bool_decide (GameState.networkMode currentState = Client) && negb remote
  then Some (Settled currentState)
  else
    player ← GameState.players currentState
               !! GameState.currentPlayerIndex currentState;
    if negb ((Player.x player =? Token.x token) && (Player.y player =? Token.y token))
    then Some (Settled (addLog "You must be in the same area to interact." currentState))
    else if bool_decide (Token.type token = Escape)
    then Some (Settled (GameState.set_phase Victory currentState))
    else if Player.actionsRemaining player <=? 0
    then Some (Settled (addLog "No actions remaining." currentState))
    else
      match Token.type token with
      | Explore =>
          let dir := default North (Token.direction token) in
          let '(dx, dy) := step dir in
          let entryX := Token.x token + dx in
          let entryY := Token.y token + dy in
          if occupied entryX entryY (GameState.tiles currentState)
          then
            Some (Settled
                    (GameState.set_tokens
                       ((fun t => if String.eqb (Token.id t) (Token.id token)
                                  then Token.set_resolved true t else t)
                          <$> GameState.tokens currentState)
                       (updatePlayerAction (Player.id player) (-1)
                          (addLog (Player.name player
                                   +:+ " opens the door, but it leads to a known room.")
                                  currentState))))
          else Some (Exploring (mkExploreRequest token currentState player dir
                                                 entryX entryY))
      | Search =>
          if Qltb (7 # 10) dPuzzle then
            let puzzleType :=
              if Qltb dKind (33 # 100) then Sliding
              else if Qltb dKind (66 # 100) then Rune else Code in
            Some (Settled
                    (GameState.set_phase Puzzle
                       (GameState.set_activePuzzle
                          (Some (mkPuzzleRequest puzzleType token
                                                 (SEARCH (Token.id token))))
                          currentState)))
          else
            let attr := default Observation (Token.requiredAttribute token) in
            let difficulty :=
              match Token.difficulty token with
              | Some d => if d =? 0 then 1 else d
              | None => 1
              end in
            Some (Settled
                    (GameState.set_phase DiceRoll
                       (GameState.set_activeDiceRoll
                          (Some (mkDiceRollRequest (Player.id player) attr
                                   (Player.attributes player attr) difficulty
                                   (Token.description token)
                                   (SEARCH (Token.id token))))
                          currentState)))
      | _ => Some (Settled currentState)
      end.

(** *** Moving on the board *)

(** [handleTileClick(tile, remote)], run on a session at rest.  A client that
    is not relaying sends [ACTION_TILE_CLICK] and changes nothing.  A player
    who shares the cell with a monster cannot leave it; a move goes to a tile
    at distance 1, whatever lies between the two tiles. *)
Definition handleTileClick (tile : Tile.t) (remote : bool)
    (currentState : State) : option State :=
  if negb (bool_decide (GameState.phase currentState = Playing))
  then Some currentState
  else if bool_decide (GameState.networkMode currentState = Client) && negb remote
  then Some currentState
  else
    player ← GameState.players currentState
               !! GameState.currentPlayerIndex currentState;
    if Player.movesRemaining player <=? 0
    then Some (addLog "No moves remaining." currentState)
    else
      let monstersOnTile :=
        monstersAt (Player.x player) (Player.y player)
                   (GameState.monsters currentState) in
      match monstersOnTile with
      | first :: _ =>
          if negb (Tile.x tile =? Player.x player)
             || negb (Tile.y tile =? Player.y player)
          then Some (addLog (Player.name player +:+ " is engaged by "
                             +:+ Monster.name first
                             +:+ " and cannot move! Defeat the monster first.")
                            currentState)
          else Some currentState
      | [] =>
          let dist := Z.abs (Player.x player - Tile.x tile)
                      + Z.abs (Player.y player - Tile.y tile) in
          if dist =? 1
          then Some (GameState.set_players
                       (mapPlayer (Player.id player)
                          (fun p =>
                             Player.set_x (Tile.x tile)
                               (Player.set_y (Tile.y tile)
                                  (Player.set_movesRemaining
                                     (Player.movesRemaining p - 1) p)))
                          (GameState.players currentState))
                       currentState)
          else Some currentState
      end.

(** *** Using items *)

(** [template?.health || 7] and [template?.sanity || 7] for the player's
    investigator. *)
Definition templateMax (read : Investigator -> Z) (investigatorId : string) : Z :=
  match List.find (fun t => String.eqb (inv_id t) investigatorId)
                  INVESTIGATOR_TEMPLATES with
  | Some template => if read template =? 0 then 7 else read template
  | None => 7
  end.

(** [items.filter((i, idx) => idx !== items.indexOf(item))]: the items
    without the first copy of [item]; with no copy, [indexOf] is [-1] and
    every item stays. *)
Definition consumeItem (item : string) (items : list string) : list string :=
  match findIndex (String.eqb item) items with
  | Some idx => delete idx items
  | None => items
  end.

(** [handleUseItem(item, remote)]: [gameState] is the state of the closure,
    [prev] the state the updates apply to.  A client that is not relaying
    sends [ACTION_USE_ITEM] and changes nothing.  The item is not looked up
    in the player's inventory; an item without a branch does nothing. *)
Definition handleUseItem (item : string) (remote : bool)
    (gameState prev : State) : option State :=
  if bool_decide (GameState.networkMode gameState = Client) && negb remote
  then Some prev
  else
    player ← GameState.players gameState
               !! GameState.currentPlayerIndex gameState;
    let maxHp := templateMax inv_health (Player.investigatorId player) in
    let maxSanity := templateMax inv_sanity (Player.investigatorId player) in
    let newItems := consumeItem item (Player.items player) in
    let updatePlayer (updates : Player.t -> Player.t) (s : State) : State :=
      GameState.set_players
        (mapPlayer (Player.id player) updates (GameState.players s)) s in
    let heal (amount : Z) (horror : Z) (msg : string) :=
      let newHp := Z.min (Player.health player + amount) maxHp in
      if Player.health player <? newHp
      then addLog msg
             (updatePlayer
                (fun p =>
                   Player.set_health newHp
                     (Player.set_items newItems
                        (if horror =? 0 then p
                         else Player.set_sanity
                                (Z.max 0 (Player.sanity player - horror)) p)))
                prev)
      else addLog "Health is already full." prev in
    if String.eqb item "First Aid Kit" then
      Some (heal 2 0 (Player.name player
                      +:+ " uses First Aid Kit and heals 2 Health."))
    else if String.eqb item "Bandages" then
      Some (heal 1 0 (Player.name player
                      +:+ " bandages their wounds (+1 Health)."))
    else if String.eqb item "Painkillers" then
      Some (heal 2 1 (Player.name player
                      +:+ " takes Painkillers (+2 Health, -1 Sanity)."))
    else if String.eqb item "Smelling Salts" then
      let newSanity := Z.min (Player.sanity player + 2) maxSanity in
      if Player.sanity player <? newSanity
      then Some (addLog (Player.name player
                         +:+ " uses Smelling Salts (+2 Sanity).")
                   (updatePlayer
                      (fun p => Player.set_sanity newSanity
                                  (Player.set_items newItems p))
                      prev))
      else Some (addLog "Sanity is already full." prev)
    else if String.eqb item "Pocket Watch" then
      Some (addLog (Player.name player
                    +:+ " checks the Pocket Watch. Time seems to slow (+2 Actions).")
              (updatePlayer
                 (fun p => Player.set_actionsRemaining
                             (Player.actionsRemaining player + 2)
                             (Player.set_items newItems p))
                 prev))
    else if String.eqb item "Kerosene" then
      match monstersAt (Player.x player) (Player.y player)
                       (GameState.monsters gameState) with
      | target :: _ =>
          let newHealth := number_sub (Monster.health target) (Num 3) in
          let '(newMonsters, msg) :=
            if number_le0 newHealth
            then (List.filter
                    (fun m => negb (String.eqb (Monster.id m) (Monster.id target)))
                    (GameState.monsters gameState),
                  Player.name player +:+ " throws Kerosene! "
                  +:+ Monster.name target +:+ " burns and dies!")
            else ((fun m => if String.eqb (Monster.id m) (Monster.id target)
                            then Monster.set_health newHealth m else m)
                    <$> GameState.monsters gameState,
                  Player.name player +:+ " throws Kerosene! "
                  +:+ Monster.name target +:+ " takes 3 Fire Damage.") in
          Some (GameState.set_monsters newMonsters
                  (updatePlayer (Player.set_items newItems) (addLog msg prev)))
      | [] => Some (addLog "No monsters here to burn." prev)
      end
    else Some prev.



(** [handleMarkItemUsed()] *)
Definition handleMarkItemUsed (gameState prev : State) : option State :=
  player ← GameState.players gameState
             !! GameState.currentPlayerIndex gameState;
  Some (GameState.set_players
          (mapPlayer (Player.id player) (Player.set_usedItemAbilityRound true)
                     (GameState.players prev))
          prev).

(** *** Messages from the clients *)

(** The action messages a host receives, already parsed.  The payload of a
    registration can be [null]. *)
Inductive Message :=
| ACTION_REGISTER_PLAYER (payload : option Player.t)
| ACTION_PLAYER_READY (playerId : string) (isReady : bool)
| ACTION_TILE_CLICK (tileId : string)
| ACTION_TOKEN_CLICK (tokenId : string)
| ACTION_MONSTER_CLICK (monsterId : string)
| ACTION_END_TURN
| ACTION_USE_ITEM (item : string)
| ACTION_COMPLETE_TASK (context : ActionContext) (success : bool)
                       (data : TaskData).

(** The state update of a registration: a player whose id is known
    replaces the one registered under it, a new one joins at the end. *)
Definition registerPlayer (newPlayer : Player.t) (prev : State) : State :=
  let updatedPlayers :=
    match findIndex (fun p => String.eqb (Player.id p) (Player.id newPlayer))
                    (GameState.players prev) with
    | Some existsIndex => <[existsIndex := newPlayer]> (GameState.players prev)
    | None => GameState.players prev ++ [newPlayer]
    end in
  GameState.set_log
    (slice_last 50 (GameState.log prev
                    ++ [Player.name newPlayer +:+ " has joined the roster."]))
    (GameState.set_players updatedPlayers prev).

(** What became of a message. *)
Inductive Dispatched :=
| Dropped                              (* nothing was called *)
| Handled (s : option State)           (* a synchronous handler ran *)
| HandledToken (r : option TokenClick) (* [handleTokenClick] ran *)
| HandledTask (c : Completion).        (* [handleActionComplete] ran *)

(** [handleNetworkData(data)] on a session at rest; [dPuzzle] and [dKind]
    are the draws a token click may use. *)
Definition handleNetworkData (data : Message) (dPuzzle dKind : Q)
    (currentState : State) : Dispatched :=
  if negb (bool_decide (GameState.networkMode currentState = Host)) then Dropped
  else
    match data with
    | ACTION_REGISTER_PLAYER payload =>
        match payload with
        | Some newPlayer =>
            if String.eqb (Player.id newPlayer) ""
               || String.eqb (Player.name newPlayer) ""
            then Dropped
            else Handled (Some (registerPlayer newPlayer currentState))
        | None => Dropped
        end
    | ACTION_PLAYER_READY playerId isReady =>
        Handled (Some (GameState.set_players
                         (mapPlayer playerId (Player.set_isReady isReady)
                                    (GameState.players currentState))
                         currentState))
    | ACTION_TILE_CLICK tileId =>
        match List.find (fun t => String.eqb (Tile.id t) tileId)
                        (GameState.tiles currentState) with
        | Some tile => Handled (handleTileClick tile true currentState)
        | None => Dropped
        end
    | ACTION_TOKEN_CLICK tokenId =>
        match List.find (fun t => String.eqb (Token.id t) tokenId)
                        (GameState.tokens currentState) with
        | Some token =>
            HandledToken (handleTokenClick token true dPuzzle dKind currentState)
        | None => Dropped
        end
    | ACTION_MONSTER_CLICK monsterId =>
        match List.find (fun m => String.eqb (Monster.id m) monsterId)
                        (GameState.monsters currentState) with
        | Some monster => Handled (handleMonsterClick monster true currentState)
        | None => Dropped
        end
    | ACTION_END_TURN => Handled (endTurn true currentState)
    | ACTION_USE_ITEM item =>
        Handled (handleUseItem item true currentState currentState)
    | ACTION_COMPLETE_TASK context success data =>
        HandledTask (handleActionComplete context success data
                                          currentState currentState)
    end.

(** *** Setting up the mansion *)

(** [[arr[i], arr[j]] = [arr[j], arr[i]]] on two slots of the array (the
    loops below keep both in range for draws in [[0, 1)]; out of range the
    model swaps nothing). *)
Definition swap {A} (i j : nat) (arr : list A) : list A :=
  match arr !! i, arr !! j with
  | Some x, Some y => <[i := y]> (<[j := x]> arr)
  | _, _ => arr
  end.

(** [for (let i = ...; i > 0; i--) { const j = Math.floor(Math.random() *
    (i + 1)); swap(i, j) }]; [rnd i] is the draw of round [i]. *)
Fixpoint shuffleFrom {A} (rnd : nat -> Q) (i : nat) (arr : list A) : list A :=
  match i with
  | O => arr
  | S i' => shuffleFrom rnd i' (swap i (random_index (rnd i) (i + 1)) arr)
  end.

Definition shuffle {A} (rnd : nat -> Q) (arr : list A) : list A :=
  shuffleFrom rnd (length arr - 1) arr.

(** The draws [generateMapAndIntro] makes: for the deck, for the hall's
    direction, for the parlor's direction (as many as its loop takes), and
    for the door of each tile on each side. *)
Record SetupDraws := mkSetupDraws {
  dDeck : nat -> Q;
  dHall : Q;
  dParlor : list Q;
  dDoors : nat -> nat -> Q
}.

Definition dirs : list Direction := [North; South; East; West].

(** [getVec(d)]; a direction read past the end of [dirs] is [undefined],
    here [None]. *)
Definition getVec (d : option Direction) : Z * Z :=
  match d with
  | Some d => step d
  | None => (0, 0)
  end.

(** The condition of the loop that redraws [parlorDir]: it equals
    [hallDir] or is opposite to it. *)
Definition clashes (hallDir parlorDir : option Direction) : bool :=
  bool_decide (parlorDir = hallDir)
  || bool_decide (hallDir = Some North) && bool_decide (parlorDir = Some South)
  || bool_decide (hallDir = Some South) && bool_decide (parlorDir = Some North)
  || bool_decide (hallDir = Some East) && bool_decide (parlorDir = Some West)
  || bool_decide (hallDir = Some West) && bool_decide (parlorDir = Some East).

(** The first draw and the [while] loop for [parlorDir], on the draws given:
    [None] when they run out before the loop ends. *)
Fixpoint pickParlorDir (hallDir : option Direction) (draws : list Q)
    : option (option Direction) :=
  match draws with
  | [] => None
  | u :: draws' =>
      let parlorDir := dirs !! random_index u (length dirs) in
      if clashes hallDir parlorDir then pickParlorDir hallDir draws'
      else Some parlorDir
  end.

(** The five tiles the game starts with. *)
Definition startingTiles (intro : Gemini.Intro)
    (hallDir parlorDir : option Direction) : list Tile.t :=
  let '(hx, hy) := getVec hallDir in
  let '(px, py) := getVec parlorDir in
  let h1x := hx in let h1y := hy in
  let h2x := hx * 2 in let h2y := hy * 2 in
  let hallMinX := Z.min h1x h2x in
  let hallMinY := Z.min h1y h2y in
  let p1x := px in let p1y := py in
  let p2x := px * 2 in let p2y := py * 2 in
  let parlorMinX := Z.min p1x p2x in
  let parlorMinY := Z.min p1y p2y in
  [ Tile.mkTile "tile_start" "room_start_mansion" (formatRoomName "Foyer")
      (Gemini.startingRoomDescription intro) 0 0 "hallway"
      (Some 0) (Some 0) (Some 1) (Some 1);
    Tile.mkTile "tile_hall_1" "room_start_hall" (formatRoomName "Grand Hall")
      "A long corridor lined with portraits." h1x h1y "hallway"
      (Some hallMinX) (Some hallMinY) (Some 2) (Some 2);
    Tile.mkTile "tile_hall_2" "room_start_hall" (formatRoomName "Grand Hall")
      "A long corridor lined with portraits." h2x h2y "hallway"
      (Some hallMinX) (Some hallMinY) (Some 2) (Some 2);
    Tile.mkTile "tile_parlor_1" "room_start_parlor" (formatRoomName "Parlor")
      "A quiet sitting room." p1x p1y "study"
      (Some parlorMinX) (Some parlorMinY) (Some 2) (Some 2);
    Tile.mkTile "tile_parlor_2" "room_start_parlor" (formatRoomName "Parlor")
      "A quiet sitting room." p2x p2y "study"
      (Some parlorMinX) (Some parlorMinY) (Some 2) (Some 2) ].

(** The search tokens and the two open doors of the foyer. *)
Definition startingTokens (hallDir parlorDir : option Direction) : list Token.t :=
  let '(hx, hy) := getVec hallDir in
  let '(px, py) := getVec parlorDir in
  [ Token.mkToken "t_search_foyer" Search 0 0 "Coat Rack" false
      (Some Observation) (Some 2) None;
    Token.mkToken "t_search_hall_1" Search hx hy "Bust of Ancestor" false
      (Some Lore) (Some 2) None;
    Token.mkToken "t_search_hall_2" Search (hx * 2) (hy * 2) "Strange Painting"
      false (Some Observation) (Some 3) None;
    Token.mkToken "t_search_parlor_1" Search px py "Coffee Table" false
      (Some Observation) (Some 2) None;
    Token.mkToken "t_search_parlor_2" Search (px * 2) (py * 2) "Bookshelf" false
      (Some Lore) (Some 2) None;
    Token.mkToken "t_door_foyer_hall" Explore 0 0 "Archway" true
      None None hallDir;
    Token.mkToken "t_door_foyer_parlor" Explore 0 0 "Double Doors" true
      None None parlorDir ].

(** [tiles.forEach(tile => cardVectors.forEach((v, i) => ...))]: a closed
    door, with probability 0.45, on every side of a tile that faces a cell
    without a tile; [doorDraw t i] is the draw for side [i] of tile [t]. *)
Definition startingDoors (doorDraw : nat -> nat -> Q) (tiles : list Tile.t)
    : list Token.t :=
  mjoin
    (imap (fun t tile =>
             omap (fun '(i, dir) =>
                     let '(vx, vy) := step dir in
                     if occupied (Tile.x tile + vx) (Tile.y tile + vy) tiles
                     then None
                     else if Qltb (55 # 100) (doorDraw t i)
                     then Some (Token.mkToken
                                  ("t_door_" +:+ Tile.id tile +:+ "_"
                                   +:+ pretty (Z.of_nat i))
                                  Explore (Tile.x tile) (Tile.y tile)
                                  "Heavy Door" false None None (Some dir))
                     else None)
                  (imap pair dirs))
          tiles).

(** The item deck: the starting items no player was handed, shuffled. *)
Definition startingDeck (rnd : nat -> Q) (players : list Player.t) : list string :=
  let distributed := mjoin (Player.items <$> players) in
  shuffle rnd
    (List.filter (fun i => negb (includes i distributed)) STARTING_ITEMS).

(** [generateMapAndIntro()] once [generateIntro] has answered with [intro]:
    [gameState] is the state of the closure, [currentState] the one read
    through the reference when the handler started, [prev] the state the
    update applies to.  A client changes nothing.  [None]: the draws given
    for [parlorDir] have run out with its loop still going. *)
Definition generateMapAndIntro (intro : Gemini.Intro) (draws : SetupDraws)
    (gameState currentState prev : State) : option State :=
  if bool_decide (GameState.networkMode gameState = Client) then Some prev
  else
    let remainingItems := startingDeck (dDeck draws) (GameState.players currentState) in
    let hallDir := dirs !! random_index (dHall draws) (length dirs) in
    parlorDir ← pickParlorDir hallDir (dParlor draws);
    let tiles := startingTiles intro hallDir parlorDir in
    let tokens := startingTokens hallDir parlorDir
                  ++ startingDoors (dDoors draws) tiles in
    let safeIntroText :=
      if String.eqb (Gemini.introText intro) "" then "The game begins."
      else Gemini.introText intro in
    Some (GameState.set_isEscapeOpen false
            (GameState.set_evidenceRequired
               (4 + Z.of_nat (length (GameState.players currentState)) / 2)
               (GameState.set_evidenceCollected 0
                  (GameState.set_log [safeIntroText]
                     (GameState.set_storyContext safeIntroText
                        (GameState.set_itemDeck remainingItems
                           (GameState.set_tokens tokens
                              (GameState.set_tiles tiles
                                 (GameState.set_round 1
                                    (GameState.set_phase Playing
                                       (GameState.set_players
                                          (GameState.players currentState)
                                          prev))))))))))).

End App.

(** ** App.tsx, the snapshot that resumes through callbacks *)

Module AppCallbacks.
Import Types Constants.

(** The closures this snapshot stores in [activeDiceRoll.onSuccess] and
    [onFail], named by what they run ([rolls] is supplied on completion). *)
Inductive Callback :=
| CbResolveSearch (token : Token.t) (success : bool)
    (* [(rolls) => resolveSearch(token, success, rolls)] *)
| CbResolveCombat (monster : Monster.t) (player : Player.t)
    (* [(rolls) => resolveCombat(monster, player, rolls)] *)
| CbEvaded (victim : Player.t)
| CbHit (victim : Player.t) (monster : Monster.t)
| CbResisted
| CbNotResisted (victim : Player.t).

Record Callbacks := mkCallbacks {
  onSuccess : Callback;
  onFail : Callback
}.

Abbreviation State := (GameState.t Callbacks).

(** The state update of [addLog(msg)] (this snapshot keeps the whole log). *)
Definition addLog (msg : string) (prev : State) : State :=
  GameState.set_log (GameState.log prev ++ [msg]) prev.

(** *** moveMonsters *)

Abbreviation Cell := (Z * Z)%type.

(** [tokens.find(t => t.type === TokenType.Explore && t.resolved
    && t.x === tile.x && t.y === tile.y && t.direction === dir)], the
    lookup [canMove] makes at each of its two tiles.  [dir] is [None] for
    the empty string, which no token's direction equals. *)
Definition doorAt (tokens : list Token.t) (tile : Tile.t)
    (dir : option Direction) : option Token.t :=
  List.find
    (fun k => bool_decide (Token.type k = Explore) && Token.resolved k
              && (Token.x k =? Tile.x tile) && (Token.y k =? Tile.y tile)
              && match dir, Token.direction k with
                 | Some d, Some d' => bool_decide (d' = d)
                 | _, _ => false
                 end)
    tokens.

(** [canMove(t1, t2)]: the same room, or a resolved door at [t1] facing
    [t2], or one at [t2] facing [t1].  [dir] stays [''] ([None]) when the
    tiles share their coordinates. *)
Definition canMove (tokens : list Token.t) (t1 t2 : Tile.t) : bool :=
  if String.eqb (Tile.roomId t1) (Tile.roomId t2) then true
  else
    let dir : option Direction := None in
    let dir := if Tile.y t2 <? Tile.y t1 then Some North else dir in
    let dir := if Tile.y t1 <? Tile.y t2 then Some South else dir in
    let dir := if Tile.x t1 <? Tile.x t2 then Some East else dir in
    let dir := if Tile.x t2 <? Tile.x t1 then Some West else dir in
    let doorAtT1 := doorAt tokens t1 dir in
    let oppDir :=
      match dir with
      | Some North => South
      | Some South => North
      | Some East => West
      | _ => East
      end in
    let doorAtT2 := doorAt tokens t2 (Some oppDir) in
    bool_decide (is_Some doorAtT1) || bool_decide (is_Some doorAtT2).

(** [players.some(p => p.x === x && p.y === y)] *)
Definition playerAt (players : list Player.t) (c : Cell) : bool :=
  existsb (fun p => (Player.x p =? c.1) && (Player.y p =? c.2)) players.

(** [tiles.find(t => t.x === x && t.y === y)] *)
Definition tileAt (tiles : list Tile.t) (c : Cell) : option Tile.t :=
  List.find (fun t => (Tile.x t =? c.1) && (Tile.y t =? c.2)) tiles.

(** The four neighbours, in the order the loop visits them. *)
Definition neighbors (c : Cell) : list Cell :=
  [(c.1, c.2 - 1); (c.1, c.2 + 1); (c.1 + 1, c.2); (c.1 - 1, c.2)].

(** An entry of the queue: a cell and the path that led to it. *)
Abbreviation Entry := (Cell * list Cell)%type.

(** The [for] loop over the neighbours of the dequeued cell: an unvisited
    neighbour with a tile the monster can move to is marked and queued. *)
Definition expand (tiles : list Tile.t) (tokens : list Token.t)
    (currentTile : Tile.t) (c : Cell) (path : list Cell)
    (queue : list Entry) (visited : gset Cell) : list Entry * gset Cell :=
  foldl (fun '(queue, visited) n =>
           if bool_decide (n ∈ visited) then (queue, visited)
           else
             match tileAt tiles n with
             | Some nextTile =>
                 if canMove tokens currentTile nextTile
                 then (queue ++ [(n, path ++ [n])], {[n]} ∪ visited)
                 else (queue, visited)
             | None => (queue, visited)
             end)
        (queue, visited) (neighbors c).

(** The [while] loop, at most [fuel] rounds of it: [None] when the rounds
    run out, otherwise [Some targetPath]. *)
Fixpoint search (fuel : nat) (tiles : list Tile.t) (tokens : list Token.t)
    (players : list Player.t) (queue : list Entry) (visited : gset Cell)
    : option (option (list Cell)) :=
  match fuel with
  | O => None
  | S fuel' =>
      match queue with
      | [] => Some None
      | (c, path) :: queue =>
          if playerAt players c then Some (Some path)
          else
            match tileAt tiles c with
            | None => search fuel' tiles tokens players queue visited
            | Some currentTile =>
                let '(queue, visited) :=
                  expand tiles tokens currentTile c path queue visited in
                search fuel' tiles tokens players queue visited
            end
      end
  end.

(** Rounds that always suffice (lemma [search_correct]): every round
    takes an entry off the queue, and every entry put on it marks the cell
    of a tile that was not marked before. *)
Definition enough (tiles : list Tile.t) : nat := 2 * length tiles + 2.

(** The search of one monster: [targetPath]. *)
Definition findPath (tiles : list Tile.t) (tokens : list Token.t)
    (players : list Player.t) (start : Cell) : option (list Cell) :=
  match search (enough tiles) tiles tokens players [(start, [])] {[start]} with
  | Some targetPath => targetPath
  | None => None
  end.

Definition speed (monster : Monster.t) : nat :=
  if Monster.tier monster =? 3 then 3%nat else 2%nat.

(** The callback of [monsters.map]: where one monster ends up. *)
Definition moveMonster (tiles : list Tile.t) (tokens : list Token.t)
    (players : list Player.t) (monster : Monster.t) : Monster.t :=
  match findPath tiles tokens players (Monster.x monster, Monster.y monster) with
  | Some targetPath =>
      if (0 <? length targetPath)%nat then
        let steps := Nat.min (speed monster) (length targetPath) in
        let destIndex := (steps - 1)%nat in
        match targetPath !! destIndex with
        | Some dest => Monster.set_x dest.1 (Monster.set_y dest.2 monster)
        | None => monster
        end
      else monster
  | None => monster
  end.

(** [moveMonsters(currentGameState).monsters] ([logs] stays empty). *)
Definition moveMonsters (currentGameState : State) : list Monster.t :=
  moveMonster (GameState.tiles currentGameState)
              (GameState.tokens currentGameState)
              (GameState.players currentGameState)
    <$> GameState.monsters currentGameState.

(** *** endTurn and startMythosPhase *)

(** How [startMythosPhase] goes on after the monsters moved. *)
Inductive MythosStart :=
| Attacked (s : State) (roll : DiceRollRequest Callbacks)
    (* a moved monster stands on a player: [s] is the state after the
       synchronous updates, [roll] the request installed two seconds
       later *)
| AwaitingEvent (s : State) (threatLevel : Z).
    (* no attack: [generateMythosEvent(storyContext, threatLevel)] is
       awaited *)

(** The [for] loop of [startMythosPhase]: the first moved monster that
    stands on a player, with the first such player. *)
Fixpoint firstAttack (players : list Player.t) (movedMonsters : list Monster.t)
    : option (Monster.t * Player.t) :=
  match movedMonsters with
  | [] => None
  | monster :: rest =>
      match List.find (fun p => (Player.x p =? Monster.x monster)
                                && (Player.y p =? Monster.y monster))
                      players with
      | Some victim => Some (monster, victim)
      | None => firstAttack players rest
      end
  end.

(** [startMythosPhase()] up to its [return] or its [await]. *)
Definition startMythosPhase (currentState : State) : MythosStart :=
  let round := GameState.round currentState + 1 in
  let movedMonsters := moveMonsters currentState in
  let s :=
    GameState.set_monsters movedMonsters
      (addLog ("Round " +:+ pretty round +:+ " begins.") currentState) in
  match firstAttack (GameState.players currentState) movedMonsters with
  | Some (monster, victim) =>
      let attackNarrative :=
        Monster.name monster +:+ " attacks " +:+ Player.name victim +:+ "!" in
      Attacked
        (GameState.set_round round
           (GameState.set_phase Mythos
              (GameState.set_mythosEvent
                 (Some (mkMythosEvent attackNarrative TEST))
                 (addLog attackNarrative s))))
        (mkDiceRollRequest (Player.id victim) Agility
           (Player.attributes victim Agility)
           (if Monster.tier monster =? 3 then 3 else 2)
           ("Dodge the " +:+ Monster.name monster +:+ "!")
           (mkCallbacks (CbEvaded victim) (CbHit victim monster)))
  | None =>
      let tileBonus := Z.of_nat (length (GameState.tiles currentState)) / 3 in
      let threatLevel :=
        if GameState.isEscapeOpen currentState then 10
        else Z.min (round + tileBonus) 10 in
      AwaitingEvent s threatLevel
  end.

(** [endTurn(remote)]: the next player in the list, or the Mythos phase
    after the last one. *)
Definition endTurn (remote : bool) (currentState : State) : MythosStart + State :=
  if bool_decide (GameState.networkMode currentState = Client) && negb remote
  then inr currentState
  else
    let nextIndex := (GameState.currentPlayerIndex currentState + 1)%nat in
    if (length (GameState.players currentState) <=? nextIndex)%nat
    then inl (startMythosPhase currentState)
    else inr (GameState.set_currentPlayerIndex nextIndex currentState).

(** *** Combat *)

(** [handleMonsterClick(monster, remote)]: the attack roll needs as many
    successes as the monster's tier; both callbacks resolve the combat. *)
Definition handleMonsterClick (monster : Monster.t) (remote : bool)
    (currentState : State) : option State :=
  if negb (bool_decide (GameState.phase currentState = Playing))
  then Some currentState
  else if bool_decide (GameState.networkMode currentState = Client) && negb remote
  then Some currentState
  else
    player ← GameState.players currentState
               !! GameState.currentPlayerIndex currentState;
    if negb ((Player.x player =? Monster.x monster)
             && (Player.y player =? Monster.y monster))
    then Some (addLog "Too far away." currentState)
    else if Player.actionsRemaining player <=? 0
    then Some (addLog "No actions remaining to attack!" currentState)
    else
      Some (GameState.set_phase DiceRoll
              (GameState.set_activeDiceRoll
                 (Some (mkDiceRollRequest (Player.id player) Strength
                          (Player.attributes player Strength)
                          (Monster.tier monster)
                          ("Attacking " +:+ Monster.name monster)
                          (mkCallbacks (CbResolveCombat monster player)
                                       (CbResolveCombat monster player))))
                 currentState)).

Definition hasWeapon (player : Player.t) : bool :=
  existsb isWeapon (Player.items player).

Definition hasShotgun (player : Player.t) : bool :=
  includes "Shotgun" (Player.items player).

Definition hasHolyWater (player : Player.t) : bool :=
  includes "Holy Water" (Player.items player).

Definition isSpirit (monster : Monster.t) : bool :=
  str_includes "Spirit" (Monster.name monster)
  || str_includes "Ghost" (Monster.name monster).

Definition bonusHits (player : Player.t) : Z :=
  if hasShotgun player then 2 else if hasWeapon player then 1 else 0.

Definition rollHits (rolls : list DiceFace) : Z :=
  Z.of_nat (length (List.filter (fun r => bool_decide (r = ElderSign)) rolls)).

(** [hits] of [resolveCombat]. *)
Definition hits (monster : Monster.t) (player : Player.t) (rolls : list DiceFace) : Z :=
  if hasHolyWater player && isSpirit monster then 999
  else rollHits rolls + bonusHits player.

(** [resolveCombat(monster, player, rolls)].  [monster] and [player] are the
    objects the callback captured; [gameState] is the state of the closure,
    from which the new monster and player lists are built; [prev] is the
    state the updates apply to.  It throws when the player is not in
    [gameState.players]. *)
Definition resolveCombat (monster : Monster.t) (player : Player.t)
    (rolls : list DiceFace) (gameState prev : State) : option State :=
  let hits := hits monster player rolls in
  let s := if hasHolyWater player && isSpirit monster
           then addLog "Holy Water burns the spirit away instantly!" prev
           else prev in
  let newMonsterHealth := number_sub (Monster.health monster) (Num hits) in
  let msg := if hasShotgun player then "(+2 Shotgun) "
             else if hasWeapon player then "(+1 Weapon) " else "" in
  let '(updatedMonsters, s) :=
    if number_le0 newMonsterHealth
    then (List.filter (fun m => negb (String.eqb (Monster.id m) (Monster.id monster)))
                      (GameState.monsters gameState),
          addLog (msg +:+ Monster.name monster +:+ " defeated!") s)
    else ((fun m => if String.eqb (Monster.id m) (Monster.id monster)
                    then Monster.set_health newMonsterHealth m else m)
            <$> GameState.monsters gameState,
          addLog (msg +:+ "Hit for " +:+ pretty hits +:+ " damage.") s) in
  pIndex ← findIndex (fun p => String.eqb (Player.id p) (Player.id player))
                     (GameState.players gameState);
  p ← GameState.players gameState !! pIndex;
  let updatedPlayers :=
    <[pIndex := Player.set_actionsRemaining (Player.actionsRemaining p - 1) p]>
      (GameState.players gameState) in
  Some (GameState.set_phase Playing
          (GameState.set_players updatedPlayers
             (GameState.set_monsters updatedMonsters
                (GameState.set_activeDiceRoll None s)))).

(** [onComplete(rolls, cluesSpent)] of the dice roller overlay: the clues
    are charged to the rolling player, and the callback for the outcome is
    chosen.  The result is the state after the charge and the callback to
    run on [rolls]; without a pending roll there is no overlay ([None]). *)
Definition onComplete (rolls : list DiceFace) (cluesSpent : Z)
    (gameState : State) : option (State * Callback) :=
  if negb (bool_decide (GameState.phase gameState = DiceRoll)) then None
  else
    activeDiceRoll ← GameState.activeDiceRoll gameState;
    let pid := playerId activeDiceRoll in
    let s :=
      if 0 <? cluesSpent
      then GameState.set_players
             ((fun p => if String.eqb (Player.id p) pid
                        then Player.set_clues (Player.clues p - cluesSpent) p
                        else p) <$> GameState.players gameState)
             gameState
      else gameState in
    let successes := rollHits rolls in
    Some (s, if target activeDiceRoll <=? successes
             then onSuccess (dr_resume activeDiceRoll)
             else onFail (dr_resume activeDiceRoll)).

End AppCallbacks.

(** ** components/CodePuzzle.tsx, the code lock *)

Module CodePuzzle.

(** The ids of [COLORS]. *)
Definition COLORS : list string := ["r"; "b"; "g"; "y"; "p"; "w"].

Definition CODE_LENGTH : nat := 4.
Definition MAX_ATTEMPTS : nat := 8.

Inductive Status := playing | won | lost.

#[global] Instance Status_eq_dec : EqDecision Status.
Proof. solve_decision. Defined.

Record Feedback := mkFeedback {
  exact : nat;
  partial : nat
}.

Record Attempt := mkAttempt {
  guess : list string;
  feedback : Feedback
}.

(** The component's state; a slot of [currentGuess] is a color id or
    [null].  [currentGuess] starts as [Array(CODE_LENGTH).fill(null)] and
    every update copies it and writes one of its slots, or replaces it by
    such an array again. *)
Record State := mkState {
  secretCode : list string;
  history : list Attempt;
  currentGuess : list (option string);
  status : Status
}.

(** The state before the effect has run. *)
Definition initial : State :=
  mkState [] [] (replicate CODE_LENGTH None) playing.

(** The effect that runs once the component is mounted: the secret code,
    [rnd i] being the draw for slot [i].  [None]: [COLORS[...]] is
    [undefined] and reading its [id] throws. *)
Definition mount (rnd : nat -> Q) (st : State) : option State :=
  code ← mapM (fun i => COLORS !! random_index (rnd i) (length COLORS))
              (seq 0 CODE_LENGTH);
  Some (mkState code (history st) (currentGuess st) (status st)).

(** [handleColorSelect(colorId)]: the first empty slot takes the color. *)
Definition handleColorSelect (colorId : string) (st : State) : State :=
  if negb (bool_decide (status st = playing)) then st
  else
    match findIndex (fun c => bool_decide (c = None)) (currentGuess st) with
    | Some nextIndex =>
        mkState (secretCode st) (history st)
                (<[nextIndex := Some colorId]> (currentGuess st)) (status st)
    | None => st
    end.

(** The loop of [handleBackspace] over the slots [n - 1] down to [0]: the
    first slot that is not [null].  A slot past the end of the array reads
    [undefined], which is not [null] either. *)
Fixpoint lastFilled (currentGuess : list (option string)) (n : nat) : option nat :=
  match n with
  | O => None
  | S i =>
      match currentGuess !! i with
      | Some None => lastFilled currentGuess i
      | _ => Some i
      end
  end.

(** [handleBackspace()]: the last filled slot is emptied.  (Writing a slot
    past the end would grow the array; no state of the component has fewer
    than [CODE_LENGTH] slots, and the model leaves such an array as it
    is.) *)
Definition handleBackspace (st : State) : State :=
  if negb (bool_decide (status st = playing)) then st
  else
    match lastFilled (currentGuess st) CODE_LENGTH with
    | Some lastIndex =>
        mkState (secretCode st) (history st)
                (<[lastIndex := None]> (currentGuess st)) (status st)
    | None => st
    end.

(** The first loop of [submitGuess]: the exact matches, each marked in both
    copies so that it is not counted again. *)
Definition exactPass (secretCode guess : list string)
    : nat * list string * list string :=
  foldl (fun '(exact, codeTemp, guessTemp) i =>
           if bool_decide (guessTemp !! i = codeTemp !! i)
           then (S exact, <[i := "MATCHED"]> codeTemp,
                 <[i := "CHECKED"]> guessTemp)
           else (exact, codeTemp, guessTemp))
        (0%nat, secretCode, guess) (seq 0 CODE_LENGTH).

(** The second loop: a guessed color that is left finds the first slot of
    the code that still holds it, and uses it up. *)
Definition partialPass (codeTemp guessTemp : list string) : nat :=
  (foldl (fun '(partial, codeTemp) i =>
            if bool_decide (guessTemp !! i = Some "CHECKED")
            then (partial, codeTemp)
            else
              match findIndex (fun c => bool_decide (Some c = guessTemp !! i))
                              codeTemp with
              | Some foundIndex =>
                  (S partial, <[foundIndex := "MATCHED"]> codeTemp)
              | None => (partial, codeTemp)
              end)
         (0%nat, codeTemp) (seq 0 CODE_LENGTH)).1.

(** [submitGuess()]; a win calls [onComplete] a moment later. *)
Definition submitGuess (st : State) : State :=
  if bool_decide (None ∈ currentGuess st) then st
  else if negb (bool_decide (status st = playing)) then st
  else
    let guess := omap id (currentGuess st) in
    let '(exact, codeTemp, guessTemp) := exactPass (secretCode st) guess in
    let partial := partialPass codeTemp guessTemp in
    let newHistory := history st ++ [mkAttempt guess (mkFeedback exact partial)] in
    mkState (secretCode st) newHistory (replicate CODE_LENGTH None)
            (if bool_decide (exact = CODE_LENGTH) then won
             else if bool_decide (MAX_ATTEMPTS <= length newHistory)%nat then lost
             else status st).

(** What the player can do with the lock. *)
Inductive Event :=
| Select (colorId : string)
| Backspace
| Submit.

Definition handle (e : Event) (st : State) : State :=
  match e with
  | Select colorId => handleColorSelect colorId st
  | Backspace => handleBackspace st
  | Submit => submitGuess st
  end.

(** The state after a sequence of events, oldest first. *)
Definition run (events : list Event) (st : State) : State :=
  foldl (fun s e => handle e s) st events.

End CodePuzzle.

(** ** components/SlidingPuzzle.tsx *)

Module SlidingPuzzle.

(** The component's state: [grid] (0 is the gap), [moves], [solved]. *)
Record State := mkState {
  grid : list Z;
  moves : Z;
  solved : bool
}.

Definition initial : State := mkState [] 0 false.

Definition winState : list Z := [1; 2; 3; 4; 5; 6; 7; 8; 0].

(** The cells next to the gap, as the four [if]s of the shuffling loop
    push them: left, right, up, down.  [emptyIdx - 1] is taken only when
    [emptyIdx % 3 > 0] and [emptyIdx - 3] only when [emptyIdx >= 3], so no
    index is negative. *)
Definition neighbors (emptyIdx : nat) : list nat :=
  (if (0 <? emptyIdx mod 3)%nat then [(emptyIdx - 1)%nat] else [])
  ++ (if (emptyIdx mod 3 <? 2)%nat then [(emptyIdx + 1)%nat] else [])
  ++ (if (3 <=? emptyIdx)%nat then [(emptyIdx - 3)%nat] else [])
  ++ (if (emptyIdx <? 6)%nat then [(emptyIdx + 3)%nat] else []).

(** What the shuffling loop carries from round to round: [state],
    [emptyIdx] and [previousMoves]. *)
Definition Shuffling : Type := list Z * nat * list nat.

(** One round of the shuffling loop, on the draw [u].  [None]: there is no
    cell to move to ([next] is [undefined]). *)
Definition shuffleStep (u : Q) (s : Shuffling) : option Shuffling :=
  let '(state, emptyIdx, previousMoves) := s in
  let neighbors := neighbors emptyIdx in
  let valid :=
    List.filter (fun n => negb (bool_decide (last previousMoves = Some n)))
                neighbors in
  next ← (if (0 <? length valid)%nat
          then valid !! random_index u (length valid)
          else neighbors !! 0%nat);
  Some (App.swap emptyIdx next state, next, previousMoves ++ [next]).

(** [for (let i = 0; i < 50; i++) ...], from round [i] on for [n] rounds;
    [rnd i] is the draw of round [i]. *)
Fixpoint shuffleLoop (rnd : nat -> Q) (i n : nat) (s : Shuffling)
    : option Shuffling :=
  match n with
  | O => Some s
  | S n' => s' ← shuffleStep (rnd i) s; shuffleLoop rnd (S i) n' s'
  end.

(** The effect run on mount: fifty random moves from the solved grid. *)
Definition mount (rnd : nat -> Q) (st : State) : option State :=
  s ← shuffleLoop rnd 0 50 (winState, 8%nat, []);
  Some (mkState s.1.1 (moves st) (solved st)).

(** [currentGrid.every((val, idx) => val === winState[idx])] *)
Definition checkWin (currentGrid : list Z) : bool :=
  forallb id (imap (fun idx val => bool_decide (winState !! idx = Some val))
                   currentGrid).

(** [handleTileClick(index)], for the index of a cell.  [grid.indexOf(0)] is
    [findIndex], with [None] for -1.  [None]: the swap would write outside
    the grid (a cell the grid does not have, or the slot -1 of a grid without
    a gap, which passes for adjacent to the cell 2), which no cell the
    component renders brings about. *)
Definition handleTileClick (index : nat) (st : State) : option State :=
  if solved st then Some st
  else
    match findIndex (Z.eqb 0) (grid st) with
    | Some emptyIdx =>
        let isAdjacent :=
          (Z.abs (Z.of_nat index - Z.of_nat emptyIdx) =? 1)
          && (index / 3 =? emptyIdx / 3)%nat
          || (Z.abs (Z.of_nat index - Z.of_nat emptyIdx) =? 3) in
        if isAdjacent then
          if (index <? length (grid st))%nat then
            let newGrid := App.swap index emptyIdx (grid st) in
            Some (mkState newGrid (moves st + 1) (checkWin newGrid))
          else None
        else Some st
    | None => if bool_decide (index = 2%nat) then None else Some st
    end.

(** The cells clicked one after the other. *)
Fixpoint run (clicks : list nat) (st : State) : option State :=
  match clicks with
  | [] => Some st
  | index :: clicks => st' ← handleTileClick index st; run clicks st'
  end.

End SlidingPuzzle.

Import Types Constants.

(** ** Notions the properties are stated with *)

(** The faces that turned into successes between the roll and the
    confirmation. *)
Definition conversions (rolled final : list DiceFace) : Z :=
  DiceRoller.count_face ElderSign final - DiceRoller.count_face ElderSign rolled.

(** A face is left as it is, or it showed a clue and now shows a success. *)
Definition kept_or_converted (before after : DiceFace) : Prop :=
  before = after \/ (before = Clue /\ after = ElderSign).

Definition is_die_click (c : DiceRoller.Click) : bool :=
  match c with
  | DiceRoller.ClickDie _ => true
  | _ => false
  end.

(** The successes a click adds to the dice on the table. *)
Definition converted_by (pr : DiceRoller.Props) (c : DiceRoller.Click)
    (st : DiceRoller.State) : Z :=
  DiceRoller.passes (DiceRoller.click pr c st) - DiceRoller.passes st.

(** Along a run of clicks: the conversions bought by clicking dice, and
    those granted by the Detective's Journal and the Eldritch Glyph. *)
Fixpoint bought (pr : DiceRoller.Props) (cs : list DiceRoller.Click)
    (st : DiceRoller.State) : Z :=
  match cs with
  | [] => 0
  | c :: cs' =>
      (if is_die_click c then converted_by pr c st else 0)
      + bought pr cs' (DiceRoller.click pr c st)
  end.

Fixpoint granted (pr : DiceRoller.Props) (cs : list DiceRoller.Click)
    (st : DiceRoller.State) : Z :=
  match cs with
  | [] => 0
  | c :: cs' =>
      (if is_die_click c then 0 else converted_by pr c st)
      + granted pr cs' (DiceRoller.click pr c st)
  end.

(** The damage of an attack in the specification's words: 1, plus 1 for a
    weapon, 2 for the shotgun. *)
Definition damage_as_specified (player : Player.t) : Z :=
  1 + (if includes "Shotgun" (Player.items player) then 2
       else if existsb isWeapon (Player.items player) then 1 else 0).

(** The share, in percent, of a reward among the draws of a successful
    search.  [Math.random()] is uniform on [[0,1)] and the rewards change at
    0.20 and 0.65 only, so the hundred draws [k/100] weigh the rewards
    exactly. *)
Definition share (reward : App.RewardType) (state : App.State) : nat :=
  length (List.filter
            (fun k => bool_decide
                        (App.resolveSearch_reward true (Z.of_nat k # 100) state
                         = reward))
            (seq 0 100)).

(** The Escape tokens and the tier-3 monsters of a session. *)
Definition escapeTokens {K} (s : GameState.t K) : list Token.t :=
  List.filter (fun t => bool_decide (Token.type t = Escape)) (GameState.tokens s).

Definition bosses {K} (s : GameState.t K) : list Monster.t :=
  List.filter (fun m => Monster.tier m =? 3) (GameState.monsters s).

(** A further search resolved in full: the reward applied, then the
    finale check that follows it. *)
Record Resolution := mkResolution {
  res_token : Token.t;
  res_success : bool;
  res_reward : App.RewardType;
  res_narrative : string;
  res_draw : Q;
  res_now : Z
}.

Definition resolve (s : App.State) (r : Resolution) : option App.State :=
  s' ← App.resolveSearch_apply (res_token r) (res_success r) (res_reward r)
                               (res_narrative r) s;
  App.resolveSearch_finale (res_draw r) (res_now r) s'.

Fixpoint resolveAll (rs : list Resolution) (s : App.State) : option App.State :=
  match rs with
  | [] => Some s
  | r :: rs => s' ← resolve s r; resolveAll rs s'
  end.

(** The state of a session after its finale: the escape is open, the one
    Escape token is the finale's, and there is one tier-3 monster. *)
Definition after_finale (s : App.State) : Prop :=
  GameState.isEscapeOpen s = true
  /\ escapeTokens s = [App.escapeToken]
  /\ length (bosses s) = 1%nat.

(** The grid coordinates of the tiles of a session, in order. *)
Definition coordinates (tiles : list Tile.t) : list (Z * Z) :=
  (fun t => (Tile.x t, Tile.y t)) <$> tiles.

(** A run of hits on one player, each applied in full before the next
    ([damage], [horror], and the bridge's answer should it be asked). *)
Definition applyDamages (playerId : string)
    (hits : list (Z * Z * option string)) (s : App.State) : App.State :=
  foldl (fun s '(damage, horror, objective) =>
           App.applyDamage playerId damage horror objective s s)
        s hits.

(** *** Monster movement *)

(** The grid cell of a tile, and the one a monster stands on. *)
Definition cell (t : Tile.t) : Z * Z := (Tile.x t, Tile.y t).

Definition position (monster : Monster.t) : Z * Z :=
  (Monster.x monster, Monster.y monster).

Definition moveTo (dest : Z * Z) (monster : Monster.t) : Monster.t :=
  Monster.set_x dest.1 (Monster.set_y dest.2 monster).

(** Modelled from the spec: a resolved Explore token at the cell [a] that
    points toward the cell [b]. *)
Definition pointsToward (k : Token.t) (a b : Z * Z) : Prop :=
  Token.type k = Explore /\ Token.resolved k = true
  /\ (Token.x k, Token.y k) = a
  /\ exists d, Token.direction k = Some d
               /\ b = (a.1 + (App.step d).1, a.2 + (App.step d).2).

(** Modelled from the spec: the door-connectivity predicate.  Two tiles
    are traversable between each other if they share a roomId, or if a
    resolved Explore token exists at either tile pointing toward the
    other. *)
Definition traversable (tokens : list Token.t) (t1 t2 : Tile.t) : Prop :=
  Tile.roomId t1 = Tile.roomId t2
  \/ exists k, k ∈ tokens
               /\ (pointsToward k (cell t1) (cell t2)
                   \/ pointsToward k (cell t2) (cell t1)).

(** Modelled from the spec: 4-neighbour cells. *)
Definition fourNeighbours (a b : Z * Z) : Prop :=
  Z.abs (b.1 - a.1) + Z.abs (b.2 - a.2) = 1.

(** Modelled from the spec: one step of a monster, from the tile at [a] to
    the tile at a 4-neighbour cell [b] it is traversable with. *)
Definition connected (tiles : list Tile.t) (tokens : list Token.t)
    (a b : Z * Z) : Prop :=
  fourNeighbours a b
  /\ exists t1 t2, AppCallbacks.tileAt tiles a = Some t1
                   /\ AppCallbacks.tileAt tiles b = Some t2
                   /\ traversable tokens t1 t2.

(** The step the search itself takes: [b] is one of the four neighbours
    the loop visits, and [canMove] lets the monster pass. *)
Definition arc (tiles : list Tile.t) (tokens : list Token.t)
    (a b : Z * Z) : Prop :=
  b ∈ AppCallbacks.neighbors a
  /\ exists t1 t2, AppCallbacks.tileAt tiles a = Some t1
                   /\ AppCallbacks.tileAt tiles b = Some t2
                   /\ AppCallbacks.canMove tokens t1 t2 = true.

(** [path] lists the cells entered one after the other on the way from
    [a], each step related by [R]. *)
Fixpoint walk (R : Z * Z -> Z * Z -> Prop) (a : Z * Z) (path : list (Z * Z))
    : Prop :=
  match path with
  | [] => True
  | b :: path' => R a b /\ walk R b path'
  end.

(** Where a path from [a] ends. *)
Definition arrival (a : Z * Z) (path : list (Z * Z)) : Z * Z :=
  default a (last path).

(** The path lengths of a queue grow along it, by at most one in all. *)
Fixpoint ordered (levels : list nat) : Prop :=
  match levels with
  | [] => True
  | a :: levels' =>
      Forall (fun b => (a <= b <= a + 1)%nat) levels' /\ ordered levels'
  end.

(** What holds of the queue and of the marked cells whenever the [while]
    loop tests its condition: every entry carries a shortest path to its
    cell; the entries are ordered by path length; and a marked cell that
    is no longer queued holds no player and has all its arcs marked. *)
Record searching (tiles : list Tile.t) (tokens : list Token.t)
    (players : list Player.t) (start : Z * Z)
    (queue : list AppCallbacks.Entry) (visited : gset (Z * Z)) : Prop :=
  mkSearching {
    searching_start : start ∈ visited;
    searching_paths : forall c p, (c, p) ∈ queue ->
      walk (arc tiles tokens) start p /\ arrival start p = c /\ c ∈ visited
      /\ forall w, walk (arc tiles tokens) start w -> arrival start w = c ->
                   (length p <= length w)%nat;
    searching_order : ordered ((fun e : AppCallbacks.Entry => length e.2) <$> queue);
    searching_closed : forall c, c ∈ visited -> c ∉ queue.*1 ->
      AppCallbacks.playerAt players c = false
      /\ forall c', arc tiles tokens c c' -> c' ∈ visited
  }.

(** The cells that carry a tile. *)
Definition tiled (tiles : list Tile.t) : gset (Z * Z) :=
  list_to_set (cell <$> tiles).

(** The state [startMythosPhase] leaves when it returns. *)
Definition mythosState (m : AppCallbacks.MythosStart) : AppCallbacks.State :=
  match m with
  | AppCallbacks.Attacked s _ => s
  | AppCallbacks.AwaitingEvent s _ => s
  end.

(** *** The code lock *)

(** The positions at which a guess and the code agree. *)
Definition agreeing (guess code : list string) : nat :=
  length (List.filter (fun gc => String.eqb gc.1 gc.2) (zip guess code)).

(** How many pegs of the colors [colors] the guess and the code have in
    common, position aside: for every color, as many as the one that holds
    fewer of it. *)
Definition common (colors guess code : list string) : nat :=
  sum_list ((fun c => Nat.min (count_occ string_dec guess c)
                              (count_occ string_dec code c)) <$> colors).

(** The guess with its exact matches marked, and the code likewise. *)
Definition markedGuess (guess code : list string) : list string :=
  zip_with (fun g c => if String.eqb g c then "CHECKED" else g) guess code.

Definition markedCode (guess code : list string) : list string :=
  zip_with (fun g c => if String.eqb g c then "MATCHED" else c) guess code.

(** The second loop of [submitGuess], read as a recursion on the guess
    that is left. *)
Fixpoint greedy (guessTemp codeTemp : list string) : nat :=
  match guessTemp with
  | [] => 0
  | g :: guessTemp' =>
      if String.eqb g "CHECKED" then greedy guessTemp' codeTemp
      else
        match findIndex (fun c => bool_decide (Some c = Some g)) codeTemp with
        | Some foundIndex =>
            S (greedy guessTemp' (<[foundIndex := "MATCHED"]> codeTemp))
        | None => greedy guessTemp' codeTemp
        end
  end.

(** A guess in the making: the colors entered so far, then empty slots. *)
Definition entering (entered : list string) (free : nat) : list (option string) :=
  (Some <$> entered) ++ replicate free None.

(** What holds of the lock from the moment its code is set: the code and
    the entry have [CODE_LENGTH] slots, the entry is filled from the left,
    and the status tells how the guesses made so far went. *)
Record locked (st : CodePuzzle.State) : Prop := mkLocked {
  locked_code : length (CodePuzzle.secretCode st) = CodePuzzle.CODE_LENGTH;
  locked_entry : exists entered free,
    CodePuzzle.currentGuess st = entering entered free
    /\ (length entered + free)%nat = CodePuzzle.CODE_LENGTH;
  locked_status :
    match CodePuzzle.status st with
    | CodePuzzle.playing =>
        (length (CodePuzzle.history st) < CodePuzzle.MAX_ATTEMPTS)%nat
        /\ Forall (fun a => CodePuzzle.guess a <> CodePuzzle.secretCode st)
                  (CodePuzzle.history st)
    | CodePuzzle.won =>
        (length (CodePuzzle.history st) <= CodePuzzle.MAX_ATTEMPTS)%nat
        /\ exists a, last (CodePuzzle.history st) = Some a
                     /\ CodePuzzle.guess a = CodePuzzle.secretCode st
    | CodePuzzle.lost =>
        length (CodePuzzle.history st) = CodePuzzle.MAX_ATTEMPTS
        /\ Forall (fun a => CodePuzzle.guess a <> CodePuzzle.secretCode st)
                  (CodePuzzle.history st)
    end
}.

(** *** The sliding puzzle *)

(** A grid of the sliding puzzle with its gap at [e]: the eight tiles and
    the gap, each once. *)
Definition board (g : list Z) (e : nat) : Prop :=
  g ≡ₚ SlidingPuzzle.winState /\ g !! e = Some 0.

(** Two cells of the three by three grid that share a side. *)
Definition besides (i e : nat) : Prop :=
  Z.abs (Z.of_nat (i / 3) - Z.of_nat (e / 3))
  + Z.abs (Z.of_nat (i mod 3) - Z.of_nat (e mod 3)) = 1.

#[global] Instance besides_dec (i e : nat) : Decision (besides i e) :=
  Z.eq_dec _ _.

(** Clicking the cells [clicks] one after the other slides the unsolved
    grid [g'] back to the grid [g], each click moving a tile. *)
Fixpoint undo (clicks : list nat) (g' g : list Z) : Prop :=
  match clicks with
  | [] => g' = g
  | index :: clicks =>
      exists g1,
        length g1 = 9%nat
        /\ (forall m,
              SlidingPuzzle.handleTileClick index (SlidingPuzzle.mkState g' m false)
              = Some (SlidingPuzzle.mkState g1 (m + 1) (SlidingPuzzle.checkWin g1)))
        /\ undo clicks g1 g
  end.

(** ** Sample sessions, for the witnesses and counterexamples *)

(** An investigator at the foyer with every attribute at 3. *)
Definition investigator (id name : string) (clues : Z) (items : list string)
    (health sanity : Z) (isWounded : bool) : Player.t :=
  Player.mkPlayer id name "inv_1" clues items health sanity (fun _ => 3) 0 0 2 2
                  isWounded false None false true.

Definition foyer : Tile.t :=
  Tile.mkTile "tile_start" "room_start_mansion" "The Foyer" "" 0 0 "hallway"
              (Some 0) (Some 0) (Some 1) (Some 1).

(** A session in play with the given players, monsters, tiles and tokens;
    the first player is to move. *)
Definition session {K} (networkMode : NetworkMode) (players : list Player.t)
    (monsters : list Monster.t) (tiles : list Tile.t) (tokens : list Token.t)
    (itemDeck : list string) : GameState.t K :=
  GameState.mkGameState Playing Normal 1 players monsters 0%nat tiles tokens
    itemDeck [] "" 0 4 false networkMode None None None.

Definition rats : Monster.t :=
  Monster.mkMonster "m_1" "m_rat" "Swarm of Rats" (Num 1) (Num 1) 1 0 0 0 1.

(** Three investigators at the foyer; the first, whose turn it is, is
    wounded, down to 1 health, and shares the tile with a swarm of rats. *)
Definition three_at_the_foyer : App.State :=
  session Offline
    [ investigator "p1" "Ada" 0 [] 1 7 true;
      investigator "p2" "Ben" 0 [] 7 7 false;
      investigator "p3" "Cy" 0 [] 7 7 false ]
    [rats] [foyer] [] [].

Definition deep_one (health : Z) : Monster.t :=
  Monster.mkMonster "mon_1" "m_deepone" "Deep One" (Num health) (Num 4) 1 0 0 0 2.

Definition coat_rack : Token.t :=
  Token.mkToken "t_search_foyer" Search 0 0 "Coat Rack" false
                (Some Observation) (Some 2) None.

(** One investigator at the foyer, its search token, a lantern left in the
    item deck. *)
Definition searching_the_foyer : App.State :=
  session Offline [investigator "p1" "Ada" 1 [] 7 7 false] [] [foyer]
          [coat_rack] ["Lantern"].

Definition north_door : Token.t :=
  Token.mkToken "t_door_tile_start_0" Explore 0 0 "Heavy Door" false
                None None (Some North).

(** A hosted session: one investigator at the foyer, in front of an
    unopened door in its north wall. *)
Definition at_the_north_door : App.State :=
  session Host [investigator "p1" "Ada" 1 [] 7 7 false] [] [foyer]
          [north_door] [].

Definition kitchen : Gemini.RoomData :=
  Gemini.fallbackRoom "Kitchen" "Smells of rot." "kitchen"
                      "Pantry" Observation "Icebox" Strength.

Definition bathroom : Gemini.RoomData :=
  Gemini.fallbackRoom "Bathroom" "Dripping tap." "bathroom"
                      "Medicine Cabinet" Lore "Bathtub" Observation.

(** Draws that keep a new room to its entry tile and give it one exit. *)
Definition low_draws : App.ExploreDraws :=
  App.mkExploreDraws (1 # 4) (1 # 10) (1 # 10) (1 # 2) (fun _ => 0%Q)
                     (fun tiles => tiles) (fun _ => 0%Q).

(** A service that answers every live call with a rate-limit rejection. *)
Definition exhausted : nat -> Gemini.Outcome :=
  fun _ => Gemini.Rejected (Gemini.mkApiError (Some 429) None (Some "RESOURCE_EXHAUSTED")).

(** Parsers that reject every text. *)
Definition no_parsers : Gemini.Parsers :=
  Gemini.mkParsers (fun _ => None) (fun _ => None) (fun _ => None).

(** A corridor of two tiles north of the foyer, behind the opened north
    door, and a cellar east of the foyer behind a wall without a door. *)
Definition corridor (x y : Z) : Tile.t :=
  Tile.mkTile ("tile_corridor_" +:+ pretty x) "room_corridor" "Corridor" ""
              x y "hallway" None None None None.

Definition cellar : Tile.t :=
  Tile.mkTile "tile_cellar" "room_cellar" "Cellar" "" 1 0 "storage"
              None None None None.

(** The rats at the foyer and one investigator at the cell given, whose
    turn ends the round. *)
Definition mansion (x y : Z) : AppCallbacks.State :=
  session Offline
    [Player.set_x x (Player.set_y y (investigator "p1" "Ada" 0 [] 7 7 false))]
    [rats] [foyer; corridor 0 (-1); corridor 1 (-1); cellar]
    [Token.set_resolved true north_door] [].

(** One investigator at the foyer, a corridor tile north of it. *)
Definition at_the_foyer (networkMode : NetworkMode) (items : list string)
    (health : Z) : App.State :=
  session networkMode [investigator "p1" "Ada" 0 items health 7 false] []
          [foyer; corridor 0 (-1)] [] [].

(** * Properties *)

(** ** Lists and counting *)

Lemma filter_length_count_occ (face : DiceFace) (faces : list DiceFace) :
  length (List.filter (fun r => bool_decide (r = face)) faces)
  = count_occ DiceFace_eq_dec faces face.
Proof.
  induction faces as [|f faces IH]; simpl; [done|].
  destruct (DiceFace_eq_dec f face) as [->|Hne].
  - rewrite bool_decide_true by done. simpl. by rewrite IH.
  - rewrite bool_decide_false by done. done.
Qed.

Lemma count_face_spec (face : DiceFace) (faces : list DiceFace) :
  DiceRoller.count_face face faces
  = Z.of_nat (count_occ DiceFace_eq_dec faces face).
Proof. unfold DiceRoller.count_face. by rewrite filter_length_count_occ. Qed.

Lemma successes_spec (faces : list DiceFace) :
  App.successes faces = Z.of_nat (count_occ DiceFace_eq_dec faces ElderSign).
Proof. unfold App.successes. by rewrite filter_length_count_occ. Qed.

Lemma count_faces_total (faces : list DiceFace) :
  (count_occ DiceFace_eq_dec faces ElderSign
   + count_occ DiceFace_eq_dec faces Clue
   + count_occ DiceFace_eq_dec faces Blank = length faces)%nat.
Proof.
  induction faces as [|[] faces IH]; simpl; lia.
Qed.

(** ** Dice rolls (C1) *)

(** C1.  For every confirmed dice roll, whatever the target and whatever the
    pending request: the success count the widget shows and the one the
    application computes both equal the number of faces showing the success
    face at confirmation (conversions included); the roll passes, for the
    widget and for the resolver alike, if and only if that count reaches the
    target; and the outcome is the same for any two rolls with equally many
    success faces, however many blank or clue faces either has. *)
Theorem dice_roll_passes_iff_enough_successes
    (pr : DiceRoller.Props) (st : DiceRoller.State)
    (faces : list DiceFace) (cluesSpent : Z) :
  DiceRoller.confirm st = Some (faces, cluesSpent) ->
  let n := count_occ DiceFace_eq_dec faces ElderSign in
  DiceRoller.passes st = Z.of_nat n
  /\ App.successes faces = Z.of_nat n
  /\ n = (length faces - count_occ DiceFace_eq_dec faces Clue
                        - count_occ DiceFace_eq_dec faces Blank)%nat
  /\ (DiceRoller.isPass pr st = true <-> DiceRoller.target pr <= Z.of_nat n)
  /\ (forall target, App.passed target faces = true <-> target <= Z.of_nat n)
  /\ (forall target faces',
        count_occ DiceFace_eq_dec faces' ElderSign = n ->
        App.passed target faces' = App.passed target faces)
  /\ (forall gameState c,
        App.onComplete faces cluesSpent gameState = Some c ->
        exists roll player,
          GameState.activeDiceRoll gameState = Some roll
          /\ GameState.players gameState
               !! GameState.currentPlayerIndex gameState = Some player
          /\ c = App.handleActionComplete (dr_resume roll)
                   (bool_decide (target roll <= Z.of_nat n)) (App.Faces faces)
                   gameState
                   (if 0 <? cluesSpent
                    then App.chargeClues (Player.id player) cluesSpent gameState
                    else gameState)).
Proof.
  intros Hconfirm n. unfold DiceRoller.confirm in Hconfirm.
  destruct (DiceRoller.results st) as [rs|] eqn:Hrs; [|done].
  injection Hconfirm as -> _.
  assert (Hpasses : DiceRoller.passes st = Z.of_nat n).
  { unfold DiceRoller.passes. rewrite Hrs. apply count_face_spec. }
  assert (Hpassed : forall target faces0,
             App.passed target faces0 = true
             <-> target <= Z.of_nat (count_occ DiceFace_eq_dec faces0 ElderSign)).
  { intros target faces0. unfold App.passed. rewrite successes_spec.
    apply Z.leb_le. }
  split_and!.
  - done.
  - apply successes_spec.
  - pose proof (count_faces_total faces). subst n. lia.
  - unfold DiceRoller.isPass. rewrite Hpasses. apply Z.leb_le.
  - intros target. apply Hpassed.
  - intros target faces' Hn.
    apply eq_true_iff_eq. rewrite !Hpassed. by rewrite Hn.
  - intros gameState c Hc. unfold App.onComplete in Hc.
    destruct (negb _); [done|].
    destruct (GameState.activeDiceRoll gameState) as [roll|]; [|done].
    simpl in Hc.
    destruct (GameState.players gameState !! _) as [player|]; [|done].
    simpl in Hc. injection Hc as <-.
    exists roll, player. split_and!; [done..|].
    f_equal. apply eq_true_iff_eq. rewrite Hpassed, bool_decide_eq_true. done.
Qed.

(** A roll of three dice with one clue converted, needing two successes. *)
Lemma dice_roll_passes_iff_enough_successes_witness :
  DiceRoller.isPass
    (DiceRoller.mkProps Observation 3 1 [] false 2)
    (DiceRoller.mkState (Some [ElderSign; ElderSign; Blank]) 1 0) = true.
Proof.
  pose proof (dice_roll_passes_iff_enough_successes
                (DiceRoller.mkProps Observation 3 1 [] false 2)
                (DiceRoller.mkState (Some [ElderSign; ElderSign; Blank]) 1 0)
                [ElderSign; ElderSign; Blank] 1 eq_refl) as H.
  destruct H as (_ & _ & _ & Hpass & _). apply Hpass. simpl. lia.
Defined.

(** ** Clue spending (C5) *)

Lemma kept_or_converted_refl (rs : list DiceFace) :
  Forall2 kept_or_converted rs rs.
Proof. apply Forall2_same_length_lookup_2; [done|]. intros i x y ? ?. left. congruence. Qed.

Lemma kept_or_converted_trans (rs1 rs2 rs3 : list DiceFace) :
  Forall2 kept_or_converted rs1 rs2 ->
  Forall2 kept_or_converted rs2 rs3 ->
  Forall2 kept_or_converted rs1 rs3.
Proof.
  intros H12 H23. eapply Forall2_trans; [|exact H12|exact H23].
  intros f g h [Hfg|[Hf Hg]] [Hgh|[Hg' Hh]]; subst;
    unfold kept_or_converted; auto; discriminate.
Qed.

Lemma count_face_insert_clue (rs : list DiceFace) (i : nat) :
  rs !! i = Some Clue ->
  DiceRoller.count_face ElderSign (<[i := ElderSign]> rs)
  = DiceRoller.count_face ElderSign rs + 1.
Proof.
  rewrite !count_face_spec. revert i.
  induction rs as [|r rs IH]; intros [|i] Hi; simpl in *; try done.
  - injection Hi as ->. simpl. lia.
  - specialize (IH i Hi). destruct (DiceFace_eq_dec r ElderSign); lia.
Qed.

Lemma converted_insert_clue (rs : list DiceFace) (i : nat) :
  rs !! i = Some Clue ->
  Forall2 kept_or_converted rs (<[i := ElderSign]> rs).
Proof.
  intros Hi. rewrite <- (list_insert_id rs i Clue Hi) at 1.
  apply Forall2_insert; [apply kept_or_converted_refl|]. right. done.
Qed.

Lemma converted_all (rs : list DiceFace) :
  Forall2 kept_or_converted rs
    ((fun r => if bool_decide (r = Clue) then ElderSign else r) <$> rs).
Proof.
  induction rs as [|r rs IH]; simpl; constructor; [|done].
  case_bool_decide; [right|left]; done.
Qed.

Lemma count_face_monotone (rs rs' : list DiceFace) :
  Forall2 kept_or_converted rs rs' ->
  DiceRoller.count_face ElderSign rs <= DiceRoller.count_face ElderSign rs'.
Proof.
  rewrite !count_face_spec.
  induction 1 as [|f g rs rs' [->|[-> ->]] _ IH]; simpl; [lia| |lia].
  destruct (DiceFace_eq_dec g ElderSign); lia.
Qed.

Lemma findIndex_Some {A} (p : A -> bool) (l : list A) (i : nat) :
  findIndex p l = Some i -> exists a, l !! i = Some a /\ p a = true.
Proof.
  revert i. induction l as [|a l IH]; intros i; simpl; [done|].
  destruct (p a) eqn:Hp.
  - intros [= <-]. eauto.
  - destruct (findIndex p l) as [j|]; [|done]. intros [= <-].
    destruct (IH j eq_refl) as (b & ? & ?). eauto.
Qed.

(** What one click does to the dice and to the clues spent. *)
Lemma click_effect (pr : DiceRoller.Props) (c : DiceRoller.Click)
    (rs : list DiceFace) (spent bonus : Z) :
  exists rs' spent',
    DiceRoller.click pr c (DiceRoller.mkState (Some rs) spent bonus)
    = DiceRoller.mkState (Some rs') spent' bonus
    /\ Forall2 kept_or_converted rs rs'
    /\ (if is_die_click c
        then spent' - spent = conversions rs rs'
             /\ (spent' = spent
                 \/ (spent' = spent + 1 /\ spent < DiceRoller.playerClues pr))
        else spent' = spent).
Proof.
  destruct c as [index| |]; simpl.
  - unfold DiceRoller.convertClue; simpl.
    destruct (DiceRoller.playerClues pr <=? spent) eqn:Hle.
    { exists rs, spent. unfold conversions.
      split_and!; [done|apply kept_or_converted_refl|lia|auto]. }
    apply Z.leb_gt in Hle.
    case_bool_decide as Hclue.
    + exists (<[index := ElderSign]> rs), (spent + 1). unfold conversions.
      rewrite count_face_insert_clue by done.
      split_and!; [done|by apply converted_insert_clue|lia|auto].
    + exists rs, spent. unfold conversions.
      split_and!; [done|apply kept_or_converted_refl|lia|auto].
  - unfold DiceRoller.useSingleConvertItem; simpl.
    destruct (findIndex _ rs) as [clueIdx|] eqn:Hfind; simpl.
    + apply findIndex_Some in Hfind as (r & Hr & Hclue).
      apply bool_decide_eq_true in Hclue as ->.
      exists (<[clueIdx := ElderSign]> rs), spent.
      split_and!; [done|by apply converted_insert_clue|done].
    + exists rs, spent. split_and!; [done|apply kept_or_converted_refl|done].
  - exists ((fun r => if bool_decide (r = Clue) then ElderSign else r) <$> rs), spent.
    split_and!; [done|apply converted_all|done].
Qed.

(** What a sequence of clicks does, from the roll on. *)
Lemma clicks_effect (pr : DiceRoller.Props) (cs : list DiceRoller.Click)
    (rs : list DiceFace) (spent bonus : Z) :
  0 <= spent <= Z.max 0 (DiceRoller.playerClues pr) ->
  exists rs' spent',
    DiceRoller.clicks pr cs (DiceRoller.mkState (Some rs) spent bonus)
    = DiceRoller.mkState (Some rs') spent' bonus
    /\ Forall2 kept_or_converted rs rs'
    /\ 0 <= spent' - spent <= conversions rs rs'
    /\ spent' <= Z.max 0 (DiceRoller.playerClues pr)
    /\ (forallb is_die_click cs = true -> spent' - spent = conversions rs rs').
Proof.
  revert rs spent. induction cs as [|c cs IH]; intros rs spent Hspent.
  - exists rs, spent. unfold conversions.
    split_and!; [done|apply kept_or_converted_refl|lia..].
  - destruct (click_effect pr c rs spent bonus) as (rs1 & spent1 & Hc & Hconv1 & Hpaid).
    assert (Hmono1 := count_face_monotone _ _ Hconv1).
    assert (H1 : 0 <= spent1 - spent <= conversions rs rs1
                 /\ spent1 <= Z.max 0 (DiceRoller.playerClues pr)).
    { unfold conversions in *. destruct (is_die_click c); lia. }
    destruct (IH rs1 spent1) as (rs' & spent' & Hcs & Hconv & Hbounds & Hle & Hdie);
      [lia|].
    assert (Hmono := count_face_monotone _ _ Hconv).
    exists rs', spent'. unfold DiceRoller.clicks in *. simpl. rewrite Hc, Hcs.
    unfold conversions in *.
    split_and!; [done|by eapply kept_or_converted_trans|lia..|].
    simpl. intros [Hc_die Hcs_die]%andb_prop. rewrite Hc_die in Hpaid.
    specialize (Hdie Hcs_die). lia.
Qed.

Lemma mapPlayer_lookup (playerId : string) (f : Player.t -> Player.t)
    (ps : list Player.t) (i : nat) (p : Player.t) :
  ps !! i = Some p ->
  App.mapPlayer playerId f ps !! i
  = Some (if String.eqb (Player.id p) playerId then f p else p).
Proof. intros Hp. unfold App.mapPlayer. by rewrite list_lookup_fmap, Hp. Qed.

Lemma resolveCombat_players (monsterId : string) (hit : bool)
    (damage : App.TaskData) (prev : App.State) :
  GameState.players (App.resolveCombat monsterId hit damage prev)
  = GameState.players prev.
Proof.
  unfold App.resolveCombat.
  destruct (findIndex _ _) as [mIdx|]; [|done].
  destruct hit; [|done].
  destruct (GameState.monsters prev !! mIdx) as [m|]; [|done].
  by destruct (number_le0 _).
Qed.

Lemma handleActionComplete_players (context : App.ActionContext)
    (success : bool) (data : App.TaskData) (gameState prev : App.State) :
  GameState.players
    (App.completion_state
       (App.handleActionComplete context success data gameState prev))
  = GameState.players prev.
Proof.
  unfold App.handleActionComplete.
  case_bool_decide; [done|].
  destruct context as [tokenId|monsterId]; simpl.
  - by destruct (List.find _ _).
  - apply resolveCombat_players.
Qed.

(** What one click charges: a click on a die one clue for the face it
    converts and nothing when it converts none; an item nothing, whatever
    it converts. *)
Lemma click_charge (pr : DiceRoller.Props) (c : DiceRoller.Click)
    (rs : list DiceFace) (spent bonus : Z) :
  let st := DiceRoller.mkState (Some rs) spent bonus in
  DiceRoller.spentClues (DiceRoller.click pr c st) - spent
  = (if is_die_click c then converted_by pr c st else 0)
  /\ 0 <= converted_by pr c st
  /\ (is_die_click c = true ->
      converted_by pr c st <= 1
      /\ (converted_by pr c st = 1 -> spent < DiceRoller.playerClues pr)).
Proof.
  intros st. subst st.
  destruct (click_effect pr c rs spent bonus)
    as (rs' & spent' & Hc & Hconv & Hpaid).
  pose proof (count_face_monotone _ _ Hconv) as Hmono.
  unfold converted_by. rewrite Hc. unfold DiceRoller.passes. simpl.
  unfold conversions in Hpaid.
  destruct (is_die_click c).
  - destruct Hpaid as [Heq Hcases]. split; [lia|]. split; [lia|].
    intros _. split; [lia|]. intros Hone. lia.
  - split; [lia|]. split; [lia|]. done.
Qed.

(** The account of a run of clicks, from the roll on. *)
Lemma clicks_account (pr : DiceRoller.Props) (cs : list DiceRoller.Click)
    (rs : list DiceFace) (spent bonus : Z) :
  let st := DiceRoller.mkState (Some rs) spent bonus in
  DiceRoller.spentClues (DiceRoller.clicks pr cs st) - spent = bought pr cs st
  /\ DiceRoller.passes (DiceRoller.clicks pr cs st) - DiceRoller.passes st
     = bought pr cs st + granted pr cs st
  /\ 0 <= bought pr cs st /\ 0 <= granted pr cs st.
Proof.
  revert rs spent. induction cs as [|c cs IH]; intros rs spent st; subst st.
  { simpl. unfold DiceRoller.clicks. simpl. lia. }
  destruct (click_effect pr c rs spent bonus) as (rs1 & spent1 & Hc & _ & _).
  destruct (click_charge pr c rs spent bonus) as (Hcharge & Hpos & _).
  specialize (IH rs1 spent1). cbv zeta in *.
  cbn [bought granted]. unfold DiceRoller.clicks in *. cbn [foldl].
  unfold converted_by in *. rewrite Hc in *. simpl in *.
  destruct (is_die_click c); lia.
Qed.

Lemma clicks_rolled (pr : DiceRoller.Props) (cs : list DiceRoller.Click)
    (rs : list DiceFace) (spent bonus : Z) :
  exists rs' spent',
    DiceRoller.clicks pr cs (DiceRoller.mkState (Some rs) spent bonus)
    = DiceRoller.mkState (Some rs') spent' bonus.
Proof.
  revert rs spent. induction cs as [|c cs IH]; intros rs spent.
  { by exists rs, spent. }
  destruct (click_effect pr c rs spent bonus) as (rs1 & spent1 & Hc & _ & _).
  destruct (IH rs1 spent1) as (rs' & spent' & Hcs).
  exists rs', spent'. unfold DiceRoller.clicks in *. cbn [foldl]. by rewrite Hc.
Qed.

(** C5, as amended.  In a dice roll, from the roll to its confirmation and
    whatever the player clicks, at any point of it.  A click on a die
    charges exactly one clue for the face it converts, which showed a clue,
    and nothing when it converts none; it converts only while the player
    has a clue left.  The Detective's Journal and the Eldritch Glyph charge
    nothing, whatever they convert.  So the clues spent are exactly the conversions bought by
    clicking dice, and the conversions made are those and the ones the two
    items granted; every face either stays as it is or showed a clue and
    now shows a success.  When the roll is resolved where it was made (host
    or offline), the session resolves it itself, the acting player's clue
    count is decremented by exactly the clues spent, and it is not
    negative. *)
Theorem clue_conversions_cost_one_clue_each
    (gameState : App.State) (pr : DiceRoller.Props)
    (rolled : list DiceFace) (bonus : Z) (cs : list DiceRoller.Click)
    (faces : list DiceFace) (spent : Z) :
  GameState.networkMode gameState <> Client ->
  App.diceRollerProps gameState = Some pr ->
  0 <= DiceRoller.playerClues pr ->
  let rolledDice := DiceRoller.mkState (Some rolled) 0 bonus in
  DiceRoller.confirm (DiceRoller.clicks pr cs rolledDice) = Some (faces, spent) ->
  Forall2 kept_or_converted rolled faces
  /\ (forall before c,
        let st := DiceRoller.clicks pr before rolledDice in
        DiceRoller.spentClues (DiceRoller.click pr c st) - DiceRoller.spentClues st
        = (if is_die_click c then converted_by pr c st else 0)
        /\ 0 <= converted_by pr c st
        /\ (is_die_click c = true ->
            converted_by pr c st <= 1
            /\ (converted_by pr c st = 1 ->
                DiceRoller.spentClues st < DiceRoller.playerClues pr)))
  /\ spent = bought pr cs rolledDice
  /\ conversions rolled faces = bought pr cs rolledDice + granted pr cs rolledDice
  /\ 0 <= granted pr cs rolledDice
  /\ 0 <= spent <= conversions rolled faces
  /\ spent <= DiceRoller.playerClues pr
  /\ (forallb is_die_click cs = true -> spent = conversions rolled faces)
  /\ exists c player player',
       App.onComplete faces spent gameState = Some c
       /\ (forall s, c <> App.Relayed s)
       /\ GameState.players gameState
            !! GameState.currentPlayerIndex gameState = Some player
       /\ GameState.players (App.completion_state c)
            !! GameState.currentPlayerIndex gameState = Some player'
       /\ Player.clues player' = Player.clues player - spent
       /\ 0 <= Player.clues player'.
Proof.
  intros Hmode Hprops Hclues rolledDice Hconfirm.
  destruct (clicks_effect pr cs rolled 0 bonus) as
    (rs' & spent' & Hcs & Hconv & Hbounds & Hle & Hdie); [lia|].
  destruct (clicks_account pr cs rolled 0 bonus)
    as (Hbought & Htotal & Hbought0 & Hgranted0).
  fold rolledDice in Hcs, Hbought, Htotal, Hbought0, Hgranted0.
  rewrite Hcs in Hconfirm, Hbought, Htotal. injection Hconfirm as <- <-.
  simpl in Hbought, Htotal.
  split; [done|]. split.
  { intros before c st. subst st. unfold rolledDice.
    destruct (clicks_rolled pr before rolled 0 bonus) as (rs1 & spent1 & ->).
    apply click_charge. }
  split; [lia|]. split; [exact Htotal|]. split; [done|].
  split; [lia|]. split; [lia|].
  split; [intros ?; rewrite <- Hdie by done; lia|].
  unfold App.diceRollerProps in Hprops. unfold App.onComplete.
  destruct (negb _); [done|].
  destruct (GameState.activeDiceRoll gameState) as [roll|]; [|done].
  simpl in *.
  destruct (GameState.players gameState !! _) as [player|] eqn:Hplayer; [|done].
  simpl in *. injection Hprops as <-. simpl in *.
  assert (Hresolved : forall context success data prev s,
             App.handleActionComplete context success data gameState prev
             <> App.Relayed s).
  { intros context success data prev s. unfold App.handleActionComplete.
    rewrite bool_decide_eq_false_2 by done.
    destruct context; [by destruct (List.find _ _)|done]. }
  destruct (0 <? spent') eqn:Hpos.
  - eexists _, player, _. split; [done|]. split; [apply Hresolved|].
    split; [done|].
    rewrite handleActionComplete_players.
    unfold App.chargeClues; simpl.
    rewrite (mapPlayer_lookup _ _ _ _ _ Hplayer), String.eqb_refl.
    split; [reflexivity|]. simpl. lia.
  - apply Z.ltb_ge in Hpos.
    eexists _, player, _. split; [done|]. split; [apply Hresolved|].
    split; [done|].
    rewrite handleActionComplete_players, Hplayer.
    split; [reflexivity|]. lia.
Qed.

(** A pending roll for the player "p1" holding one clue, who rolled a clue
    and a blank and clicks the clue die. *)
Lemma clue_conversions_cost_one_clue_each_witness :
  exists c player',
    App.onComplete [ElderSign; Blank] 1
      (GameState.set_phase DiceRoll
         (GameState.set_activeDiceRoll
            (Some (mkDiceRollRequest "p1" Observation 2 1 "Coat Rack"
                                     (App.SEARCH "t_search_foyer")))
            (session Offline [investigator "p1" "Ada" 1 [] 7 7 false] [] [foyer]
                     [] []))) = Some c
    /\ GameState.players (App.completion_state c) !! 0%nat = Some player'
    /\ Player.clues player' = 0.
Proof.
  destruct (clue_conversions_cost_one_clue_each
              (GameState.set_phase DiceRoll
                 (GameState.set_activeDiceRoll
                    (Some (mkDiceRollRequest "p1" Observation 2 1 "Coat Rack"
                                             (App.SEARCH "t_search_foyer")))
                    (session Offline [investigator "p1" "Ada" 1 [] 7 7 false] []
                             [foyer] [] [])))
              (DiceRoller.mkProps Observation 2 1 [] false 1)
              [Clue; Blank] 0 [DiceRoller.ClickDie 0] [ElderSign; Blank] 1
              ltac:(discriminate) eq_refl ltac:(simpl; lia) eq_refl)
    as (_ & _ & _ & _ & _ & _ & _ & _ & c & player & player' & Hc & _ & Hp & Hp'
        & Hclues & _).
  exists c, player'. split; [exact Hc|]. split; [exact Hp'|].
  injection Hp as <-. exact Hclues.
Defined.

(** What the amended claim leaves out.  A roll confirmed on a client is
    charged to the client's own copy of the session and handed to the host
    in an [ACTION_COMPLETE_TASK] message, which carries the context, the
    outcome and the faces but not the clues spent: the host that handles it
    leaves every player's clues as they are. *)
Lemma clues_spent_on_a_client_are_not_charged_by_the_host
    (client host : App.State) (roll : DiceRollRequest App.ActionContext)
    (pr : DiceRoller.Props) (faces : list DiceFace) (spent : Z)
    (dPuzzle dKind : Q) :
  GameState.networkMode client = Client ->
  GameState.networkMode host = Host ->
  App.diceRollerProps client = Some pr ->
  GameState.activeDiceRoll client = Some roll ->
  (exists s, App.onComplete faces spent client = Some (App.Relayed s))
  /\ exists c,
       App.handleNetworkData
         (App.ACTION_COMPLETE_TASK (dr_resume roll)
                                   (App.passed (target roll) faces)
                                   (App.Faces faces))
         dPuzzle dKind host = App.HandledTask c
       /\ GameState.players (App.completion_state c) = GameState.players host.
Proof.
  intros Hclient Hhost Hprops Hroll. split.
  - unfold App.diceRollerProps in Hprops. unfold App.onComplete.
    destruct (negb _); [done|]. rewrite Hroll in *. simpl in *.
    destruct (GameState.players client !! _) as [player|]; [|done]. simpl.
    unfold App.handleActionComplete. rewrite bool_decide_eq_true_2 by done.
    by eexists.
  - unfold App.handleNetworkData. rewrite bool_decide_eq_true_2 by done. simpl.
    eexists. split; [reflexivity|]. apply handleActionComplete_players.
Qed.

(** C5, counterexample to the claim as stated.  The player "p1" holds one
    clue and the Eldritch Glyph and rolled two clues; using the glyph
    converts both faces to successes, no clue is spent, and the confirmed
    roll leaves the player's clue count at one. *)
Lemma eldritch_glyph_converts_without_clues :
  let gameState :=
    GameState.set_phase DiceRoll
      (GameState.set_activeDiceRoll
         (Some (mkDiceRollRequest "p1" Observation 2 2 "Coat Rack"
                                  (App.SEARCH "t_search_foyer")))
         (session Offline
                  [investigator "p1" "Ada" 1 ["Eldritch Glyph"] 7 7 false]
                  [] [foyer] [] [])) in
  let pr := DiceRoller.mkProps Observation 2 1 ["Eldritch Glyph"] false 2 in
  let st := DiceRoller.clicks pr [DiceRoller.ClickAllConvertItem]
              (DiceRoller.mkState (Some [Clue; Clue]) 0 0) in
  App.diceRollerProps gameState = Some pr
  /\ DiceRoller.confirm st = Some ([ElderSign; ElderSign], 0)
  /\ conversions [Clue; Clue] [ElderSign; ElderSign] = 2
  /\ exists c,
       App.onComplete [ElderSign; ElderSign] 0 gameState = Some c
       /\ Player.clues <$> GameState.players (App.completion_state c) = [1].
Proof.
  simpl. split_and!; [reflexivity..|].
  eexists. split; reflexivity.
Qed.

(** ** Damage and insanity (C9) *)

Lemma findPlayer_id (playerId : string) (ps : list Player.t) (p : Player.t) :
  App.findPlayer playerId ps = Some p -> Player.id p = playerId.
Proof.
  unfold App.findPlayer. intros [_ H]%find_some. by apply String.eqb_eq.
Qed.

Lemma findPlayer_mapPlayer (playerId : string) (f : Player.t -> Player.t)
    (ps : list Player.t) (p : Player.t) :
  App.findPlayer playerId ps = Some p ->
  Player.id (f p) = playerId ->
  App.findPlayer playerId (App.mapPlayer playerId f ps) = Some (f p).
Proof.
  intros Hfind Hid. induction ps as [|q ps IH]; simpl in *; [done|].
  destruct (String.eqb (Player.id q) playerId) eqn:Hq.
  - injection Hfind as ->. by rewrite Hid, String.eqb_refl.
  - rewrite Hq. auto.
Qed.

Lemma findPlayer_removed (playerId : string) (ps : list Player.t) :
  App.findPlayer playerId
    (List.filter (fun p => negb (String.eqb (Player.id p) playerId)) ps) = None.
Proof.
  induction ps as [|q ps IH]; simpl; [done|].
  destruct (String.eqb (Player.id q) playerId) eqn:Hq; simpl; [done|].
  by rewrite Hq.
Qed.

(** The player after the first state update of [applyDamage], when the
    hit does not eliminate them. *)
Lemma applyDamage_update_survivor (playerId : string) (damage horror : Z)
    (prev : App.State) (player : Player.t) :
  App.findPlayer playerId (GameState.players prev) = Some player ->
  ~ (Player.health player - damage <= 0 /\ Player.isWounded player = true) ->
  exists player',
    App.findPlayer playerId
      (GameState.players (App.applyDamage_update playerId damage horror prev))
    = Some player'
    /\ Player.id player' = playerId
    /\ Player.secretObjective player' = Player.secretObjective player
    /\ Player.isInsane player'
       = Player.isInsane player || (Player.sanity player - horror <=? 0)
    /\ Player.sanity player'
       = if Player.sanity player - horror <=? 0 then 0
         else Player.sanity player - horror.
Proof.
  intros Hfind Hsurvives. unfold App.applyDamage_update. rewrite Hfind.
  pose proof (findPlayer_id _ _ _ Hfind) as Hid.
  destruct ((Player.health player - damage <=? 0) && Player.isWounded player)
    eqn:Helim.
  { apply andb_prop in Helim as [?%Z.leb_le ?]. tauto. }
  destruct (Player.health player - damage <=? 0);
    destruct (Player.sanity player - horror <=? 0);
    destruct (Player.isInsane player) eqn:Hinsane; simpl;
    (eexists; split;
      [apply (findPlayer_mapPlayer _ (fun _ => _) _ _ Hfind); exact Hid
      |simpl; rewrite ?Hinsane; done]).
Qed.

Lemma applyDamage_update_eliminated (playerId : string) (damage horror : Z)
    (prev : App.State) (player : Player.t) :
  App.findPlayer playerId (GameState.players prev) = Some player ->
  Player.health player - damage <= 0 ->
  Player.isWounded player = true ->
  App.findPlayer playerId
    (GameState.players (App.applyDamage_update playerId damage horror prev))
  = None.
Proof.
  intros Hfind Hhealth Hwounded. unfold App.applyDamage_update.
  rewrite Hfind, Hwounded.
  apply Z.leb_le in Hhealth. rewrite Hhealth. simpl.
  apply findPlayer_removed.
Qed.

(** One whole [applyDamage] on a player the closure sees as they are. *)
Lemma applyDamage_survivor (playerId : string) (damage horror : Z)
    (objective : option string) (gameState prev : App.State)
    (player : Player.t) :
  App.findPlayer playerId (GameState.players prev) = Some player ->
  App.findPlayer playerId (GameState.players gameState) = Some player ->
  ~ (Player.health player - damage <= 0 /\ Player.isWounded player = true) ->
  exists player',
    App.findPlayer playerId
      (GameState.players
         (App.applyDamage playerId damage horror objective gameState prev))
    = Some player'
    /\ Player.isInsane player'
       = Player.isInsane player || (Player.sanity player - horror <=? 0)
    /\ Player.sanity player'
       = (if Player.sanity player - horror <=? 0 then 0
          else Player.sanity player - horror)
    /\ Player.secretObjective player'
       = if negb (Player.isInsane player) && (Player.sanity player - horror <=? 0)
         then objective else Player.secretObjective player.
Proof.
  intros Hprev Hclosure Hsurvives.
  destruct (applyDamage_update_survivor _ damage horror _ _ Hprev Hsurvives)
    as (p1 & Hp1 & Hid & Hobj & Hinsane & Hsanity).
  unfold App.applyDamage, App.applyDamage_wantsObjective. rewrite Hclosure.
  destruct (negb (Player.isInsane player) && _) eqn:Hwants.
  - exists (Player.set_secretObjective objective p1).
    split; [|by rewrite <- Hinsane, <- Hsanity].
    unfold App.applyDamage_objective; simpl.
    by apply findPlayer_mapPlayer.
  - exists p1. by rewrite Hinsane, Hsanity, Hobj.
Qed.

(** Once insane, always insane, with the objective first assigned. *)
Lemma applyDamages_insane_stable (playerId : string)
    (hits : list (Z * Z * option string)) (s : App.State)
    (player player' : Player.t) :
  App.findPlayer playerId (GameState.players s) = Some player ->
  Player.isInsane player = true ->
  App.findPlayer playerId (GameState.players (applyDamages playerId hits s))
  = Some player' ->
  Player.isInsane player' = true
  /\ Player.secretObjective player' = Player.secretObjective player.
Proof.
  revert s player. induction hits as [|[[damage horror] objective] hits IH];
    intros s player Hfind Hinsane Hend.
  - simpl in Hend. rewrite Hfind in Hend. by injection Hend as <-.
  - unfold applyDamages in *. simpl in Hend.
    destruct (decide (Player.health player - damage <= 0
                      /\ Player.isWounded player = true)) as [[Hh Hw]|Hsurvives].
    + (* eliminated: the player is gone for good *)
      exfalso. clear IH. revert Hend.
      assert (Hgone : App.findPlayer playerId
                (GameState.players
                   (App.applyDamage playerId damage horror objective s s)) = None).
      { unfold App.applyDamage, App.applyDamage_wantsObjective.
        rewrite Hfind, Hinsane. simpl.
        by eapply applyDamage_update_eliminated. }
      generalize dependent (App.applyDamage playerId damage horror objective s s).
      clear. intros s Hgone.
      induction hits as [|[[d h] o] hits IH] in s, Hgone |- *; simpl.
      * by rewrite Hgone.
      * apply IH. unfold App.applyDamage, App.applyDamage_wantsObjective,
          App.applyDamage_update. by rewrite Hgone.
    + destruct (applyDamage_survivor _ damage horror objective s s _
                  Hfind Hfind Hsurvives) as (p1 & Hp1 & Hins1 & _ & Hobj1).
      rewrite Hinsane in Hins1, Hobj1. simpl in *.
      destruct (IH _ _ Hp1 Hins1 Hend) as [? ?]. split; congruence.
Qed.

(** C9.  For every [applyDamage] on a player who is in the session, whom
    the handler's closure sees as they are, and whom the hit does not
    eliminate: if sanity falls to 0 or below and the player was not insane,
    [isInsane] becomes true, sanity is set to 0 and the secret objective is
    the one the bridge answered; if the player was insane already, the flag
    and the objective stay as they are (and sanity that falls to 0 or below
    is set to 0); if sanity stays above 0, flag and objective stay as they
    are.  Once the flag is set, no further run of hits changes the flag or
    the objective for as long as the player is in the session: both are set
    exactly once. *)
Theorem applyDamage_sets_insanity_once
    (playerId : string) (damage horror : Z) (objective : option string)
    (gameState prev : App.State) (player : Player.t) :
  App.findPlayer playerId (GameState.players prev) = Some player ->
  App.findPlayer playerId (GameState.players gameState) = Some player ->
  ~ (Player.health player - damage <= 0 /\ Player.isWounded player = true) ->
  exists player',
    App.findPlayer playerId
      (GameState.players
         (App.applyDamage playerId damage horror objective gameState prev))
    = Some player'
    /\ (Player.sanity player - horror <= 0 ->
        Player.isInsane player = false ->
        Player.isInsane player' = true
        /\ Player.sanity player' = 0
        /\ Player.secretObjective player' = objective)
    /\ (Player.isInsane player = true ->
        Player.isInsane player' = true
        /\ Player.secretObjective player' = Player.secretObjective player
        /\ (Player.sanity player - horror <= 0 -> Player.sanity player' = 0))
    /\ (0 < Player.sanity player - horror ->
        Player.isInsane player' = Player.isInsane player
        /\ Player.secretObjective player' = Player.secretObjective player
        /\ Player.sanity player' = Player.sanity player - horror)
    /\ (Player.isInsane player' = true ->
        forall hits player'',
          App.findPlayer playerId
            (GameState.players
               (applyDamages playerId hits
                  (App.applyDamage playerId damage horror objective
                                   gameState prev)))
          = Some player'' ->
          Player.isInsane player'' = true
          /\ Player.secretObjective player''
             = Player.secretObjective player').
Proof.
  intros Hprev Hclosure Hsurvives.
  destruct (applyDamage_survivor _ damage horror objective _ _ _
              Hprev Hclosure Hsurvives) as (p1 & Hp1 & Hinsane & Hsanity & Hobj).
  exists p1. split; [exact Hp1|]. split_and!.
  - intros Hlow Hsane. apply Z.leb_le in Hlow.
    rewrite Hlow, Hsane in *. simpl in *. done.
  - intros Hmad. rewrite Hmad in *. simpl in *. split_and!; [done..|].
    intros Hlow%Z.leb_le. by rewrite Hlow in Hsanity.
  - intros Hhigh. apply Z.leb_gt in Hhigh. rewrite Hhigh in *.
    rewrite orb_false_r, andb_false_r in *. done.
  - intros Hmad hits player'' Hend.
    by eapply applyDamages_insane_stable.
Qed.

(** The specification's example: a player at sanity 1 takes 2 horror. *)
Lemma applyDamage_sets_insanity_once_witness :
  let s := session Offline [investigator "p1" "Ada" 1 [] 7 1 false] [] [foyer]
                   [] [] in
  exists player',
    App.findPlayer "p1"
      (GameState.players
         (App.applyDamage "p1" 0 2 (Some "You must hoard at least 3 items.") s s))
    = Some player'
    /\ Player.isInsane player' = true
    /\ Player.sanity player' = 0
    /\ Player.secretObjective player' = Some "You must hoard at least 3 items.".
Proof.
  intros s.
  destruct (applyDamage_sets_insanity_once "p1" 0 2
              (Some "You must hoard at least 3 items.") s s
              (investigator "p1" "Ada" 1 [] 7 1 false) eq_refl eq_refl
              ltac:(simpl; lia))
    as (player' & Hfind & Hfirst & _).
  exists player'. split; [exact Hfind|].
  apply Hfirst; [simpl; lia|reflexivity].
Defined.

(** ** Turn order (C8) *)

(** Without an attack at the end of the turn, the order is round-robin:
    from a player who is not the last, the turn passes to the next index and
    round and players' identities stay; from the last, the round grows by
    one and the Mythos phase begins, and [endMythosPhase] then gives the
    turn to the first player. *)
Lemma endTurn_round_robin_without_attack (remote : bool)
    (currentState : App.State) (player : Player.t) :
  (GameState.networkMode currentState <> Client \/ remote = true) ->
  GameState.players currentState !! GameState.currentPlayerIndex currentState
  = Some player ->
  App.monstersAt (Player.x player) (Player.y player)
                 (GameState.monsters currentState) = [] ->
  exists s,
    App.endTurn remote currentState = Some s
    /\ Player.id <$> GameState.players s
       = Player.id <$> GameState.players currentState
    /\ if bool_decide (S (GameState.currentPlayerIndex currentState)
                        = length (GameState.players currentState))
       then GameState.round s = GameState.round currentState + 1
            /\ GameState.phase s = Mythos
            /\ GameState.currentPlayerIndex (App.endMythosPhase s) = 0%nat
            /\ GameState.round (App.endMythosPhase s)
               = GameState.round currentState + 1
       else GameState.round s = GameState.round currentState
            /\ GameState.currentPlayerIndex s
               = S (GameState.currentPlayerIndex currentState).
Proof.
  intros Hhost Hplayer Hquiet. unfold App.endTurn.
  assert (Hrelay : bool_decide (GameState.networkMode currentState = Client)
                   && negb remote = false).
  { destruct Hhost as [Hmode|Hremote].
    - by rewrite bool_decide_false.
    - rewrite Hremote. apply andb_false_r. }
  rewrite Hrelay, Hplayer. simpl. rewrite Hquiet. simpl.
  pose proof (lookup_lt_Some _ _ _ Hplayer) as Hlt.
  destruct (decide (S (GameState.currentPlayerIndex currentState)
                    = length (GameState.players currentState))) as [Hlast|Hlast].
  - rewrite (bool_decide_eq_true_2 _ Hlast).
    rewrite Nat.add_1_r, Hlast, Nat.Div0.mod_same. simpl.
    eexists. split; [done|]. split; [done|].
    unfold App.runMythosPhase_begin, App.endMythosPhase; simpl.
    by destruct (GameState.players currentState).
  - rewrite (bool_decide_eq_false_2 _ Hlast).
    rewrite Nat.mod_small by lia.
    rewrite bool_decide_false by lia.
    unfold App.endTurn_pass.
    destruct (GameState.players currentState) as [|p ps] eqn:Hps; [done|].
    rewrite <- Hps in *.
    destruct (lookup_lt_is_Some_2 (GameState.players currentState)
                (GameState.currentPlayerIndex currentState + 1)) as [next Hnext];
      [lia|].
    rewrite Hnext. simpl. eexists. split; [done|]. simpl.
    split; [|split; [done|lia]].
    unfold App.mapPlayer. rewrite <- list_fmap_compose.
    apply list_fmap_ext. intros i q _. simpl.
    by destruct (String.eqb _ _).
Qed.

(** C8, the failing input.  Ada ends the turn on the tile of the rats: their
    attack eliminates Ada, and the turn index, computed before Ada was
    removed, now points past Ben, the next player in list order, to Cy.
    With only Ada and Ben in the session the same step throws. *)
Theorem endTurn_skips_the_player_after_an_eliminated_one :
  (exists s,
      App.endTurn false three_at_the_foyer = Some s
      /\ Player.name <$> GameState.players s = ["Ben"; "Cy"]
      /\ GameState.currentPlayerIndex s = 1%nat
      /\ Player.name <$> GameState.players s !! GameState.currentPlayerIndex s
         = Some "Cy")
  /\ App.endTurn false
       (GameState.set_players
          (take 2 (GameState.players three_at_the_foyer)) three_at_the_foyer)
     = None.
Proof.
  split; [|reflexivity].
  eexists. split; [reflexivity|]. split_and!; reflexivity.
Qed.

(** ** Combat (C2) *)

Lemma findIndex_is_Some {A} (p : A -> bool) (l : list A) (a : A) :
  a ∈ l -> p a = true -> is_Some (findIndex p l).
Proof.
  induction 1 as [a l|a b l _ IH]; intros Hp; simpl.
  - rewrite Hp. eauto.
  - destruct (p b); [eauto|]. destruct (IH Hp) as [i ->]. eauto.
Qed.

(** C2, as amended.  When an attack roll is resolved by
    [resolveCombat(monster, player, rolls)], the hits are the number of
    success faces rolled, plus 1 if the player holds any weapon item, plus 2
    instead if the player holds the Shotgun; they are 999 when the player
    holds Holy Water and the monster's name contains "Spirit" or "Ghost".
    The monster is removed from the session when its health minus the hits
    is 0 or below, and keeps the difference as health otherwise.  In
    particular a player holding a Shotgun who rolls 1 success face removes
    any monster with health at most 3. *)
Theorem resolveCombat_hits_are_successes_plus_weapon_bonus
    (monster : Monster.t) (player : Player.t) (rolls : list DiceFace)
    (gameState prev : AppCallbacks.State) (health : Z) :
  Monster.health monster = Num health ->
  Player.id player ∈ (Player.id <$> GameState.players gameState) ->
  let bonus :=
    if includes "Shotgun" (Player.items player) then 2
    else if existsb isWeapon (Player.items player) then 1 else 0 in
  let hits :=
    if includes "Holy Water" (Player.items player)
       && (str_includes "Spirit" (Monster.name monster)
           || str_includes "Ghost" (Monster.name monster))
    then 999
    else Z.of_nat (count_occ DiceFace_eq_dec rolls ElderSign) + bonus in
  AppCallbacks.hits monster player rolls = hits
  /\ exists s,
       AppCallbacks.resolveCombat monster player rolls gameState prev = Some s
       /\ GameState.monsters s
          = (if decide (health - hits <= 0)
             then List.filter
                    (fun m => negb (String.eqb (Monster.id m) (Monster.id monster)))
                    (GameState.monsters gameState)
             else (fun m => if String.eqb (Monster.id m) (Monster.id monster)
                            then Monster.set_health (Num (health - hits)) m
                            else m) <$> GameState.monsters gameState)
       /\ (includes "Shotgun" (Player.items player) = true ->
           count_occ DiceFace_eq_dec rolls ElderSign = 1%nat ->
           health <= 3 ->
           3 <= hits
           /\ forall m, m ∈ GameState.monsters s ->
                        Monster.id m <> Monster.id monster).
Proof.
  intros Hhealth Hlisted bonus hits.
  assert (Hhits : AppCallbacks.hits monster player rolls = hits).
  { unfold AppCallbacks.hits, AppCallbacks.rollHits, AppCallbacks.bonusHits,
      AppCallbacks.hasHolyWater, AppCallbacks.isSpirit, AppCallbacks.hasShotgun,
      AppCallbacks.hasWeapon, hits, bonus.
    by rewrite filter_length_count_occ. }
  split; [exact Hhits|].
  unfold AppCallbacks.resolveCombat. rewrite Hhits, Hhealth. simpl.
  apply list_elem_of_fmap in Hlisted as (q & Hq & Hin).
  destruct (findIndex_is_Some
              (fun p => String.eqb (Player.id p) (Player.id player))
              (GameState.players gameState) q Hin) as [pIndex HpIndex].
  { rewrite <- Hq. apply String.eqb_refl. }
  destruct (findIndex_Some _ _ _ HpIndex) as (p & Hp & _).
  destruct (decide (health - hits <= 0)) as [Hdead|Halive].
  - rewrite (proj2 (Z.leb_le _ _) Hdead).
    rewrite HpIndex. simpl. rewrite Hp. simpl.
    eexists. split; [reflexivity|]. simpl. split; [done|].
    intros Hgun Hone _. split.
    + unfold hits, bonus. rewrite Hgun, Hone.
      destruct (includes "Holy Water" _ && _); lia.
    + intros m [_ Hm]%list_elem_of_In%filter_In Heq.
      rewrite Heq, String.eqb_refl in Hm. done.
  - rewrite (proj2 (Z.leb_gt _ _)) by lia.
    rewrite HpIndex. simpl. rewrite Hp. simpl.
    eexists. split; [reflexivity|]. simpl. split; [done|].
    intros Hgun Hone Hweak. exfalso. apply Halive.
    unfold hits, bonus. rewrite Hgun, Hone.
    destruct (includes "Holy Water" _ && _); lia.
Qed.

(** The specification's example: an investigator with Strength 3 holding a
    Shotgun rolls one success against a Deep One of health 3. *)
Lemma resolveCombat_hits_are_successes_plus_weapon_bonus_witness :
  let player := investigator "p1" "Ada" 0 ["Shotgun"] 7 7 false in
  let s : AppCallbacks.State :=
    session Offline [player] [deep_one 3] [foyer] [] [] in
  AppCallbacks.hits (deep_one 3) player [ElderSign; Blank; Blank] = 3
  /\ exists s',
       AppCallbacks.resolveCombat (deep_one 3) player [ElderSign; Blank; Blank] s s
       = Some s'
       /\ GameState.monsters s' = [].
Proof.
  intros player s.
  destruct (resolveCombat_hits_are_successes_plus_weapon_bonus
              (deep_one 3) player [ElderSign; Blank; Blank] s s 3 eq_refl
              ltac:(simpl; set_solver))
    as (Hhits & s' & Hs' & Hmonsters & _).
  split; [exact Hhits|]. exists s'. split; [exact Hs'|exact Hmonsters].
Defined.

(** C2, counterexample to the claim as stated.  An unarmed investigator who
    rolls three successes deals three hits, and one holding the Shotgun who
    rolls none deals two: the base is the number of successes, not 1. *)
Lemma hits_are_not_one_plus_weapon_bonus :
  let unarmed := investigator "p1" "Ada" 0 [] 7 7 false in
  let armed := investigator "p2" "Ben" 0 ["Shotgun"] 7 7 false in
  AppCallbacks.hits (deep_one 4) unarmed [ElderSign; ElderSign; ElderSign] = 3
  /\ damage_as_specified unarmed = 1
  /\ AppCallbacks.hits (deep_one 4) armed [Blank; Blank; Blank] = 2
  /\ damage_as_specified armed = 3
  /\ (exists s' : AppCallbacks.State,
        AppCallbacks.resolveCombat (deep_one 4) unarmed
          [ElderSign; ElderSign; ElderSign]
          (session Offline [unarmed] [deep_one 4] [foyer] [] [])
          (session Offline [unarmed] [deep_one 4] [foyer] [] []) = Some s'
        /\ Monster.health <$> GameState.monsters s' = [Num 1]).
Proof.
  simpl. split_and!; [reflexivity..|].
  eexists. split; reflexivity.
Qed.

(** In the callback snapshot a confirmed attack roll resolves the combat
    whether or not it reaches the target: both callbacks installed by
    [handleMonsterClick] are [resolveCombat]. *)
Lemma attack_roll_resolves_combat_either_way (monster : Monster.t)
    (remote : bool) (currentState s : AppCallbacks.State)
    (rolls : list DiceFace) (cluesSpent : Z) :
  GameState.phase currentState = Playing ->
  AppCallbacks.handleMonsterClick monster remote currentState = Some s ->
  GameState.phase s = DiceRoll ->
  exists s' player,
    AppCallbacks.onComplete rolls cluesSpent s
    = Some (s', AppCallbacks.CbResolveCombat monster player)
    /\ GameState.players currentState
         !! GameState.currentPlayerIndex currentState = Some player.
Proof.
  unfold AppCallbacks.handleMonsterClick. intros Hplaying Hclick Hphase.
  rewrite bool_decide_true in Hclick by done. simpl in Hclick.
  destruct (_ && negb remote); [injection Hclick as <-; congruence|].
  destruct (GameState.players currentState !! _) as [player|]; [|done].
  simpl in Hclick.
  destruct (negb _).
  { injection Hclick as <-. simpl in Hphase. congruence. }
  destruct (Player.actionsRemaining player <=? 0).
  { injection Hclick as <-. simpl in Hphase. congruence. }
  injection Hclick as <-. unfold AppCallbacks.onComplete. simpl.
  eexists _, player. split; [|done].
  by destruct (Monster.tier monster <=? _).
Qed.

(** In the [ActionContext] snapshot the damage computed by
    [handleMonsterClick] never reaches [resolveCombat]: the resolver is
    handed the confirmed faces as damage, a roll that passes (two successes
    or more) turns the monster's health into [NaN], and no monster is ever
    removed by an attack. *)
Lemma resolveCombat_by_context_removes_no_monster (monsterId : string)
    (faces : list DiceFace) (prev : App.State) :
  length (GameState.monsters
            (App.resolveCombat monsterId (App.passed 2 faces) (App.Faces faces)
                               prev))
  = length (GameState.monsters prev).
Proof.
  unfold App.resolveCombat.
  destruct (findIndex _ _) as [mIdx|]; [|done].
  destruct (App.passed 2 faces) eqn:Hhit; [|done].
  destruct (GameState.monsters prev !! mIdx) as [m|]; [|done].
  assert (Hnan : App.data_toNumber (App.Faces faces) = NaN).
  { destruct faces; [|done]. by compute in Hhit. }
  rewrite Hnan.
  assert (Hsub : number_sub (Monster.health m) NaN = NaN)
    by by destruct (Monster.health m).
  simpl. rewrite Hsub. simpl. apply length_insert.
Qed.

(** The specification's example in the [ActionContext] snapshot: with a
    Shotgun and one success the roll misses the fixed target of 2 and the
    Deep One keeps its health; with two successes its health is [NaN]. *)
Lemma resolveCombat_by_context_example :
  let player := investigator "p1" "Ada" 0 ["Shotgun"] 7 7 false in
  let s : App.State := session Offline [player] [deep_one 3] [foyer] [] [] in
  App.totalDmg player = 3
  /\ Monster.health
       <$> GameState.monsters
             (App.resolveCombat "mon_1" (App.passed 2 [ElderSign; Blank; Blank])
                                (App.Faces [ElderSign; Blank; Blank]) s)
     = [Num 3]
  /\ Monster.health
       <$> GameState.monsters
             (App.resolveCombat "mon_1" (App.passed 2 [ElderSign; ElderSign; Blank])
                                (App.Faces [ElderSign; ElderSign; Blank]) s)
     = [NaN].
Proof. simpl. split_and!; reflexivity. Qed.

(** ** Search rewards (C4) *)

Lemma Qltb_lt (a b : Q) : Qltb a b = true <-> (a < b)%Q.
Proof.
  unfold Qltb. rewrite negb_true_iff, <- not_true_iff_false, Qle_bool_iff.
  split; [apply Qnot_le_lt|apply Qlt_not_le].
Qed.

Lemma pop_snoc {A} (l : list A) (a : A) : App.pop (l ++ [a]) = (Some a, l).
Proof.
  unfold App.pop. rewrite last_snoc, length_app. simpl.
  rewrite Nat.add_sub. by rewrite take_app_length.
Qed.

Lemma last_Some_snoc {A} (l : list A) (a : A) :
  last l = Some a -> exists l', l = l' ++ [a].
Proof.
  intros Hlast. destruct l as [|b l] using rev_ind; [done|].
  rewrite last_snoc in Hlast. injection Hlast as ->. eauto.
Qed.

(** C4, as amended.  For every successful Search resolution the reward is
    settled by one uniform draw: Evidence when the draw is below 0.20 and
    the escape is not yet open (a share of 20%, none once it is open);
    failing that an Item when the draw is below 0.65 and the item deck is
    not empty at that moment (a share of 45% while the escape is not open,
    and of 65% once it is); failing that a Clue.  When the reward is
    applied, an Item is popped from the end of [itemDeck] as it is then, and
    a Clue is granted instead if the deck is empty then; the Search token is
    removed from the session and the acting player's [actionsRemaining] is
    decremented by 1. *)
Theorem search_reward_is_drawn_then_applied
    (token : Token.t) (roll : Q) (narrative : string)
    (state prev : App.State) (player : Player.t) :
  GameState.players prev !! GameState.currentPlayerIndex prev = Some player ->
  "" ∉ GameState.itemDeck prev ->
  let reward := App.resolveSearch_reward true roll state in
  let evidence :=
    GameState.isEscapeOpen state = false /\ (roll < 20 # 100)%Q in
  let item := (roll < 65 # 100)%Q /\ GameState.itemDeck state <> [] in
  (reward = App.EvidenceReward <-> evidence)
  /\ (reward = App.ItemReward <-> ~ evidence /\ item)
  /\ (reward = App.ClueReward <-> ~ evidence /\ ~ item)
  /\ share App.EvidenceReward state
     = (if GameState.isEscapeOpen state then 0 else 20)%nat
  /\ (GameState.itemDeck state <> [] ->
      share App.ItemReward state
      = (if GameState.isEscapeOpen state then 65 else 45)%nat)
  /\ exists s player',
       App.resolveSearch_apply token true reward narrative prev = Some s
       /\ GameState.tokens s
          = List.filter
              (fun t => negb (String.eqb (Token.id t) (Token.id token)))
              (GameState.tokens prev)
       /\ GameState.players s !! GameState.currentPlayerIndex prev
          = Some player'
       /\ Player.actionsRemaining player' = Player.actionsRemaining player - 1
       /\ match reward, last (GameState.itemDeck prev) with
          | App.EvidenceReward, _ =>
              GameState.evidenceCollected s = GameState.evidenceCollected prev + 1
              /\ GameState.itemDeck s = GameState.itemDeck prev
              /\ Player.items player' = Player.items player
              /\ Player.clues player' = Player.clues player
          | App.ItemReward, Some found =>
              GameState.evidenceCollected s = GameState.evidenceCollected prev
              /\ GameState.itemDeck prev = GameState.itemDeck s ++ [found]
              /\ Player.items player' = Player.items player ++ [found]
              /\ Player.clues player' = Player.clues player
          | _, _ =>
              GameState.evidenceCollected s = GameState.evidenceCollected prev
              /\ GameState.itemDeck s = GameState.itemDeck prev
              /\ Player.items player' = Player.items player
              /\ Player.clues player' = Player.clues player + 1
          end.
Proof.
  intros Hplayer Hnames reward evidence item.
  assert (Hdeck : (0 <? Z.of_nat (length (GameState.itemDeck state))) = true
                  <-> GameState.itemDeck state <> []).
  { rewrite Z.ltb_lt. destruct (GameState.itemDeck state); simpl; split;
      (done || lia). }
  assert (Hreward :
    reward = if negb (GameState.isEscapeOpen state) && Qltb roll (20 # 100)
             then App.EvidenceReward
             else if Qltb roll (65 # 100)
                     && (0 <? Z.of_nat (length (GameState.itemDeck state)))
                  then App.ItemReward else App.ClueReward) by done.
  assert (Hevidence :
    negb (GameState.isEscapeOpen state) && Qltb roll (20 # 100) = true
    <-> evidence).
  { rewrite andb_true_iff, negb_true_iff, Qltb_lt. done. }
  assert (Hitem :
    Qltb roll (65 # 100) && (0 <? Z.of_nat (length (GameState.itemDeck state)))
    = true <-> item).
  { rewrite andb_true_iff, Qltb_lt, Hdeck. done. }
  split_and!.
  - rewrite Hreward, <- Hevidence.
    destruct (negb _ && Qltb roll (20 # 100)); [done|].
    by destruct (Qltb roll (65 # 100) && _).
  - rewrite Hreward, <- Hevidence, <- Hitem.
    destruct (negb _ && Qltb roll (20 # 100));
      [|destruct (Qltb roll (65 # 100) && _)]; intuition congruence.
  - rewrite Hreward, <- Hevidence, <- Hitem.
    destruct (negb _ && Qltb roll (20 # 100));
      [|destruct (Qltb roll (65 # 100) && _)]; intuition congruence.
  - unfold share, App.resolveSearch_reward.
    destruct (GameState.isEscapeOpen state);
      destruct (GameState.itemDeck state); vm_compute; reflexivity.
  - intros Hnonempty. unfold share, App.resolveSearch_reward.
    destruct (GameState.itemDeck state) as [|i deck]; [done|].
    replace (0 <? Z.of_nat (length (i :: deck))) with true
      by (symmetry; apply Z.ltb_lt; simpl; lia).
    destruct (GameState.isEscapeOpen state); vm_compute; reflexivity.
  - unfold App.resolveSearch_apply. rewrite Hplayer. simpl.
    pose proof (lookup_lt_Some _ _ _ Hplayer) as Hlt.
    destruct reward; clear Hreward.
    + eexists _, _. split; [reflexivity|]. simpl.
      rewrite list_lookup_insert_eq by done. done.
    + eexists _, _. split; [reflexivity|]. simpl.
      rewrite list_lookup_insert_eq by done. done.
    + destruct (last (GameState.itemDeck prev)) as [found|] eqn:Hlast.
      * destruct (last_Some_snoc _ _ Hlast) as [deck Hsnoc].
        assert (Hfound : String.eqb found "" = false).
        { apply String.eqb_neq. intros ->. apply Hnames. rewrite Hsnoc.
          apply elem_of_app. right. by apply list_elem_of_singleton. }
        assert (Hrest : take (length (GameState.itemDeck prev) - 1)
                             (GameState.itemDeck prev) = deck).
        { pose proof (pop_snoc deck found) as Hpop. unfold App.pop in Hpop.
          rewrite Hsnoc. by injection Hpop. }
        rewrite Hfound, Hrest.
        eexists _, _. split; [reflexivity|]. simpl.
        rewrite list_lookup_insert_eq by done. done.
      * eexists _, _. split; [reflexivity|]. simpl.
        rewrite list_lookup_insert_eq by done.
        split_and!; try reflexivity.
        destruct (GameState.itemDeck prev) as [|i deck]; [done|].
        by destruct (last_is_Some (i :: deck)) as [_ [? ?]]; [|congruence].
    + eexists _, _. split; [reflexivity|]. simpl.
      rewrite list_lookup_insert_eq by done. done.
Qed.

(** A draw of 0.30 with a lantern in the deck: the lantern goes to the
    player, the deck is empty, the token is gone, one action is used. *)
Lemma search_reward_is_drawn_then_applied_witness :
  App.resolveSearch_reward true (30 # 100) searching_the_foyer = App.ItemReward
  /\ exists s player',
       App.resolveSearch_apply coat_rack true App.ItemReward
         "You find a lantern." searching_the_foyer = Some s
       /\ GameState.tokens s = []
       /\ GameState.players s !! 0%nat = Some player'
       /\ Player.actionsRemaining player' = 1
       /\ GameState.itemDeck s = []
       /\ Player.items player' = ["Lantern"].
Proof.
  destruct (search_reward_is_drawn_then_applied coat_rack (30 # 100)
              "You find a lantern." searching_the_foyer searching_the_foyer
              (investigator "p1" "Ada" 1 [] 7 7 false) eq_refl
              ltac:(by intros [=]%list_elem_of_singleton))
    as (_ & Hitem & _ & _ & _ & s & player' & Hs & Htokens & Hplayer & Hactions
        & Hgiven).
  split; [reflexivity|].
  exists s, player'. simpl in *. destruct Hgiven as (_ & Hdeck & Hitems & _).
  split_and!; try done.
  by destruct (GameState.itemDeck s) as [|? [|? ?]].
Defined.

(** C4, counterexample to the claim as stated.  Once the escape is open (and
    the deck holds an item) the draws below 0.20 yield an Item as well: the
    Item's share is 65%, the Clue's 35%. *)
Lemma item_share_is_65_percent_once_escape_is_open :
  let state := GameState.set_isEscapeOpen true searching_the_foyer in
  App.resolveSearch_reward true (10 # 100) state = App.ItemReward
  /\ share App.EvidenceReward state = 0%nat
  /\ share App.ItemReward state = 65%nat
  /\ share App.ClueReward state = 35%nat.
Proof. vm_compute. split_and!; reflexivity. Qed.

(** ** The finale (C7) *)

Lemma random_index_lt (u : Q) (n : nat) :
  (0 <= u)%Q -> (u < 1)%Q -> (0 < n)%nat -> (random_index u n < n)%nat.
Proof.
  intros Hlo Hhi Hn. unfold random_index.
  set (q := (u * inject_Z (Z.of_nat n))%Q).
  assert (Hn' : (0 < inject_Z (Z.of_nat n))%Q).
  { change 0%Q with (inject_Z 0). rewrite <- Zlt_Qlt. lia. }
  assert (Hq0 : (0 <= q)%Q) by (apply Qmult_le_0_compat; [done|by apply Qlt_le_weak]).
  assert (Hq1 : (q < inject_Z (Z.of_nat n))%Q).
  { unfold q. rewrite <- (Qmult_1_l (inject_Z (Z.of_nat n))) at 2.
    by apply Qmult_lt_compat_r. }
  assert (H0 : 0 <= Qfloor q).
  { change 0 with (Qfloor 0). by apply Qfloor_resp_le. }
  assert (H1 : Qfloor q < Z.of_nat n).
  { apply Z.lt_nge. intros Hge. rewrite Zle_Qle in Hge.
    pose proof (Qfloor_le q) as Hfl.
    apply (Qlt_irrefl q). eapply Qlt_le_trans; [exact Hq1|].
    eapply Qle_trans; [exact Hge|exact Hfl]. }
  lia.
Qed.

Lemma filter_comm {A} (p q : A -> bool) (l : list A) :
  List.filter p (List.filter q l) = List.filter q (List.filter p l).
Proof.
  induction l as [|a l IH]; simpl; [done|].
  destruct (p a) eqn:Hp, (q a) eqn:Hq; simpl; rewrite ?Hp, ?Hq, IH; done.
Qed.

(** What applying a search reward leaves alone. *)
Lemma resolveSearch_apply_frame (token : Token.t) (success : bool)
    (rewardType : App.RewardType) (narrative : string) (prev s : App.State) :
  App.resolveSearch_apply token success rewardType narrative prev = Some s ->
  GameState.monsters s = GameState.monsters prev
  /\ GameState.tiles s = GameState.tiles prev
  /\ GameState.isEscapeOpen s = GameState.isEscapeOpen prev
  /\ GameState.tokens s
     = if success
       then List.filter
              (fun t => negb (String.eqb (Token.id t) (Token.id token)))
              (GameState.tokens prev)
       else GameState.tokens prev.
Proof.
  unfold App.resolveSearch_apply.
  destruct (GameState.players prev !! _) as [currentPlayer|]; [|done]. simpl.
  destruct success; [|by intros [= <-]].
  destruct rewardType; try by intros [= <-].
  unfold App.pop.
  destruct (last (GameState.itemDeck prev)) as [popped|];
    [destruct (String.eqb popped "")|]; by intros [= <-].
Qed.

Lemma resolve_after_finale (s s' : App.State) (r : Resolution) :
  Token.id (res_token r) <> Token.id App.escapeToken ->
  after_finale s ->
  resolve s r = Some s' ->
  after_finale s'.
Proof.
  intros Hid (Hopen & Htokens & Hbosses). unfold resolve.
  destruct (App.resolveSearch_apply _ _ _ _ s) as [s1|] eqn:Happly; [|done].
  apply resolveSearch_apply_frame in Happly as (Hm & _ & Ho & Ht).
  simpl. unfold App.resolveSearch_finale. rewrite Ho, Hopen, andb_false_r.
  intros [= <-]. unfold after_finale, escapeTokens, bosses in *.
  rewrite Ho, Hm, Ht. split; [done|]. split; [|done].
  destruct (res_success r); [|done].
  rewrite filter_comm, Htokens.
  apply String.eqb_neq in Hid. rewrite String.eqb_sym in Hid.
  cbn [List.filter]. by rewrite Hid.
Qed.

Lemma resolveAll_after_finale (rs : list Resolution) (s s' : App.State) :
  Forall (fun r => Token.id (res_token r) <> Token.id App.escapeToken) rs ->
  after_finale s ->
  resolveAll rs s = Some s' ->
  after_finale s'.
Proof.
  intros Hids. revert s. induction Hids as [|r rs Hid _ IH]; intros s Hs; simpl.
  - by intros [= <-].
  - destruct (resolve s r) as [s1|] eqn:Hr; [|done]. simpl.
    apply IH. by eapply resolve_after_finale.
Qed.

(** C7.  When the finale check runs on a session whose evidence has reached
    the requirement and whose escape is not yet open (so that it holds no
    Escape token and no tier-3 monster yet): afterwards the escape is open
    and exactly one Escape token and exactly one tier-3 monster, the boss,
    exist in the session; running the check again changes nothing; and
    however many searches are resolved afterwards, each followed by its
    finale check, there are still exactly one Escape token and one tier-3
    monster. *)
Theorem finale_spawns_one_boss_and_one_escape_token
    (u : Q) (now : Z) (current : App.State) :
  (0 <= u)%Q -> (u < 1)%Q ->
  GameState.tiles current <> [] ->
  GameState.evidenceRequired current <= GameState.evidenceCollected current ->
  GameState.isEscapeOpen current = false ->
  escapeTokens current = [] ->
  bosses current = [] ->
  exists s boss,
    App.resolveSearch_finale u now current = Some s
    /\ GameState.isEscapeOpen s = true
    /\ GameState.tokens s = GameState.tokens current ++ [App.escapeToken]
    /\ GameState.monsters s = GameState.monsters current ++ [boss]
    /\ escapeTokens s = [App.escapeToken]
    /\ bosses s = [boss]
    /\ (forall u' now', App.resolveSearch_finale u' now' s = Some s)
    /\ (forall rs s',
          Forall (fun r => Token.id (res_token r) <> Token.id App.escapeToken) rs ->
          resolveAll rs s = Some s' ->
          length (escapeTokens s') = 1%nat /\ length (bosses s') = 1%nat).
Proof.
  intros Hlo Hhi Htiles Hevidence Hclosed Htokens Hbosses.
  unfold App.resolveSearch_finale.
  rewrite (proj2 (Z.leb_le _ _) Hevidence), Hclosed. simpl.
  destruct (lookup_lt_is_Some_2 (GameState.tiles current)
              (random_index u (length (GameState.tiles current))))
    as [spawnTile ->].
  { apply random_index_lt; [done..|].
    destruct (GameState.tiles current); [done|simpl; lia]. }
  simpl. eexists _, _. split; [reflexivity|].
  assert (Hafter_tokens :
    List.filter (fun t => bool_decide (Token.type t = Escape))
                (GameState.tokens current ++ [App.escapeToken])
    = [App.escapeToken]).
  { unfold escapeTokens in Htokens. by rewrite List.filter_app, Htokens. }
  assert (Hafter_bosses :
    forall boss, Monster.tier boss = 3 ->
      List.filter (fun m => Monster.tier m =? 3)
                  (GameState.monsters current ++ [boss]) = [boss]).
  { intros boss Htier. unfold bosses in Hbosses.
    rewrite List.filter_app, Hbosses. simpl. by rewrite Htier. }
  split_and!.
  - done.
  - done.
  - done.
  - exact Hafter_tokens.
  - by apply Hafter_bosses.
  - intros u' now'. unfold App.resolveSearch_finale. simpl.
    by rewrite andb_false_r.
  - intros rs s' Hids Hrun.
    eapply resolveAll_after_finale in Hrun as (_ & -> & ->); [done|done|].
    unfold after_finale, escapeTokens, bosses. simpl.
    split; [done|]. split; [done|].
    by rewrite Hafter_bosses.
Qed.

(** The fourth piece of evidence found in the foyer. *)
Lemma finale_spawns_one_boss_and_one_escape_token_witness :
  exists s,
    App.resolveSearch_finale (1 # 2) 1700000000000
      (GameState.set_evidenceCollected 4 searching_the_foyer) = Some s
    /\ Token.id <$> escapeTokens s = ["tok_escape"]
    /\ Monster.name <$> bosses s = ["Shoggoth"]
    /\ App.resolveSearch_finale (1 # 3) 1700000000100 s = Some s.
Proof.
  destruct (finale_spawns_one_boss_and_one_escape_token (1 # 2) 1700000000000
              (GameState.set_evidenceCollected 4 searching_the_foyer))
    as (s & boss & Hs & _ & _ & _ & Htoken & Hboss & Hagain & _);
    [done..|].
  exists s. split; [exact Hs|]. rewrite Htoken, Hboss, Hagain.
  vm_compute in Hs. injection Hs as <-. vm_compute in Hboss.
  injection Hboss as <-. done.
Defined.

(** ** Dungeon generation (C6) *)

Lemma occupied_coordinates (x y : Z) (tiles : list Tile.t) :
  App.occupied x y tiles = false <-> (x, y) ∉ coordinates tiles.
Proof.
  unfold App.occupied, coordinates.
  rewrite <- not_true_iff_false, existsb_exists, list_elem_of_fmap.
  split; intros Hfree.
  - intros (t & [= -> ->] & Hin). apply Hfree. exists t.
    rewrite <- list_elem_of_In, !Z.eqb_refl. done.
  - intros (t & Hin & [Hx%Z.eqb_eq Hy%Z.eqb_eq]%andb_prop). apply Hfree.
    exists t. rewrite list_elem_of_In, Hx, Hy. done.
Qed.

Lemma coordinates_withBoundingBox (req : App.ExploreRequest)
    (newTiles : list Tile.t) :
  coordinates (App.withBoundingBox req newTiles) = coordinates newTiles.
Proof.
  unfold coordinates, App.withBoundingBox. rewrite <- list_fmap_compose.
  by apply list_fmap_ext.
Qed.

(** What an accepted click on a door has established when the room
    descriptor is awaited. *)
Lemma handleTokenClick_exploring (token : Token.t) (remote : bool)
    (dPuzzle dKind : Q) (currentState : App.State) (req : App.ExploreRequest) :
  App.handleTokenClick token remote dPuzzle dKind currentState
  = Some (App.Exploring req) ->
  App.ex_currentState req = currentState
  /\ App.ex_token req = token
  /\ (App.entryX req, App.entryY req)
     = (Token.x token + (App.step (App.ex_dir req)).1,
        Token.y token + (App.step (App.ex_dir req)).2)
  /\ App.occupied (App.entryX req) (App.entryY req)
                  (GameState.tiles currentState) = false.
Proof.
  unfold App.handleTokenClick.
  destruct (negb (bool_decide (GameState.phase currentState = Playing)));
    [done|].
  destruct (_ && negb remote); [done|].
  destruct (GameState.players currentState !! _) as [player|]; [|done]. simpl.
  destruct (negb _); [done|].
  destruct (bool_decide (Token.type token = Escape)); [done|].
  destruct (Player.actionsRemaining player <=? 0); [done|].
  destruct (Token.type token); try done.
  - destruct (App.step (default North (Token.direction token)))
      as [dx dy] eqn:Hstep.
    destruct (App.occupied _ _ _) eqn:Hfree; [done|].
    intros [= <-]. simpl. rewrite Hstep. done.
  - destruct (Qltb _ dPuzzle); done.
Qed.

(** The cells of a new room are pairwise distinct and free among the tiles
    the handler captured. *)
Lemma newRoomTiles_fresh (req : App.ExploreRequest)
    (roomData : Gemini.RoomData) (draws : App.ExploreDraws) (now : Z) :
  App.occupied (App.entryX req) (App.entryY req)
               (GameState.tiles (App.ex_currentState req)) = false ->
  NoDup (coordinates (App.newRoomTiles req roomData draws now))
  /\ forall c, c ∈ coordinates (App.newRoomTiles req roomData draws now) ->
               c ∉ coordinates (GameState.tiles (App.ex_currentState req)).
Proof.
  intros Hentry. apply occupied_coordinates in Hentry.
  unfold App.newRoomTiles.
  destruct (negb _ && negb _); simpl.
  2: { split; [apply NoDup_singleton|]. by intros c ->%list_elem_of_singleton. }
  destruct (App.step (App.ex_dir req)) as [dx dy] eqn:Hstep.
  set (ortho := match App.ex_dir req with
                | North | South => (1, 0)
                | _ => (0, 1)
                end).
  destruct ortho as [orthoX orthoY] eqn:Hortho. subst ortho.
  assert (Hgeom : (dx, dy) <> (0, 0) /\ (orthoX, orthoY) <> (0, 0)
                  /\ (dx + orthoX, dy + orthoY) <> (0, 0)
                  /\ (dx, dy) <> (orthoX, orthoY)
                  /\ dx * orthoX = 0 /\ dy * orthoY = 0).
  { destruct (App.ex_dir req); simpl in *;
      injection Hstep as <- <-; injection Hortho as <- <-;
      split_and!; (done || lia). }
  destruct Hgeom as (Hd & Ho & Hdo & Hne & Hx & Hy).
  simpl.
  repeat match goal with
         | |- context [App.occupied ?x ?y (GameState.tiles ?s)] =>
             let H := fresh "Hocc" in
             destruct (App.occupied x y (GameState.tiles s)) eqn:H;
             [|apply occupied_coordinates in H]
         end; simpl;
  repeat match goal with
         | |- context [(?a =? ?b)] => let H := fresh "Heq" in
                                       destruct (a =? b) eqn:H;
                                       [apply Z.eqb_eq in H|apply Z.eqb_neq in H]
         end; simpl;
  repeat match goal with
         | |- context [Qltb ?a ?b] => destruct (Qltb a b)
         end; simpl;
  (split;
   [repeat (apply NoDup_cons; split;
            [rewrite ?not_elem_of_cons; split_and?;
             try apply not_elem_of_nil; intros [= ? ?]; nia|]);
    apply NoDup_nil_2
   |intros c Hc; repeat (apply elem_of_cons in Hc as [->|Hc]); try done;
    by apply not_elem_of_nil in Hc]).
Qed.

(** When nothing else changed the tiles between the click and the room
    descriptor's arrival, exploring keeps the tiles on distinct cells. *)
Lemma exploring_keeps_cells_distinct_without_interleaving (token : Token.t)
    (remote : bool) (dPuzzle dKind : Q) (currentState : App.State)
    (req : App.ExploreRequest) (roomData : Gemini.RoomData)
    (draws : App.ExploreDraws) (now : Z) :
  App.handleTokenClick token remote dPuzzle dKind currentState
  = Some (App.Exploring req) ->
  NoDup (coordinates (GameState.tiles currentState)) ->
  NoDup (coordinates
           (GameState.tiles
              (App.handleTokenClick_explore req roomData draws now currentState))).
Proof.
  intros (Hstate & _ & _ & Hentry)%handleTokenClick_exploring Hdistinct.
  rewrite <- Hstate in Hentry.
  destruct (newRoomTiles_fresh req roomData draws now Hentry) as [Hnew Hfresh].
  unfold App.handleTokenClick_explore. simpl. unfold coordinates at 1.
  rewrite fmap_app. fold (coordinates (GameState.tiles currentState)).
  fold (coordinates (App.withBoundingBox req
                       (App.newRoomTiles req roomData draws now))).
  rewrite coordinates_withBoundingBox.
  apply NoDup_app. split; [done|]. split; [|done].
  intros c Hold Hc. apply (Hfresh c Hc). by rewrite Hstate.
Qed.

(** C6, the failing input.  A client sends the click on the north door of
    the foyer twice before the host has the first room descriptor.  Both
    clicks pass the occupancy check on the tiles as they are then; each room
    is laid out against those captured tiles and appended to the tiles of
    the moment: the session ends with two tiles on the cell north of the
    foyer. *)
Theorem exploring_a_door_twice_stacks_two_tiles_on_one_cell :
  exists req,
    App.handleTokenClick north_door true 0 0 at_the_north_door
    = Some (App.Exploring req)
    /\ let s1 := App.handleTokenClick_explore req kitchen low_draws
                   1700000000000 at_the_north_door in
       let s2 := App.handleTokenClick_explore req bathroom low_draws
                   1700000000400 s1 in
       coordinates (GameState.tiles at_the_north_door) = [(0, 0)]
       /\ coordinates (GameState.tiles s1) = [(0, 0); (0, -1)]
       /\ Tile.name <$> GameState.tiles s2
          = ["The Foyer"; "The Kitchen"; "The Bathroom"]
       /\ coordinates (GameState.tiles s2) = [(0, 0); (0, -1); (0, -1)]
       /\ ~ NoDup (coordinates (GameState.tiles s2)).
Proof.
  exists (App.mkExploreRequest north_door at_the_north_door
            (investigator "p1" "Ada" 1 [] 7 7 false) North 0 (-1)).
  split; [vm_compute; reflexivity|]. cbv zeta.
  split_and!; [vm_compute; reflexivity..|].
  intros Hdistinct. vm_compute in Hdistinct.
  apply NoDup_cons in Hdistinct as [_ Hdistinct].
  apply NoDup_cons in Hdistinct as [Hfresh _].
  apply Hfresh. by apply list_elem_of_singleton.
Qed.

(** ** The content bridge (C10) *)

Lemma generateWithRetry_unfold (service : nat -> Gemini.Outcome)
    (retries : nat) (b : Gemini.Bridge) :
  Gemini.generateWithRetry service retries b
  = if Gemini.isOffline b || negb (Gemini.ai b) then (inl Gemini.OfflineMode, b)
    else
      let b1 := Gemini.mkBridge (Gemini.ai b) (Gemini.isOffline b)
                                (S (Gemini.liveCalls b)) in
      match service (Gemini.liveCalls b) with
      | Gemini.Answered text => (inr text, b1)
      | Gemini.Rejected error =>
          if Gemini.isQuotaError error
          then (inl Gemini.QuotaExceeded,
                Gemini.mkBridge (Gemini.ai b) true (S (Gemini.liveCalls b)))
          else match retries with
               | S retries' => Gemini.generateWithRetry service retries' b1
               | O => (inl (Gemini.Other error), b1)
               end
      end.
Proof.
  destruct retries; simpl;
    unfold mbind, Gemini.M_bind, Gemini.offline, Gemini.hasClient; simpl;
    (destruct (Gemini.isOffline b || negb (Gemini.ai b)); [done|]);
    unfold mbind, Gemini.M_bind, Gemini.live; simpl;
    (destruct (service (Gemini.liveCalls b)) as [text|error]; [done|]);
    by destruct (Gemini.isQuotaError error).
Qed.

(** A quota rejection among the live calls of one [generateWithRetry]
    leaves the breaker tripped; live calls are only ever added, and the
    breaker is never reset. *)
Lemma generateWithRetry_trips (service : nat -> Gemini.Outcome)
    (retries : nat) (b b' : Gemini.Bridge) (r : Gemini.Thrown + option string) :
  Gemini.generateWithRetry service retries b = (r, b') ->
  (Gemini.liveCalls b <= Gemini.liveCalls b')%nat
  /\ (Gemini.isOffline b = true -> b' = b)
  /\ forall n error,
       (Gemini.liveCalls b <= n < Gemini.liveCalls b')%nat ->
       service n = Gemini.Rejected error ->
       Gemini.isQuotaError error = true ->
       Gemini.isOffline b' = true.
Proof.
  revert b. induction retries as [|retries IH]; intros b;
    rewrite generateWithRetry_unfold;
    (destruct (Gemini.isOffline b) eqn:Hoff; simpl;
     [intros [= <- <-]; split_and!; [lia|done|intros; lia]|]);
    (destruct (negb (Gemini.ai b)); simpl;
     [intros [= <- <-]; split_and!; [lia|done|intros; lia]|]);
    destruct (service (Gemini.liveCalls b)) as [text|error] eqn:Hcall.
  - intros [= <- <-]. simpl. split_and!; [lia|done|].
    intros n e Hn He Hq. assert (n = Gemini.liveCalls b) as -> by lia. congruence.
  - destruct (Gemini.isQuotaError error) eqn:Hquota; intros [= <- <-]; simpl;
      (split_and!; [lia|done|]); [done|].
    intros n e Hn He Hq. assert (n = Gemini.liveCalls b) as -> by lia. congruence.
  - intros [= <- <-]. simpl. split_and!; [lia|done|].
    intros n e Hn He Hq. assert (n = Gemini.liveCalls b) as -> by lia. congruence.
  - destruct (Gemini.isQuotaError error) eqn:Hquota.
    { intros [= <- <-]; simpl. split_and!; [lia|done|done]. }
    intros Hrec. apply IH in Hrec as (Hle & _ & Htrip). simpl in *.
    split_and!; [lia|done|].
    intros n e Hn He Hq.
    destruct (decide (n = Gemini.liveCalls b)) as [->|Hne]; [congruence|].
    apply (Htrip n e); [lia|done..].
Qed.

(** Once the breaker is tripped a call is answered by its fallback
    generator and leaves the bridge as it is: no live call, no reset. *)
Lemma generate_offline (service : nat -> Gemini.Outcome)
    (parsers : Gemini.Parsers) (c : Gemini.Call) (l : Gemini.Local)
    (b : Gemini.Bridge) :
  Gemini.isOffline b = true ->
  Gemini.generate service parsers c l b = (Gemini.fallback c l, b).
Proof.
  intros Hoff. unfold Gemini.generate, mbind, Gemini.M_bind, Gemini.offline.
  by rewrite Hoff.
Qed.

Lemma session_offline (service : nat -> Gemini.Outcome)
    (parsers : Gemini.Parsers) (calls : list (Gemini.Call * Gemini.Local))
    (b : Gemini.Bridge) :
  Gemini.isOffline b = true ->
  Gemini.session service parsers calls b
  = ((fun cl => Gemini.fallback cl.1 cl.2) <$> calls, b).
Proof.
  intros Hoff. induction calls as [|[c l] calls IH]; simpl; [done|].
  unfold mbind, Gemini.M_bind. rewrite generate_offline by done.
  by rewrite IH.
Qed.

(** C10.  If, while a content-generation call runs, one of the bridge's
    live calls is rejected with a quota or rate-limit error, then the
    breaker is tripped when the call returns, and every call of the rest of
    the session, however many and whichever, is answered by its fallback
    generator and leaves the bridge unchanged: no further live call is made
    and the breaker stays tripped. *)
Theorem quota_error_switches_the_bridge_offline_for_good
    (service : nat -> Gemini.Outcome) (parsers : Gemini.Parsers)
    (c : Gemini.Call) (l : Gemini.Local) (b b' : Gemini.Bridge)
    (a : Gemini.Answer) (n : nat) (error : Gemini.ApiError) :
  Gemini.generate service parsers c l b = (a, b') ->
  (Gemini.liveCalls b <= n < Gemini.liveCalls b')%nat ->
  service n = Gemini.Rejected error ->
  Gemini.isQuotaError error = true ->
  Gemini.isOffline b' = true
  /\ forall calls,
       Gemini.session service parsers calls b'
       = ((fun cl => Gemini.fallback cl.1 cl.2) <$> calls, b').
Proof.
  intros Hcall Hn Hrejected Hquota.
  assert (Hoff : Gemini.isOffline b' = true).
  { unfold Gemini.generate, mbind, Gemini.M_bind, Gemini.offline in Hcall.
    destruct (Gemini.isOffline b) eqn:Hb.
    { injection Hcall as _ <-. lia. }
    destruct (Gemini.generateWithRetry service 1 b) as [r b1] eqn:Hretry.
    apply generateWithRetry_trips in Hretry as (_ & _ & Htrip).
    assert (b' = b1) as -> by (destruct r; by injection Hcall).
    by apply (Htrip n error). }
  split; [exact Hoff|]. intros calls. by apply session_offline.
Qed.

(** A bridge with an API key whose first live call hits the rate limit:
    the Mythos event asked for comes from the fallback generator, and so
    does everything asked afterwards, with one live call made in all. *)
Lemma quota_error_switches_the_bridge_offline_for_good_witness :
  let first := Gemini.generate exhausted no_parsers
                 (Gemini.GenerateMythosEvent "" 7) (Gemini.mkLocal 0 0)
                 (Gemini.boot true) in
  first = (Gemini.AMythos (Gemini.getFallbackMythos 7),
           Gemini.mkBridge true true 1)
  /\ Gemini.session exhausted no_parsers
       [ (Gemini.GenerateInsanityCondition "", Gemini.mkLocal 0 1700000000001);
         (Gemini.GenerateMythosEvent "" 2, Gemini.mkLocal 0 0) ]
       first.2
     = ([ Gemini.AText (Some "You must not attack any monsters for the rest of the game.");
          Gemini.AMythos (Gemini.getFallbackMythos 2) ],
        Gemini.mkBridge true true 1).
Proof.
  intros first. split; [reflexivity|].
  destruct (quota_error_switches_the_bridge_offline_for_good exhausted
              no_parsers (Gemini.GenerateMythosEvent "" 7) (Gemini.mkLocal 0 0)
              (Gemini.boot true) first.2 first.1 0
              (Gemini.mkApiError (Some 429) None (Some "RESOURCE_EXHAUSTED"))
              eq_refl ltac:(simpl; lia) eq_refl eq_refl) as [_ Hrest].
  rewrite Hrest. vm_compute. reflexivity.
Defined.

(** ** Monster movement (C3) *)

Lemma tileAt_Some (tiles : list Tile.t) (c : Z * Z) (t : Tile.t) :
  AppCallbacks.tileAt tiles c = Some t -> t ∈ tiles /\ cell t = c.
Proof.
  unfold AppCallbacks.tileAt. intros Hfind.
  apply find_some in Hfind as [Hin Htest].
  apply andb_true_iff in Htest as [Hx Hy]. apply Z.eqb_eq in Hx, Hy.
  split; [by apply list_elem_of_In|].
  unfold cell. destruct c; simpl in *; congruence.
Qed.

Lemma tileAt_tiled (tiles : list Tile.t) (c : Z * Z) (t : Tile.t) :
  AppCallbacks.tileAt tiles c = Some t -> c ∈ tiled tiles.
Proof.
  intros [Hin <-]%tileAt_Some. unfold tiled.
  apply elem_of_list_to_set, list_elem_of_fmap. by exists t.
Qed.

(** A door is found at a tile exactly when some token is a resolved
    Explore token at the tile's cell with the direction asked for. *)
Lemma doorAt_is_Some (tokens : list Token.t) (t : Tile.t) (d : Direction) :
  is_Some (AppCallbacks.doorAt tokens t (Some d)) <->
  exists k, k ∈ tokens /\ Token.type k = Explore /\ Token.resolved k = true
            /\ (Token.x k, Token.y k) = cell t /\ Token.direction k = Some d.
Proof.
  unfold AppCallbacks.doorAt, cell. split.
  - intros [k Hk]. apply find_some in Hk as [Hin Htest].
    apply andb_true_iff in Htest as [Htest Hdir].
    apply andb_true_iff in Htest as [Htest Hy].
    apply andb_true_iff in Htest as [Htest Hx].
    apply andb_true_iff in Htest as [Hty Hres].
    apply bool_decide_eq_true in Hty. apply Z.eqb_eq in Hx, Hy.
    destruct (Token.direction k) as [d'|] eqn:Hd; [|done].
    apply bool_decide_eq_true in Hdir. subst d'.
    exists k. split_and!; [by apply list_elem_of_In|done|done|congruence|done].
  - intros (k & Hin & Hty & Hres & Hpos & Hdir).
    match goal with |- is_Some ?e => destruct e eqn:Hfind end; [by eexists|].
    eapply find_none in Hfind; [|by apply list_elem_of_In].
    simpl in Hfind. injection Hpos as Hx Hy.
    rewrite Hres, Hdir, Hx, Hy, !Z.eqb_refl in Hfind.
    rewrite !bool_decide_eq_true_2 in Hfind by done. done.
Qed.

Lemma neighbors_step (a b : Z * Z) :
  b ∈ AppCallbacks.neighbors a <->
  exists d, b = (a.1 + (App.step d).1, a.2 + (App.step d).2).
Proof.
  destruct a as [x y], b as [x' y']. unfold AppCallbacks.neighbors. simpl.
  rewrite !elem_of_cons, elem_of_nil. split.
  - intros [H|[H|[H|[H|[]]]]]; injection H as -> ->;
      [exists North|exists South|exists East|exists West]; simpl; f_equal; lia.
  - intros [[] H]; simpl in H; injection H as -> ->.
    + left. f_equal; lia.
    + right; left. f_equal; lia.
    + do 2 right; left. f_equal; lia.
    + do 3 right; left. f_equal; lia.
Qed.

Lemma neighbors_fourNeighbours (a b : Z * Z) :
  b ∈ AppCallbacks.neighbors a <-> fourNeighbours a b.
Proof.
  rewrite neighbors_step. unfold fourNeighbours.
  destruct a as [x y], b as [x' y']. simpl. split.
  - intros [[] H]; simpl in H; injection H as -> ->; lia.
  - intros H.
    assert ((x' = x /\ y' = y - 1) \/ (x' = x /\ y' = y + 1)
            \/ (x' = x + 1 /\ y' = y) \/ (x' = x - 1 /\ y' = y))
      as [[-> ->]|[[-> ->]|[[-> ->]|[-> ->]]]] by lia;
      [exists North|exists South|exists East|exists West]; simpl; f_equal; lia.
Qed.

(** Between tiles one step apart in the direction [d], [canMove] looks for
    a door at the first tile facing [d] and for one at the second facing
    back. *)
Lemma canMove_step (tokens : list Token.t) (t1 t2 : Tile.t) (d : Direction) :
  cell t2 = ((cell t1).1 + (App.step d).1, (cell t1).2 + (App.step d).2) ->
  AppCallbacks.canMove tokens t1 t2
  = String.eqb (Tile.roomId t1) (Tile.roomId t2)
    || bool_decide (is_Some (AppCallbacks.doorAt tokens t1 (Some d)))
    || bool_decide (is_Some (AppCallbacks.doorAt tokens t2 (Some (App.opposite d)))).
Proof.
  unfold cell. simpl. intros [= Hx Hy]. unfold AppCallbacks.canMove.
  destruct (String.eqb (Tile.roomId t1) (Tile.roomId t2)); [done|]. simpl.
  destruct d; simpl in Hx, Hy;
    repeat match goal with
      | |- context [?a <? ?b] => destruct (Z.ltb_spec a b); try lia
      end; reflexivity.
Qed.

(** [canMove] decides the door-connectivity predicate on tiles of
    4-neighbour cells. *)
Lemma canMove_traversable (tokens : list Token.t) (t1 t2 : Tile.t) :
  cell t2 ∈ AppCallbacks.neighbors (cell t1) ->
  AppCallbacks.canMove tokens t1 t2 = true <-> traversable tokens t1 t2.
Proof.
  intros [d Hd]%neighbors_step. rewrite (canMove_step tokens t1 t2 d Hd).
  rewrite !orb_true_iff, !bool_decide_eq_true, !doorAt_is_Some.
  unfold traversable, pointsToward. rewrite String.eqb_eq. split.
  - intros [[Hroom|(k & Hin & Hty & Hres & Hpos & Hdir)]
           |(k & Hin & Hty & Hres & Hpos & Hdir)].
    + by left.
    + right. exists k. split; [done|]. left. split_and!; [done..|].
      by exists d.
    + right. exists k. split; [done|]. right. split_and!; [done..|].
      exists (App.opposite d). split; [done|].
      rewrite Hd. destruct (cell t1), d; simpl; f_equal; lia.
  - intros [Hroom|(k & Hin & [(Hty & Hres & Hpos & d' & Hdir & Hd')
                             |(Hty & Hres & Hpos & d' & Hdir & Hd')])].
    + by left; left.
    + left; right. exists k. split_and!; [done..|].
      rewrite Hdir. f_equal. rewrite Hd in Hd'.
      destruct (cell t1), d, d'; try done; simpl in Hd'; injection Hd'; intros; lia.
    + right. exists k. split_and!; [done..|].
      rewrite Hdir. f_equal. rewrite Hd in Hd'.
      destruct (cell t1), d, d'; try done; simpl in Hd'; injection Hd'; intros; lia.
Qed.

Lemma arc_connected (tiles : list Tile.t) (tokens : list Token.t) (a b : Z * Z) :
  arc tiles tokens a b <-> connected tiles tokens a b.
Proof.
  unfold arc, connected. rewrite <- neighbors_fourNeighbours.
  split; intros (Hn & t1 & t2 & H1 & H2 & Hmove);
    (split; [done|]); exists t1, t2; (split_and!; [done..|]);
    apply tileAt_Some in H1 as H1', H2 as H2';
    destruct H1' as [_ <-], H2' as [_ <-];
    by apply canMove_traversable.
Qed.

Lemma arrival_cons (a b : Z * Z) (path : list (Z * Z)) :
  arrival a (b :: path) = arrival b path.
Proof. unfold arrival. rewrite last_cons. by destruct (last path). Qed.

Lemma arrival_snoc (a b : Z * Z) (path : list (Z * Z)) :
  arrival a (path ++ [b]) = b.
Proof. unfold arrival. by rewrite last_snoc. Qed.

Lemma walk_app (R : Z * Z -> Z * Z -> Prop) (a : Z * Z) (p1 p2 : list (Z * Z)) :
  walk R a (p1 ++ p2) <-> walk R a p1 /\ walk R (arrival a p1) p2.
Proof.
  revert a. induction p1 as [|b p1 IH]; intros a; simpl.
  - unfold arrival. simpl. tauto.
  - rewrite IH, arrival_cons. tauto.
Qed.

Lemma walk_snoc (R : Z * Z -> Z * Z -> Prop) (a b : Z * Z) (path : list (Z * Z)) :
  walk R a (path ++ [b]) <-> walk R a path /\ R (arrival a path) b.
Proof. rewrite walk_app. simpl. tauto. Qed.

Lemma walk_take (R : Z * Z -> Z * Z -> Prop) (a : Z * Z) (path : list (Z * Z))
    (n : nat) :
  walk R a path -> walk R a (take n path).
Proof.
  rewrite <- (take_drop n path) at 1. rewrite walk_app. tauto.
Qed.

Lemma walk_iff (R R' : Z * Z -> Z * Z -> Prop) (a : Z * Z) (path : list (Z * Z)) :
  (forall a b, R a b <-> R' a b) -> walk R a path <-> walk R' a path.
Proof.
  intros HR. revert a. induction path as [|b path IH]; intros a; simpl; [done|].
  by rewrite HR, IH.
Qed.

Lemma ordered_constant (d : nat) (levels : list nat) :
  Forall (fun b => b = d) levels -> ordered levels.
Proof.
  induction 1 as [|b levels -> Hall IH]; simpl; [done|].
  split; [|done]. eapply Forall_impl; [exact Hall|]. simpl. lia.
Qed.

Lemma ordered_push (a : nat) (levels news : list nat) :
  ordered (a :: levels) -> Forall (fun b => b = (a + 1)%nat) news ->
  ordered (levels ++ news).
Proof.
  intros [Hall Hord] Hnews.
  induction levels as [|b levels IH]; simpl.
  - by eapply ordered_constant.
  - apply Forall_cons in Hall as [Hb Hall]. destruct Hord as [Hbs Hord].
    split; [|by apply IH].
    apply Forall_app. split; [done|].
    eapply Forall_impl; [exact Hnews|]. simpl. lia.
Qed.

(** The [for] loop queues the neighbours it marks, each once and with the
    path grown by it, and marks every neighbour the monster can move to. *)
Lemma expand_spec (tiles : list Tile.t) (tokens : list Token.t)
    (currentTile : Tile.t) (c : Z * Z) (path : list (Z * Z))
    (queue queue' : list AppCallbacks.Entry) (visited visited' : gset (Z * Z)) :
  AppCallbacks.expand tiles tokens currentTile c path queue visited
  = (queue', visited') ->
  exists news,
    queue' = queue ++ ((fun n => (n, path ++ [n])) <$> news)
    /\ visited' = list_to_set news ∪ visited
    /\ NoDup news
    /\ (forall n, n ∈ news ->
          n ∈ AppCallbacks.neighbors c /\ (n ∉ visited)
          /\ exists t, AppCallbacks.tileAt tiles n = Some t
                       /\ AppCallbacks.canMove tokens currentTile t = true)
    /\ (forall n t, n ∈ AppCallbacks.neighbors c ->
          AppCallbacks.tileAt tiles n = Some t ->
          AppCallbacks.canMove tokens currentTile t = true -> n ∈ visited').
Proof.
  unfold AppCallbacks.expand. generalize (AppCallbacks.neighbors c) as ns.
  intros ns. revert queue visited.
  induction ns as [|n ns IH]; intros queue visited; simpl.
  { intros [= <- <-]. exists []. simpl. rewrite app_nil_r, union_empty_l_L.
    split_and!; [done|done|apply NoDup_nil_2|by intros ? ?%elem_of_nil|by intros ? ? ?%elem_of_nil]. }
  assert (forall visited1,
            visited ⊆ visited1 ->
            (forall t, AppCallbacks.tileAt tiles n = Some t ->
                       AppCallbacks.canMove tokens currentTile t = true ->
                       n ∈ visited1) ->
            forall news,
              NoDup news ->
              (forall m, m ∈ news ->
                 m ∈ ns /\ (m ∉ visited1)
                 /\ exists t, AppCallbacks.tileAt tiles m = Some t
                              /\ AppCallbacks.canMove tokens currentTile t = true) ->
              (forall m t, m ∈ ns ->
                 AppCallbacks.tileAt tiles m = Some t ->
                 AppCallbacks.canMove tokens currentTile t = true ->
                 m ∈ list_to_set news ∪ visited1) ->
              (forall m, m ∈ news ->
                 m ∈ n :: ns /\ (m ∉ visited)
                 /\ exists t, AppCallbacks.tileAt tiles m = Some t
                              /\ AppCallbacks.canMove tokens currentTile t = true)
              /\ (forall m t, m ∈ n :: ns ->
                    AppCallbacks.tileAt tiles m = Some t ->
                    AppCallbacks.canMove tokens currentTile t = true ->
                    m ∈ list_to_set news ∪ visited1)) as Hrest.
  { intros visited1 Hsub Hn news Hdup Hnews Hall. split.
    - intros m Hm. destruct (Hnews m Hm) as (? & Hfresh & ?).
      split_and!; [by apply elem_of_cons; right| |done].
      intros Hin. by apply Hfresh, Hsub.
    - intros m t [->|Hm]%elem_of_cons Ht Hmove; [|by eapply Hall].
      apply elem_of_union; right. by eapply Hn. }
  destruct (decide (n ∈ visited)) as [Hn|Hn].
  { rewrite bool_decide_eq_true_2 by done. intros Hfold.
    apply IH in Hfold as (news & -> & -> & Hdup & Hnews & Hall).
    exists news. split_and!; [done..| |];
      by eapply (Hrest visited (reflexivity _) (fun _ _ _ => Hn)). }
  rewrite bool_decide_eq_false_2 by done.
  destruct (AppCallbacks.tileAt tiles n) as [nextTile|] eqn:Htile;
    [destruct (AppCallbacks.canMove tokens currentTile nextTile) eqn:Hmove|].
  - intros Hfold.
    apply IH in Hfold as (news & -> & -> & Hdup & Hnews & Hall).
    destruct (Hrest ({[n]} ∪ visited)
                ltac:(apply union_subseteq_r)
                ltac:(intros; apply elem_of_union; left; by apply elem_of_singleton)
                news Hdup Hnews Hall) as [Hnews' Hall'].
    assert (list_to_set news ∪ ({[n]} ∪ visited)
            = list_to_set (n :: news) ∪ visited) as Hmarks.
    { by rewrite list_to_set_cons, (assoc_L (∪)),
         (comm_L (∪) (list_to_set news)). }
    exists (n :: news). split_and!.
    + by rewrite <- app_assoc.
    + done.
    + constructor; [|done]. intros Hin.
      destruct (Hnews n Hin) as (_ & Hfresh & _).
      apply Hfresh, elem_of_union; left. by apply elem_of_singleton.
    + intros m [->|Hm]%elem_of_cons; [|by apply Hnews'].
      split_and!; [by left|done|by exists nextTile].
    + apply Hall'.
  - intros Hfold.
    apply IH in Hfold as (news & -> & -> & Hdup & Hnews & Hall).
    exists news. split_and!; [done..| |];
      eapply (Hrest visited (reflexivity _)); try done; congruence.
  - intros Hfold.
    apply IH in Hfold as (news & -> & -> & Hdup & Hnews & Hall).
    exists news. split_and!; [done..| |];
      eapply (Hrest visited (reflexivity _)); try done; congruence.
Qed.

(** Marking fresh tiled cells takes as many cells off the unmarked ones. *)
Lemma size_unmarked (tiles : list Tile.t) (visited : gset (Z * Z))
    (news : list (Z * Z)) :
  NoDup news ->
  (forall n, n ∈ news -> n ∈ tiled tiles /\ n ∉ visited) ->
  (size (tiled tiles ∖ (list_to_set news ∪ visited)) + length news
   = size (tiled tiles ∖ visited))%nat.
Proof.
  intros Hdup Hnews.
  rewrite <- (size_list_to_set (C:=gset (Z * Z)) news) by done.
  rewrite <- size_union.
  - f_equal. apply set_eq. intros x.
    rewrite elem_of_union, !elem_of_difference, elem_of_union,
      elem_of_list_to_set.
    destruct (decide (x ∈ news)) as [Hx|Hx]; [destruct (Hnews x Hx)|]; tauto.
  - intros x [_ Hx]%elem_of_difference Hin.
    apply Hx, elem_of_union. by left.
Qed.

Lemma size_tiled (tiles : list Tile.t) :
  (size (tiled tiles) <= length tiles)%nat.
Proof.
  unfold tiled. induction tiles as [|t tiles IH].
  - by rewrite fmap_nil, list_to_set_nil, size_empty.
  - rewrite fmap_cons, list_to_set_cons, size_union_alt, size_singleton.
    pose proof (subseteq_size (list_to_set (cell <$> tiles) ∖ {[cell t]})
                  (list_to_set (cell <$> tiles) : gset (Z * Z))
                  ltac:(apply subseteq_difference_l; done)).
    simpl.
    lia.
Qed.

Section Search.
Variables (tiles : list Tile.t) (tokens : list Token.t)
          (players : list Player.t) (start : Z * Z).

(** While the search runs, a walk from the start either ends on a marked
    cell that is no longer queued, or passes through a queued cell no
    sooner than the queued path gets there. *)
Lemma searching_frontier (queue : list AppCallbacks.Entry)
    (visited : gset (Z * Z)) (w : list (Z * Z)) :
  searching tiles tokens players start queue visited ->
  walk (arc tiles tokens) start w ->
  (arrival start w ∈ visited /\ arrival start w ∉ queue.*1)
  \/ exists w1 w2 c p, w = w1 ++ w2 /\ arrival start w1 = c
                       /\ (c, p) ∈ queue /\ (length p <= length w1)%nat.
Proof.
  intros Hinv. induction w as [|x w IH] using rev_ind; intros Hwalk.
  - destruct (decide (start ∈ queue.*1)) as [Hq|Hq].
    + right. apply list_elem_of_fmap in Hq as ([c p] & Hc & Hin).
      simpl in Hc. subst c. exists [], [], start, p.
      split_and!; [done..|].
      destruct (searching_paths _ _ _ _ _ _ Hinv start p Hin) as (_ & _ & _ & Hmin).
      by apply (Hmin []).
    + left. split; [|done]. apply (searching_start _ _ _ _ _ _ Hinv).
  - apply walk_snoc in Hwalk as [Hwalk Harc]. rewrite arrival_snoc.
    destruct (IH Hwalk) as [[Hmarked Hdone]|(w1 & w2 & c & p & -> & Hc & Hin & Hle)].
    + destruct (searching_closed _ _ _ _ _ _ Hinv _ Hmarked Hdone) as [_ Hclosed].
      pose proof (Hclosed x Harc) as Hx.
      destruct (decide (x ∈ queue.*1)) as [Hq|Hq]; [|by left].
      right. apply list_elem_of_fmap in Hq as ([c p] & Hc & Hin).
      simpl in Hc. subst c. exists (w ++ [x]), [], x, p.
      rewrite app_nil_r, arrival_snoc. split_and!; [done..|].
      destruct (searching_paths _ _ _ _ _ _ Hinv x p Hin) as (_ & _ & _ & Hmin).
      apply Hmin; [|by rewrite arrival_snoc]. by apply walk_snoc.
    + right. exists w1, (w2 ++ [x]), c, p. by rewrite app_assoc.
Qed.

(** The first entry of the queue carries a path no longer than any other
    entry's. *)
Lemma searching_head (c : Z * Z) (p : list (Z * Z))
    (queue : list AppCallbacks.Entry) (visited : gset (Z * Z))
    (c' : Z * Z) (p' : list (Z * Z)) :
  searching tiles tokens players start ((c, p) :: queue) visited ->
  (c', p') ∈ (c, p) :: queue -> (length p <= length p')%nat.
Proof.
  intros Hinv [[= -> ->]|Hin]%elem_of_cons; [done|].
  pose proof (searching_order _ _ _ _ _ _ Hinv) as Hord.
  rewrite fmap_cons in Hord. destruct Hord as [Hall _].
  rewrite Forall_fmap, Forall_forall in Hall.
  specialize (Hall _ Hin). simpl in Hall. lia.
Qed.

(** Dropping the first entry, whose cell holds no player and no tile. *)
Lemma searching_skip (c : Z * Z) (p : list (Z * Z))
    (queue : list AppCallbacks.Entry) (visited : gset (Z * Z)) :
  searching tiles tokens players start ((c, p) :: queue) visited ->
  AppCallbacks.playerAt players c = false ->
  AppCallbacks.tileAt tiles c = None ->
  searching tiles tokens players start queue visited.
Proof.
  intros Hinv Hplayer Htile. split.
  - apply (searching_start _ _ _ _ _ _ Hinv).
  - intros c' p' Hin.
    apply (searching_paths _ _ _ _ _ _ Hinv). by apply elem_of_cons; right.
  - by destruct (searching_order _ _ _ _ _ _ Hinv).
  - intros x Hx Hq. destruct (decide (x = c)) as [->|Hne].
    + split; [done|]. intros c' (_ & t1 & _ & Ht1 & _). congruence.
    + apply (searching_closed _ _ _ _ _ _ Hinv); [done|].
      simpl. by intros [?|?]%elem_of_cons.
Qed.

(** One round of the loop on a tiled cell without a player. *)
Lemma searching_step (c : Z * Z) (p : list (Z * Z)) (currentTile : Tile.t)
    (queue queue' : list AppCallbacks.Entry) (visited visited' : gset (Z * Z)) :
  searching tiles tokens players start ((c, p) :: queue) visited ->
  AppCallbacks.playerAt players c = false ->
  AppCallbacks.tileAt tiles c = Some currentTile ->
  AppCallbacks.expand tiles tokens currentTile c p queue visited
  = (queue', visited') ->
  searching tiles tokens players start queue' visited'.
Proof.
  intros Hinv Hplayer Htile Hexpand.
  apply expand_spec in Hexpand as (news & -> & -> & Hdup & Hnews & Hall).
  destruct (searching_paths _ _ _ _ _ _ Hinv c p ltac:(by left))
    as (Hwalk & Harrival & Hc & Hmin).
  split.
  - apply elem_of_union; right. apply (searching_start _ _ _ _ _ _ Hinv).
  - intros c' p' [Hin|Hin]%elem_of_app.
    + destruct (searching_paths _ _ _ _ _ _ Hinv c' p' ltac:(by right))
        as (? & ? & ? & ?).
      split_and!; [done..| |done]. by apply elem_of_union; right.
    + apply list_elem_of_fmap in Hin as (n & [= -> ->] & Hn).
      destruct (Hnews n Hn) as (Hnb & Hfresh & t & Ht & Hmove).
      split_and!.
      * apply walk_snoc. split; [done|]. rewrite Harrival.
        split; [done|]. by exists currentTile, t.
      * apply arrival_snoc.
      * apply elem_of_union; left. by apply elem_of_list_to_set.
      * intros w Hw Hend. rewrite length_app. simpl.
        destruct (searching_frontier _ _ w Hinv Hw)
          as [[Hmarked _]|(w1 & w2 & c' & p' & -> & Hc' & Hin & Hle)].
        { by rewrite Hend in Hmarked. }
        pose proof (searching_head _ _ _ _ _ _ Hinv Hin) as Hhead.
        destruct w2 as [|x w2].
        { rewrite app_nil_r in Hend. rewrite Hend in Hc'. subst c'.
          destruct (searching_paths _ _ _ _ _ _ Hinv n p' Hin) as (_ & _ & ? & _).
          done. }
        rewrite length_app. simpl. lia.
  - rewrite fmap_app. eapply ordered_push.
    + apply (searching_order _ _ _ _ _ _ Hinv).
    + rewrite <- list_fmap_compose. apply Forall_fmap, Forall_forall.
      intros n _. simpl. by rewrite length_app.
  - intros x Hx Hq. rewrite fmap_app in Hq.
    apply not_elem_of_app in Hq as [Hq Hnew].
    assert (x ∉ news) as Hxn.
    { intros Hin. apply Hnew. rewrite <- list_fmap_compose.
      apply list_elem_of_fmap. by exists x. }
    apply elem_of_union in Hx as [Hx|Hx]; [by apply elem_of_list_to_set in Hx|].
    destruct (decide (x = c)) as [->|Hne].
    + split; [done|]. intros c' (Hnb & t1 & t2 & Ht1 & Ht2 & Hmove).
      assert (t1 = currentTile) as -> by congruence. by eapply Hall.
    + destruct (searching_closed _ _ _ _ _ _ Hinv x Hx) as [? Hclosed].
      { simpl. by intros [?|?]%elem_of_cons. }
      split; [done|]. intros c' Harc.
      apply elem_of_union; right. by apply Hclosed.
Qed.

(** The loop ends within the rounds given, on the path of a shortest walk
    to a player's cell when there is one, and on no path when no walk
    reaches a player. *)
Lemma search_correct (fuel : nat) (queue : list AppCallbacks.Entry)
    (visited : gset (Z * Z)) :
  searching tiles tokens players start queue visited ->
  (size (tiled tiles ∖ visited) + length queue < fuel)%nat ->
  exists targetPath,
    AppCallbacks.search fuel tiles tokens players queue visited = Some targetPath
    /\ match targetPath with
       | Some p =>
           walk (arc tiles tokens) start p
           /\ AppCallbacks.playerAt players (arrival start p) = true
           /\ forall w, walk (arc tiles tokens) start w ->
                        AppCallbacks.playerAt players (arrival start w) = true ->
                        (length p <= length w)%nat
       | None =>
           forall w, walk (arc tiles tokens) start w ->
                     AppCallbacks.playerAt players (arrival start w) = false
       end.
Proof.
  revert queue visited.
  induction fuel as [|fuel IH]; intros queue visited Hinv Hfuel; [lia|].
  destruct queue as [|[c p] queue]; simpl.
  - exists None. split; [done|]. intros w Hw.
    destruct (searching_frontier _ _ w Hinv Hw)
      as [[Hmarked Hdone]|(? & ? & ? & ? & _ & _ & []%elem_of_nil & _)].
    by destruct (searching_closed _ _ _ _ _ _ Hinv _ Hmarked Hdone).
  - destruct (searching_paths _ _ _ _ _ _ Hinv c p ltac:(by left))
      as (Hwalk & Harrival & Hc & Hmin).
    destruct (AppCallbacks.playerAt players c) eqn:Hplayer.
    { exists (Some p). split; [done|]. split_and!; [done|by rewrite Harrival|].
      intros w Hw Hend.
      destruct (searching_frontier _ _ w Hinv Hw)
        as [[Hmarked Hdone]|(w1 & w2 & c' & p' & -> & Hc' & Hin & Hle)].
      - destruct (searching_closed _ _ _ _ _ _ Hinv _ Hmarked Hdone). congruence.
      - pose proof (searching_head _ _ _ _ _ _ Hinv Hin).
        rewrite length_app. lia. }
    simpl in Hfuel.
    destruct (AppCallbacks.tileAt tiles c) as [currentTile|] eqn:Htile.
    + destruct (AppCallbacks.expand tiles tokens currentTile c p queue visited)
        as [queue' visited'] eqn:Hexpand.
      apply IH; [by eapply searching_step|].
      apply expand_spec in Hexpand as (news & -> & -> & Hdup & Hnews & _).
      rewrite length_app, length_fmap.
      pose proof (size_unmarked tiles visited news Hdup) as Hsize.
      rewrite <- Hsize in Hfuel; [lia|].
      intros n Hn. destruct (Hnews n Hn) as (_ & ? & t & Ht & _).
      split; [by eapply tileAt_tiled|done].
    + apply IH; [by eapply searching_skip|lia].
Qed.

(** The queue and the marks the loop starts with. *)
Lemma searching_init :
  searching tiles tokens players start [(start, [])] {[start]}.
Proof.
  split.
  - by apply elem_of_singleton.
  - intros c p [= -> ->]%list_elem_of_singleton.
    split_and!; [done|done|by apply elem_of_singleton|]. intros; simpl; lia.
  - simpl. by split.
  - intros c ->%elem_of_singleton Hq. destruct Hq. by left.
Qed.

(** More rounds than the loop takes change nothing. *)
Lemma search_fuel_monotone (fuel fuel' : nat) (queue : list AppCallbacks.Entry)
    (visited : gset (Z * Z)) (targetPath : option (list (Z * Z))) :
  AppCallbacks.search fuel tiles tokens players queue visited = Some targetPath ->
  (fuel <= fuel')%nat ->
  AppCallbacks.search fuel' tiles tokens players queue visited = Some targetPath.
Proof.
  revert fuel' queue visited.
  induction fuel as [|fuel IH]; intros fuel' queue visited; [done|].
  destruct fuel' as [|fuel']; [lia|]. simpl. intros Hsearch Hle.
  destruct queue as [|[c p] queue]; [done|].
  destruct (AppCallbacks.playerAt players c); [done|].
  destruct (AppCallbacks.tileAt tiles c) as [currentTile|].
  - destruct (AppCallbacks.expand tiles tokens currentTile c p queue visited).
    apply IH; [done|lia].
  - apply IH; [done|lia].
Qed.

(** [findPath] is what the loop ends on, however many more rounds it is
    given, and it is right. *)
Lemma findPath_correct :
  (forall fuel, (AppCallbacks.enough tiles <= fuel)%nat ->
     AppCallbacks.search fuel tiles tokens players [(start, [])] {[start]}
     = Some (AppCallbacks.findPath tiles tokens players start))
  /\ match AppCallbacks.findPath tiles tokens players start with
     | Some p =>
         walk (arc tiles tokens) start p
         /\ AppCallbacks.playerAt players (arrival start p) = true
         /\ forall w, walk (arc tiles tokens) start w ->
                      AppCallbacks.playerAt players (arrival start w) = true ->
                      (length p <= length w)%nat
     | None =>
         forall w, walk (arc tiles tokens) start w ->
                   AppCallbacks.playerAt players (arrival start w) = false
     end.
Proof.
  destruct (search_correct (AppCallbacks.enough tiles) _ _ searching_init)
    as (targetPath & Hsearch & Hright).
  { unfold AppCallbacks.enough. simpl.
    pose proof (size_tiled tiles).
    pose proof (subseteq_size (tiled tiles ∖ {[start]}) (tiled tiles)
                  ltac:(apply subseteq_difference_l; done)).
    lia. }
  unfold AppCallbacks.findPath. rewrite Hsearch. split; [|done].
  intros fuel Hfuel. by eapply search_fuel_monotone.
Qed.

End Search.

(** The cell [moveMonster] picks on a path is where the path's first
    [speed] steps end. *)
Lemma lookup_steps (a : Z * Z) (path : list (Z * Z)) (speed : nat) :
  (0 < speed)%nat -> (0 < length path)%nat ->
  path !! (Nat.min speed (length path) - 1)%nat
  = Some (arrival a (take speed path)).
Proof.
  intros Hspeed Hpath. unfold arrival.
  rewrite last_lookup, length_take, lookup_take_lt by lia.
  replace (Nat.pred (Nat.min speed (length path)))
    with (Nat.min speed (length path) - 1)%nat by lia.
  destruct (lookup_lt_is_Some_2 path (Nat.min speed (length path) - 1)%nat
              ltac:(lia)) as [dest ->].
  done.
Qed.

(** A round starts when the last player of the list ends the turn, and
    the monsters of the state it leaves are the moved ones. *)
Lemma endTurn_moves_the_monsters (remote : bool)
    (currentState : AppCallbacks.State) (m : AppCallbacks.MythosStart) :
  AppCallbacks.endTurn remote currentState = inl m ->
  GameState.monsters (mythosState m) = AppCallbacks.moveMonsters currentState.
Proof.
  unfold AppCallbacks.endTurn.
  destruct (bool_decide _ && negb remote); [done|].
  destruct (_ <=? _)%nat; [|done]. intros [= <-].
  unfold AppCallbacks.startMythosPhase.
  by destruct (AppCallbacks.firstAttack _ _) as [[monster victim]|].
Qed.

(** C3.  When a round starts, the monsters of the new state are the moved
    ones, and for every monster: the search loop from its cell ends
    within the rounds [findPath] gives it, on the same result however
    many more it is given.  When that result is a path, the path walks
    from the monster's cell through 4-neighbour cells with tiles, every
    step between tiles that share a roomId or have a resolved Explore
    token at either of them pointing toward the other; it ends on a cell
    occupied by a player; no such walk to a player's cell is shorter; and
    the monster is moved to where the first [speed] steps of the path end,
    [speed] being 3 for a tier-3 monster and 2 otherwise, so that it has
    crossed connected tiles only.  When the result is no path, no such walk
    reaches a player and the monster stays where it is. *)
Theorem monsters_advance_along_a_shortest_connected_path
    (currentState : AppCallbacks.State) :
  let tiles := GameState.tiles currentState in
  let tokens := GameState.tokens currentState in
  let players := GameState.players currentState in
  (forall remote m,
     AppCallbacks.endTurn remote currentState = inl m ->
     GameState.monsters (mythosState m) = AppCallbacks.moveMonsters currentState)
  /\ Forall2
       (fun monster moved =>
          let start := position monster in
          (forall fuel, (AppCallbacks.enough tiles <= fuel)%nat ->
             AppCallbacks.search fuel tiles tokens players [(start, [])] {[start]}
             = Some (AppCallbacks.findPath tiles tokens players start))
          /\ match AppCallbacks.findPath tiles tokens players start with
             | Some path =>
                 let steps :=
                   take (if Monster.tier monster =? 3 then 3%nat else 2%nat)
                        path in
                 walk (connected tiles tokens) start path
                 /\ AppCallbacks.playerAt players (arrival start path) = true
                 /\ (forall path',
                       walk (connected tiles tokens) start path' ->
                       AppCallbacks.playerAt players (arrival start path') = true ->
                       (length path <= length path')%nat)
                 /\ walk (connected tiles tokens) start steps
                 /\ moved = moveTo (arrival start steps) monster
             | None =>
                 (forall path',
                    walk (connected tiles tokens) start path' ->
                    AppCallbacks.playerAt players (arrival start path') = false)
                 /\ moved = monster
             end)
       (GameState.monsters currentState)
       (AppCallbacks.moveMonsters currentState).
Proof.
  intros tiles tokens players. split.
  { intros remote m. apply endTurn_moves_the_monsters. }
  unfold AppCallbacks.moveMonsters.
  apply Forall2_fmap_r, Forall_Forall2_diag, Forall_forall.
  intros monster _. cbv zeta. fold tiles tokens players.
  destruct (findPath_correct tiles tokens players (position monster))
    as [Hfuel Hright].
  split; [exact Hfuel|].
  unfold AppCallbacks.moveMonster. fold (position monster).
  assert (forall path, walk (arc tiles tokens) (position monster) path
                       <-> walk (connected tiles tokens) (position monster) path)
    as Hwalk by (intros; apply walk_iff, arc_connected).
  destruct (AppCallbacks.findPath tiles tokens players (position monster))
    as [path|].
  - destruct Hright as (Hpath & Hplayer & Hshortest).
    split_and!.
    + by apply Hwalk.
    + done.
    + intros path' Hpath'. apply Hshortest. by apply Hwalk.
    + by apply Hwalk, walk_take.
    + unfold AppCallbacks.speed.
      destruct (Nat.ltb_spec 0 (length path)) as [Hlen|Hlen].
      * rewrite (lookup_steps (position monster))
          by (destruct (Monster.tier monster =? 3); lia).
        done.
      * destruct path; [|simpl in Hlen; lia].
        rewrite take_nil. by destruct monster.
  - split; [|done]. intros path' Hpath'. apply Hright. by apply Hwalk.
Qed.

(** On the sample board the rats reach an investigator in the corridor
    through the opened door, and stay put when the only investigator is
    behind the wall of the cellar. *)
Lemma rats_go_through_the_door_and_not_through_the_wall :
  AppCallbacks.findPath (GameState.tiles (mansion 1 (-1)))
    (GameState.tokens (mansion 1 (-1))) (GameState.players (mansion 1 (-1)))
    (0, 0) = Some [(0, -1); (1, -1)]
  /\ position <$> AppCallbacks.moveMonsters (mansion 1 (-1)) = [(1, -1)]
  /\ AppCallbacks.findPath (GameState.tiles (mansion 1 0))
       (GameState.tokens (mansion 1 0)) (GameState.players (mansion 1 0))
       (0, 0) = None
  /\ position <$> AppCallbacks.moveMonsters (mansion 1 0) = [(0, 0)].
Proof. vm_compute. done. Qed.

(** The snapshot that resumes through an [ActionContext] has no monster
    movement: its Mythos phase leaves every monster where it is and at
    most adds one. *)
Lemma runMythosPhase_moves_no_monster (currentState : App.State)
    (event : Gemini.MythosAnswer) (u : Q) (now : Z) :
  GameState.monsters (App.runMythosPhase_begin currentState currentState)
  = GameState.monsters currentState
  /\ exists spawned,
       GameState.monsters
         (App.runMythosPhase_event currentState event u now
            (App.runMythosPhase_begin currentState currentState))
       = GameState.monsters currentState ++ spawned.
Proof.
  split; [done|]. unfold App.runMythosPhase_event.
  destruct (Gemini.kind event).
  - destruct (_ !! _) as [tile|]; [destruct (App.spawnTemplate _)|].
    + by eexists.
    + exists []. rewrite app_nil_r. unfold App.endMythosPhase. simpl.
      by destruct (GameState.players currentState).
    + exists []. rewrite app_nil_r. unfold App.endMythosPhase. simpl.
      by destruct (GameState.players currentState).
  - exists []. by rewrite app_nil_r.
  - exists []. by rewrite app_nil_r.
Qed.

(** * Further properties of the engine *)

(** ** The log *)

Lemma slice_last_length {A} (n : nat) (arr : list A) :
  length (slice_last n arr) = Nat.min n (length arr).
Proof. unfold slice_last. rewrite length_drop. lia. Qed.

Lemma slice_last_snoc {A} (n : nat) (arr : list A) (a : A) :
  (0 < n)%nat ->
  slice_last n (arr ++ [a]) = slice_last (n - 1) arr ++ [a].
Proof.
  intros Hn. unfold slice_last. rewrite length_app. simpl.
  rewrite drop_app_le by lia. f_equal. f_equal. lia.
Qed.

(** The log of the later snapshot is bounded: after [addLog] it holds the
    message last, before it the newest 49 of the entries it held, in their
    order, and so never more than 50 entries. *)
Theorem addLog_keeps_the_newest_50 (msg : string) (prev : App.State) :
  GameState.log (App.addLog msg prev)
  = slice_last 49 (GameState.log prev) ++ [msg]
  /\ length (GameState.log (App.addLog msg prev))
     = Nat.min 50 (length (GameState.log prev) + 1)
  /\ last (GameState.log (App.addLog msg prev)) = Some msg
  /\ GameState.log (App.addLog msg prev) `suffix_of` GameState.log prev ++ [msg].
Proof.
  unfold App.addLog. simpl. split_and!.
  - by rewrite slice_last_snoc by lia.
  - rewrite slice_last_length, length_app. simpl. lia.
  - rewrite slice_last_snoc by lia. apply last_snoc.
  - unfold slice_last. apply suffix_drop.
Qed.

(** ** Moving on the board *)

(** A click on a tile leaves monsters, tiles, tokens, phase and turn as
    they are, and every player with another id than the current player's.
    The current player either stays as they are, or is moved: then the
    session is in play, they had a move left, no monster shares their cell,
    the tile is at distance 1, and they stand on the tile with one move
    less. *)
Theorem tile_click_moves_the_current_player_one_step
    (tile : Tile.t) (remote : bool) (currentState s' : App.State)
    (player : Player.t) :
  App.handleTileClick tile remote currentState = Some s' ->
  GameState.players currentState !! GameState.currentPlayerIndex currentState
  = Some player ->
  GameState.monsters s' = GameState.monsters currentState
  /\ GameState.tiles s' = GameState.tiles currentState
  /\ GameState.tokens s' = GameState.tokens currentState
  /\ GameState.phase s' = GameState.phase currentState
  /\ GameState.currentPlayerIndex s' = GameState.currentPlayerIndex currentState
  /\ (forall i q, GameState.players currentState !! i = Some q ->
                  Player.id q <> Player.id player ->
                  GameState.players s' !! i = Some q)
  /\ (GameState.players s' = GameState.players currentState
      \/ (GameState.phase currentState = Playing
          /\ 0 < Player.movesRemaining player
          /\ App.monstersAt (Player.x player) (Player.y player)
                            (GameState.monsters currentState) = []
          /\ Z.abs (Player.x player - Tile.x tile)
             + Z.abs (Player.y player - Tile.y tile) = 1
          /\ GameState.players s' !! GameState.currentPlayerIndex currentState
             = Some (Player.set_x (Tile.x tile)
                       (Player.set_y (Tile.y tile)
                          (Player.set_movesRemaining
                             (Player.movesRemaining player - 1) player)))
          /\ GameState.log s' = GameState.log currentState)).
Proof.
  unfold App.handleTileClick. intros Hclick Hplayer.
  assert (forall (R : Prop) (s : App.State),
            s = s' ->
            GameState.monsters s = GameState.monsters currentState ->
            GameState.tiles s = GameState.tiles currentState ->
            GameState.tokens s = GameState.tokens currentState ->
            GameState.phase s = GameState.phase currentState ->
            GameState.currentPlayerIndex s
            = GameState.currentPlayerIndex currentState ->
            GameState.players s = GameState.players currentState ->
            GameState.monsters s' = GameState.monsters currentState
            /\ GameState.tiles s' = GameState.tiles currentState
            /\ GameState.tokens s' = GameState.tokens currentState
            /\ GameState.phase s' = GameState.phase currentState
            /\ GameState.currentPlayerIndex s'
               = GameState.currentPlayerIndex currentState
            /\ (forall i q, GameState.players currentState !! i = Some q ->
                            Player.id q <> Player.id player ->
                            GameState.players s' !! i = Some q)
            /\ (GameState.players s' = GameState.players currentState \/ R))
    as Hsame.
  { intros R s <- ? ? ? ? ? Hps. split_and!; [done..| |by left].
    intros i q Hq _. by rewrite Hps. }
  destruct (bool_decide (GameState.phase currentState = Playing)) eqn:Hphase;
    simpl in Hclick; [|injection Hclick as Hs; by eapply Hsame].
  apply bool_decide_eq_true in Hphase.
  destruct (bool_decide (GameState.networkMode currentState = Client) && negb remote);
    [injection Hclick as Hs; by eapply Hsame|].
  rewrite Hplayer in Hclick. simpl in Hclick.
  destruct (Z.leb_spec (Player.movesRemaining player) 0) as [Hmoves|Hmoves];
    [injection Hclick as Hs; by eapply Hsame|].
  destruct (App.monstersAt _ _ _) as [|first rest] eqn:Hmonsters.
  2: { destruct (negb _ || negb _); injection Hclick as Hs; by eapply Hsame. }
  destruct (Z.eqb_spec
              (Z.abs (Player.x player - Tile.x tile)
               + Z.abs (Player.y player - Tile.y tile)) 1) as [Hdist|Hdist];
    [|injection Hclick as Hs; by eapply Hsame].
  injection Hclick as <-. simpl. split_and!; [done..| |].
  - intros i q Hq Hne. rewrite (mapPlayer_lookup _ _ _ _ _ Hq).
    by rewrite (proj2 (String.eqb_neq _ _) Hne).
  - right. split_and!; [done..| |done].
    by rewrite (mapPlayer_lookup _ _ _ _ _ Hplayer), String.eqb_refl.
Qed.

(** Ada steps from the foyer into the corridor north of it. *)
Lemma tile_click_moves_the_current_player_one_step_witness :
  let s := at_the_foyer Offline [] 7 in
  exists s',
    App.handleTileClick (corridor 0 (-1)) false s = Some s'
    /\ GameState.players s' !! 0%nat
       = Some (Player.set_x 0
                 (Player.set_y (-1)
                    (Player.set_movesRemaining 1
                       (investigator "p1" "Ada" 0 [] 7 7 false)))).
Proof.
  intros s. eexists. split; [reflexivity|].
  destruct (tile_click_moves_the_current_player_one_step
              (corridor 0 (-1)) false s _
              (investigator "p1" "Ada" 0 [] 7 7 false) eq_refl eq_refl)
    as (_ & _ & _ & _ & _ & _ & [Hsame|(_ & _ & _ & _ & Hmoved & _)]).
  - discriminate Hsame.
  - exact Hmoved.
Defined.

(** ** Using items *)

Lemma findIndex_first {A} (p : A -> bool) (l : list A) (i : nat) :
  findIndex p l = Some i ->
  exists a, l !! i = Some a /\ p a = true
            /\ forall b, b ∈ take i l -> p b = false.
Proof.
  revert i. induction l as [|a l IH]; intros i; simpl; [done|].
  destruct (p a) eqn:Hp.
  - intros [= <-]. exists a. split_and!; [done..|]. by intros b ?%elem_of_nil.
  - destruct (findIndex p l) as [j|]; [|done]. intros [= <-].
    destruct (IH j eq_refl) as (b & Hb & Hpb & Hbefore).
    exists b. split_and!; [done..|].
    intros c [->|Hc]%elem_of_cons; [done|by apply Hbefore].
Qed.

Lemma findIndex_None {A} (p : A -> bool) (l : list A) :
  findIndex p l = None <-> forall a, a ∈ l -> p a = false.
Proof.
  induction l as [|a l IH]; simpl.
  - split; [by intros _ b ?%elem_of_nil|done].
  - destruct (p a) eqn:Hp.
    + split; [done|]. intros Hall. specialize (Hall a ltac:(by left)). congruence.
    + rewrite fmap_None, IH. split.
      * intros Hall b [->|Hb]%elem_of_cons; [done|by apply Hall].
      * intros Hall b Hb. apply Hall. by right.
Qed.

(** Consuming an item takes the first copy of it out of the inventory and
    keeps every other item, copies included, in place; an inventory without
    the item is left as it is. *)
Theorem consumeItem_removes_the_first_copy (item : string) (items : list string) :
  (item ∈ items ->
   exists before after,
     items = before ++ item :: after /\ (item ∉ before)
     /\ App.consumeItem item items = before ++ after)
  /\ (item ∉ items -> App.consumeItem item items = items).
Proof.
  unfold App.consumeItem. split.
  - intros Hin.
    destruct (findIndex (String.eqb item) items) as [idx|] eqn:Hidx.
    + apply findIndex_first in Hidx as (a & Ha & Heq & Hbefore).
      apply String.eqb_eq in Heq. subst a.
      exists (take idx items), (drop (S idx) items). split_and!.
      * by rewrite <- (take_drop_middle items idx item Ha) at 1.
      * intros Hb. apply Hbefore in Hb. by rewrite String.eqb_refl in Hb.
      * apply delete_take_drop.
    + pose proof (proj1 (findIndex_None _ _) Hidx item Hin) as Hnone.
      by rewrite String.eqb_refl in Hnone.
  - intros Hout.
    destruct (findIndex (String.eqb item) items) as [idx|] eqn:Hidx; [|done].
    apply findIndex_first in Hidx as (a & Ha & Heq & _).
    apply String.eqb_eq in Heq. subst a.
    destruct Hout. by eapply list_elem_of_lookup_2.
Qed.

(** A First Aid Kit, Bandages or Painkillers used by the player whose turn
    it is: when the player is below the investigator's maximum, health goes
    up by the item's amount but not above the maximum, one copy of the item
    leaves the inventory, and Painkillers cost a point of sanity, not below
    0; when health is at the maximum already, the player and the item stay
    as they are.  Monsters are not touched. *)
Theorem healing_items_never_overheal
    (item : string) (amount : Z) (remote : bool) (s : App.State)
    (player : Player.t) :
  (item, amount) ∈ [("First Aid Kit", 2); ("Bandages", 1); ("Painkillers", 2)] ->
  GameState.networkMode s <> Client \/ remote = true ->
  GameState.players s !! GameState.currentPlayerIndex s = Some player ->
  let maxHp := App.templateMax inv_health (Player.investigatorId player) in
  exists s' player',
    App.handleUseItem item remote s s = Some s'
    /\ GameState.players s' !! GameState.currentPlayerIndex s = Some player'
    /\ GameState.monsters s' = GameState.monsters s
    /\ Player.health player <= Player.health player'
       <= Z.max (Player.health player) maxHp
    /\ if Player.health player <? maxHp
       then Player.health player' = Z.min (Player.health player + amount) maxHp
            /\ Player.items player' = App.consumeItem item (Player.items player)
            /\ Player.sanity player'
               = (if String.eqb item "Painkillers"
                  then Z.max 0 (Player.sanity player - 1)
                  else Player.sanity player)
       else player' = player.
Proof.
  intros Hitem Hmode Hplayer maxHp. unfold App.handleUseItem.
  assert (bool_decide (GameState.networkMode s = Client) && negb remote = false)
    as ->.
  { destruct Hmode as [Hmode| ->]; [|by rewrite andb_false_r].
    by rewrite bool_decide_eq_false_2. }
  rewrite Hplayer. simpl. fold maxHp.
  assert (Hheal :
    forall msg horror,
      horror = (if String.eqb item "Painkillers" then 1 else 0) ->
      exists s' player',
        Some (let newHp := Z.min (Player.health player + amount) maxHp in
              if Player.health player <? newHp
              then App.addLog msg
                     (GameState.set_players
                        (App.mapPlayer (Player.id player)
                           (fun p =>
                              Player.set_health newHp
                                (Player.set_items
                                   (App.consumeItem item (Player.items player))
                                   (if horror =? 0 then p
                                    else Player.set_sanity
                                           (Z.max 0 (Player.sanity player - horror))
                                           p)))
                           (GameState.players s)) s)
              else App.addLog "Health is already full." s) = Some s'
        /\ GameState.players s' !! GameState.currentPlayerIndex s = Some player'
        /\ GameState.monsters s' = GameState.monsters s
        /\ Player.health player <= Player.health player'
           <= Z.max (Player.health player) maxHp
        /\ if Player.health player <? maxHp
           then Player.health player'
                = Z.min (Player.health player + amount) maxHp
                /\ Player.items player'
                   = App.consumeItem item (Player.items player)
                /\ Player.sanity player'
                   = (if String.eqb item "Painkillers"
                      then Z.max 0 (Player.sanity player - 1)
                      else Player.sanity player)
           else player' = player).
  { intros msg horror Hhorror. cbv zeta.
    assert (0 < amount) as Hamount.
    { repeat (apply elem_of_cons in Hitem as [[= -> ->]|Hitem]; [lia|]).
      by apply elem_of_nil in Hitem. }
    destruct (Z.ltb_spec (Player.health player)
                (Z.min (Player.health player + amount) maxHp)) as [Hlt|Hge].
    - eexists _, _. split; [reflexivity|]. simpl.
      rewrite (mapPlayer_lookup _ _ _ _ _ Hplayer), String.eqb_refl.
      split; [reflexivity|]. split; [done|].
      destruct (Z.ltb_spec (Player.health player) maxHp); [|lia].
      subst horror. destruct (String.eqb item "Painkillers"); simpl;
        (split; [lia|done]).
    - exists (App.addLog "Health is already full." s), player.
      split; [done|]. simpl. split; [done|]. split; [done|].
      destruct (Z.ltb_spec (Player.health player) maxHp); [lia|].
      split; [lia|done]. }
  apply elem_of_cons in Hitem as [[= -> ->]|Hitem];
    [simpl; by apply (Hheal _ 0)|].
  apply elem_of_cons in Hitem as [[= -> ->]|Hitem];
    [simpl; by apply (Hheal _ 0)|].
  apply elem_of_cons in Hitem as [[= -> ->]|Hitem];
    [simpl; by apply (Hheal _ 1)|].
  by apply elem_of_nil in Hitem.
Qed.

(** Ada, at 6 of 7 health, uses the bandages. *)
Lemma healing_items_never_overheal_witness :
  let s := at_the_foyer Offline ["Bandages"; "Lantern"] 6 in
  exists s' player',
    App.handleUseItem "Bandages" false s s = Some s'
    /\ GameState.players s' !! 0%nat = Some player'
    /\ Player.health player' = 7
    /\ Player.items player' = ["Lantern"].
Proof.
  intros s.
  destruct (healing_items_never_overheal "Bandages" 1 false s
              (investigator "p1" "Ada" 0 ["Bandages"; "Lantern"] 6 7 false)
              ltac:(right; left) ltac:(by left) eq_refl)
    as (s' & player' & Huse & Hplayer' & _ & _ & Hhealth & Hitems & _).
  exists s', player'. split_and!; [exact Huse|exact Hplayer'|exact Hhealth|
                                    exact Hitems].
Defined.



(** ** Registration *)

(** A registration message on a host: a payload without id or name is
    dropped.  Otherwise the player replaces, in place, the first one
    registered under the same id, or joins at the end when the id is new; the
    other players stay, and ids that were distinct stay distinct. *)
Theorem registration_keeps_ids_distinct
    (newPlayer : Player.t) (dPuzzle dKind : Q) (host : App.State) :
  GameState.networkMode host = Host ->
  NoDup (Player.id <$> GameState.players host) ->
  let known := bool_decide (Player.id newPlayer
                            ∈ Player.id <$> GameState.players host) in
  if String.eqb (Player.id newPlayer) "" || String.eqb (Player.name newPlayer) ""
  then App.handleNetworkData (App.ACTION_REGISTER_PLAYER (Some newPlayer))
                             dPuzzle dKind host = App.Dropped
  else
    exists s,
      App.handleNetworkData (App.ACTION_REGISTER_PLAYER (Some newPlayer))
                            dPuzzle dKind host = App.Handled (Some s)
      /\ Player.id <$> GameState.players s
         = (if known then Player.id <$> GameState.players host
            else (Player.id <$> GameState.players host) ++ [Player.id newPlayer])
      /\ NoDup (Player.id <$> GameState.players s)
      /\ newPlayer ∈ GameState.players s
      /\ (forall q, q ∈ GameState.players host ->
                    Player.id q <> Player.id newPlayer ->
                    q ∈ GameState.players s)
      /\ (length (GameState.log s) <= 50)%nat.
Proof.
  intros Hhost Hdistinct known. unfold App.handleNetworkData.
  rewrite Hhost. simpl.
  destruct (String.eqb (Player.id newPlayer) ""
            || String.eqb (Player.name newPlayer) ""); [done|].
  eexists. split; [reflexivity|]. unfold App.registerPlayer. simpl.
  assert (Hlog : forall log : list string,
            (length (slice_last 50 log) <= 50)%nat).
  { intros log. rewrite slice_last_length. lia. }
  destruct (findIndex _ (GameState.players host)) as [idx|] eqn:Hidx.
  - apply findIndex_first in Hidx as (q & Hq & Hid%String.eqb_eq & _).
    assert (Hids : Player.id <$> <[idx:=newPlayer]> (GameState.players host)
                   = Player.id <$> GameState.players host).
    { rewrite list_fmap_insert, <- Hid. apply list_insert_id.
      by rewrite list_lookup_fmap, Hq. }
    assert (known = true) as ->.
    { apply bool_decide_eq_true. rewrite <- Hid.
      apply list_elem_of_fmap. exists q. split; [done|].
      by eapply list_elem_of_lookup_2. }
    rewrite Hids. split_and!; [done|done| | |done].
    + eapply list_elem_of_lookup_2. apply list_lookup_insert_eq.
      by eapply lookup_lt_Some.
    + intros p [i Hp]%list_elem_of_lookup Hne.
      eapply list_elem_of_lookup_2. rewrite list_lookup_insert_ne; [done|].
      intros <-. congruence.
  - pose proof (proj1 (findIndex_None _ _) Hidx) as Hnew.
    assert (Player.id newPlayer ∉ Player.id <$> GameState.players host) as Hout.
    { intros (q & Hid & Hq)%list_elem_of_fmap. specialize (Hnew q Hq).
      simpl in Hnew. by rewrite Hid, String.eqb_refl in Hnew. }
    assert (known = false) as -> by by apply bool_decide_eq_false.
    rewrite fmap_app. simpl. split_and!; [done| | | |done].
    + apply NoDup_app. split_and!; [done| |apply NoDup_singleton].
      intros x Hx ->%list_elem_of_singleton. done.
    + apply elem_of_app. right. by apply list_elem_of_singleton.
    + intros p Hp _. apply elem_of_app. by left.
Qed.

(** Ben joins Ada on a host; Ada, registering again with a clue more,
    takes the place of the Ada registered before. *)
Lemma registration_keeps_ids_distinct_witness :
  let host := at_the_foyer Host [] 7 in
  (exists s,
     App.handleNetworkData
       (App.ACTION_REGISTER_PLAYER (Some (investigator "p2" "Ben" 0 [] 7 7 false)))
       0 0 host = App.Handled (Some s)
     /\ Player.id <$> GameState.players s = ["p1"; "p2"])
  /\ (exists s,
        App.handleNetworkData
          (App.ACTION_REGISTER_PLAYER (Some (investigator "p1" "Ada" 1 [] 7 7 false)))
          0 0 host = App.Handled (Some s)
        /\ Player.id <$> GameState.players s = ["p1"]).
Proof.
  intros host. split.
  - destruct (registration_keeps_ids_distinct
                (investigator "p2" "Ben" 0 [] 7 7 false) 0 0 host eq_refl
                ltac:(apply NoDup_singleton))
      as (s & Hs & Hids & _).
    exists s. split; [exact Hs|exact Hids].
  - destruct (registration_keeps_ids_distinct
                (investigator "p1" "Ada" 1 [] 7 7 false) 0 0 host eq_refl
                ltac:(apply NoDup_singleton))
      as (s & Hs & Hids & _).
    exists s. split; [exact Hs|exact Hids].
Defined.

(** ** Setting up the mansion *)

Lemma swap_Permutation {A} (i j : nat) (arr : list A) :
  (i < length arr)%nat -> (j < length arr)%nat ->
  App.swap i j arr ≡ₚ arr /\ length (App.swap i j arr) = length arr.
Proof.
  intros Hi Hj. unfold App.swap.
  destruct (lookup_lt_is_Some_2 arr i Hi) as [x Hx].
  destruct (lookup_lt_is_Some_2 arr j Hj) as [y Hy].
  rewrite Hx, Hy. split.
  - by apply Permutation_insert_swap.
  - by rewrite !length_insert.
Qed.

Lemma shuffleFrom_Permutation {A} (rnd : nat -> Q) (i : nat) (arr : list A) :
  (forall k, (0 <= rnd k)%Q /\ (rnd k < 1)%Q) ->
  (i < length arr)%nat ->
  App.shuffleFrom rnd i arr ≡ₚ arr.
Proof.
  intros Hrnd. revert arr. induction i as [|i IH]; intros arr Hi; simpl; [done|].
  destruct (Hrnd (S i)) as [Hlo Hhi].
  pose proof (random_index_lt (rnd (S i)) (S (i + 1)) Hlo Hhi ltac:(lia)) as Hj.
  destruct (swap_Permutation (S i) (random_index (rnd (S i)) (S (i + 1))) arr)
    as [Hperm Hlen]; [lia..|].
  rewrite IH by lia. done.
Qed.

(** The shuffling loop, on draws in [[0, 1)], only swaps slots of the
    array: what it returns is a permutation of what it is given. *)
Lemma shuffle_Permutation {A} (rnd : nat -> Q) (arr : list A) :
  (forall k, (0 <= rnd k)%Q /\ (rnd k < 1)%Q) ->
  App.shuffle rnd arr ≡ₚ arr.
Proof.
  intros Hrnd. unfold App.shuffle. destruct arr as [|a arr]; [done|].
  apply shuffleFrom_Permutation; [done|]. simpl. lia.
Qed.

Lemma STARTING_ITEMS_distinct : NoDup STARTING_ITEMS.
Proof. apply (bool_decide_unpack _). vm_compute. exact I. Qed.

(** The item deck a game starts with holds, in some order, each starting
    item that no player was handed, once: no item is both in the deck and in
    a hand, and no starting item is lost. *)
Theorem starting_deck_holds_the_items_nobody_holds
    (rnd : nat -> Q) (players : list Player.t) :
  (forall k, (0 <= rnd k)%Q /\ (rnd k < 1)%Q) ->
  NoDup (App.startingDeck rnd players)
  /\ forall item,
       item ∈ App.startingDeck rnd players
       <-> item ∈ STARTING_ITEMS
           /\ forall p, p ∈ players -> item ∉ Player.items p.
Proof.
  intros Hrnd. unfold App.startingDeck.
  set (distributed := mjoin (Player.items <$> players)).
  pose proof (shuffle_Permutation rnd
                (List.filter (fun i => negb (includes i distributed))
                             STARTING_ITEMS) Hrnd) as Hperm.
  split.
  - rewrite Hperm. apply NoDup_ListNoDup, List.NoDup_filter, NoDup_ListNoDup.
    apply STARTING_ITEMS_distinct.
  - intros item. rewrite Hperm, list_elem_of_In, List.filter_In,
      <- list_elem_of_In.
    unfold includes. rewrite negb_true_iff, bool_decide_eq_false.
    unfold distributed. rewrite list_elem_of_join.
    split; intros [Hstart Hfree]; (split; [done|]).
    + intros p Hp Hitem. apply Hfree. exists (Player.items p).
      split; [done|]. apply list_elem_of_fmap. by exists p.
    + intros (items & Hitem & (p & -> & Hp)%list_elem_of_fmap).
      by apply (Hfree p).
Qed.

(** With the revolver handed to Ada, the deck holds the other twenty
    items. *)
Lemma starting_deck_holds_the_items_nobody_holds_witness :
  let deck := App.startingDeck (fun _ => 0%Q)
                [investigator "p1" "Ada" 0 ["Old Revolver"] 7 7 false] in
  ("Old Revolver" ∉ deck) /\ "Lantern" ∈ deck /\ NoDup deck.
Proof.
  intros deck.
  destruct (starting_deck_holds_the_items_nobody_holds (fun _ => 0%Q)
              [investigator "p1" "Ada" 0 ["Old Revolver"] 7 7 false]
              ltac:(intros k; split; [apply Qle_refl|reflexivity])) as [Hdistinct Hdeck].
  split_and!; [| |exact Hdistinct].
  - intros [_ Hfree]%Hdeck.
    apply (Hfree (investigator "p1" "Ada" 0 ["Old Revolver"] 7 7 false));
      simpl; by left.
  - apply Hdeck. split.
    + apply (bool_decide_unpack _). vm_compute. exact I.
    + intros p ->%list_elem_of_singleton. simpl.
      by intros ?%list_elem_of_singleton.
Defined.

Lemma dirs_lookup (u : Q) :
  (0 <= u)%Q -> (u < 1)%Q ->
  exists d, App.dirs !! random_index u (length App.dirs) = Some d.
Proof.
  intros Hlo Hhi. apply lookup_lt_is_Some_2.
  apply random_index_lt; [done..|]. simpl. lia.
Qed.

(** The loop that draws the parlor's direction ends, if it ends, on a
    direction that is neither the hall's nor opposite to it. *)
Lemma pickParlorDir_Some (hallDir parlorDir : option Direction) (draws : list Q) :
  Forall (fun u => (0 <= u)%Q /\ (u < 1)%Q) draws ->
  App.pickParlorDir hallDir draws = Some parlorDir ->
  exists d, parlorDir = Some d /\ App.clashes hallDir (Some d) = false.
Proof.
  induction 1 as [|u draws [Hlo Hhi] _ IH]; simpl; [done|].
  destruct (dirs_lookup u Hlo Hhi) as [d Hd]. simpl in Hd. rewrite Hd.
  destruct (App.clashes hallDir (Some d)) eqn:Hclash; [done|].
  intros [= <-]. by exists d.
Qed.

(** A door [startingDoors] puts on the board is closed, sits on one of the
    tiles, and faces a cell that none of them occupies. *)
Lemma startingDoors_spec (doorDraw : nat -> nat -> Q) (tiles : list Tile.t)
    (k : Token.t) :
  k ∈ App.startingDoors doorDraw tiles ->
  Token.type k = Explore /\ Token.resolved k = false
  /\ (Token.x k, Token.y k) ∈ coordinates tiles
  /\ exists d, Token.direction k = Some d
               /\ (Token.x k + (App.step d).1, Token.y k + (App.step d).2)
                  ∉ coordinates tiles.
Proof.
  unfold App.startingDoors.
  intros (doors & Hk & (t & tile & -> & Htile)%elem_of_lookup_imap)%list_elem_of_join.
  apply list_elem_of_omap in Hk as ([i d] & _ & Hdoor).
  destruct (App.step d) as [vx vy] eqn:Hstep.
  destruct (App.occupied _ _ tiles) eqn:Hfree; [done|].
  destruct (Qltb _ _); [|done]. injection Hdoor as <-. simpl.
  split_and!; [done..| |].
  - unfold coordinates. apply list_elem_of_fmap. exists tile.
    split; [done|]. by eapply list_elem_of_lookup_2.
  - exists d. split; [done|]. rewrite Hstep. simpl.
    by apply occupied_coordinates.
Qed.

(** The loop that draws the parlor's direction ends as soon as a draw gives
    a direction that is neither the hall's nor opposite to it. *)
Lemma pickParlorDir_ends (hallDir : option Direction) (draws : list Q) :
  Exists (fun u => App.clashes hallDir
                     (App.dirs !! random_index u (length App.dirs)) = false)
         draws ->
  is_Some (App.pickParlorDir hallDir draws).
Proof.
  induction 1 as [u draws Hfree|u draws _ IH]; simpl.
  - simpl in Hfree. by rewrite Hfree.
  - by destruct (App.clashes hallDir _).
Qed.

(** The map a game starts on.  For draws in [[0, 1)], one of those for the
    parlor giving a direction that is neither the hallway's nor opposite to
    it, a game set up by its host or offline gets its map: five tiles on
    five cells; every token on the cell of a tile; the two open doors in the
    foyer, each leading to a tile; every closed door facing a cell without a
    tile.  The session is in play in round 1 with the players of the lobby,
    no evidence and the escape closed. *)
Theorem starting_map_is_well_formed
    (intro : Gemini.Intro) (draws : App.SetupDraws)
    (gameState currentState prev : App.State) :
  (0 <= App.dHall draws)%Q /\ (App.dHall draws < 1)%Q ->
  Forall (fun u => (0 <= u)%Q /\ (u < 1)%Q) (App.dParlor draws) ->
  Exists (fun u =>
            App.clashes
              (App.dirs !! random_index (App.dHall draws) (length App.dirs))
              (App.dirs !! random_index u (length App.dirs)) = false)
         (App.dParlor draws) ->
  GameState.networkMode gameState <> Client ->
  exists s,
    App.generateMapAndIntro intro draws gameState currentState prev = Some s
    /\ length (GameState.tiles s) = 5%nat
    /\ NoDup (coordinates (GameState.tiles s))
    /\ (forall k, k ∈ GameState.tokens s ->
          (Token.x k, Token.y k) ∈ coordinates (GameState.tiles s))
    /\ (forall k, k ∈ GameState.tokens s -> Token.type k = Explore ->
          exists d,
            Token.direction k = Some d
            /\ if Token.resolved k
               then (Token.x k, Token.y k) = (0, 0)
                    /\ App.step d ∈ coordinates (GameState.tiles s)
               else (Token.x k + (App.step d).1, Token.y k + (App.step d).2)
                    ∉ coordinates (GameState.tiles s))
    /\ GameState.phase s = Playing /\ GameState.round s = 1
    /\ GameState.evidenceCollected s = 0 /\ GameState.isEscapeOpen s = false
    /\ GameState.evidenceRequired s
       = 4 + Z.of_nat (length (GameState.players currentState)) / 2
    /\ GameState.players s = GameState.players currentState
    /\ GameState.monsters s = GameState.monsters prev.
Proof.
  intros [Hlo Hhi] Hparlor Hfree Hmode. unfold App.generateMapAndIntro.
  rewrite bool_decide_eq_false_2 by done.
  destruct (pickParlorDir_ends _ _ Hfree) as [parlorDir Hpick].
  destruct (dirs_lookup _ Hlo Hhi) as [hd Hhd].
  rewrite Hhd in Hpick |- *. rewrite Hpick.
  apply pickParlorDir_Some in Hpick as (pd & -> & Hclash); [|done].
  simpl. eexists. split; [reflexivity|]. simpl.
  set (tiles := App.startingTiles intro (Some hd) (Some pd)).
  assert (Htiles : length tiles = 5%nat
                   /\ NoDup (coordinates tiles)
                   /\ (forall k, k ∈ App.startingTokens (Some hd) (Some pd) ->
                         (Token.x k, Token.y k) ∈ coordinates tiles
                         /\ (Token.type k = Explore ->
                             Token.resolved k = true
                             /\ (Token.x k, Token.y k) = (0, 0)
                             /\ exists d, Token.direction k = Some d
                                          /\ App.step d ∈ coordinates tiles))).
  { subst tiles.
    destruct hd, pd; try discriminate Hclash;
      (split; [reflexivity|]);
      (split; [apply (bool_decide_unpack _); vm_compute; exact I|]);
      intros k Hk; simpl in Hk;
      repeat (apply elem_of_cons in Hk as [->|Hk];
              [split; [apply (bool_decide_unpack _); vm_compute; exact I|];
               simpl; try discriminate; intros _;
               (split; [done|]); (split; [done|]); eexists; (split; [done|]);
               apply (bool_decide_unpack _); vm_compute; exact I|]);
      by apply elem_of_nil in Hk. }
  destruct Htiles as (Hlen & Hdistinct & Hfixed).
  split_and!; [done|done| | |done..].
  - intros k [Hk|Hk]%elem_of_app; [by apply Hfixed|].
    by apply startingDoors_spec in Hk as (_ & _ & ? & _).
  - intros k [Hk|Hk]%elem_of_app Hty.
    + destruct (Hfixed k Hk) as [_ Hdoor].
      destruct (Hdoor Hty) as (-> & Hcell & d & Hd & Hleads). by exists d.
    + apply startingDoors_spec in Hk as (_ & -> & _ & d & Hd & Hfree').
      by exists d.
Qed.

(** A solo game set up by its host: the hallway goes north, the parlor
    first draws north as well and then east. *)
Lemma starting_map_is_well_formed_witness :
  let intro := Gemini.mkIntro "The House" "A storm drives you in." "A foyer." in
  let draws := App.mkSetupDraws (fun _ => 0%Q) 0 [0%Q; (1 # 2)%Q]
                 (fun _ _ => 0%Q) in
  let lobby := at_the_foyer Host [] 7 in
  exists s,
    App.generateMapAndIntro intro draws lobby lobby lobby = Some s
    /\ length (GameState.tiles s) = 5%nat
    /\ NoDup (coordinates (GameState.tiles s))
    /\ GameState.evidenceRequired s = 4.
Proof.
  intros intro draws lobby.
  destruct (starting_map_is_well_formed intro draws lobby lobby lobby)
    as (s & Hrun & Hlen & Hdistinct & _ & _ & _ & _ & _ & _ & Hrequired & _).
  - split; [apply Qle_refl|reflexivity].
  - repeat constructor; discriminate.
  - apply Exists_cons_tl, Exists_cons_hd. reflexivity.
  - discriminate.
  - exists s. split_and!; [exact Hrun|exact Hlen|exact Hdistinct|exact Hrequired].
Defined.

(** ** The code lock *)

Lemma exactPass_from (prefixCode prefixGuess code guess : list string) (e : nat) :
  length prefixCode = length prefixGuess ->
  length code = length guess ->
  foldl (fun '(exact, codeTemp, guessTemp) i =>
           if bool_decide (guessTemp !! i = codeTemp !! i)
           then (S exact, <[i := "MATCHED"]> codeTemp,
                 <[i := "CHECKED"]> guessTemp)
           else (exact, codeTemp, guessTemp))
        (e, prefixCode ++ code, prefixGuess ++ guess)
        (seq (length prefixCode) (length code))
  = ((e + agreeing guess code)%nat, prefixCode ++ markedCode guess code,
     prefixGuess ++ markedGuess guess code).
Proof.
  revert prefixCode prefixGuess guess e.
  induction code as [|c code IH]; intros prefixCode prefixGuess guess e Hp Hl.
  { destruct guess; [|done]. simpl. by rewrite Nat.add_0_r. }
  destruct guess as [|g guess]; [done|]. injection Hl as Hl.
  cbn [length seq foldl].
  rewrite (list_lookup_middle prefixCode code c (length prefixCode) eq_refl).
  rewrite (list_lookup_middle prefixGuess guess g (length prefixCode) Hp).
  unfold agreeing, markedCode, markedGuess. cbn [zip zip_with List.filter fst snd].
  destruct (String.eqb_spec g c) as [->|Hne].
  - rewrite bool_decide_eq_true_2 by done.
    rewrite (insert_app_r_alt prefixCode) by lia.
    rewrite (insert_app_r_alt prefixGuess) by lia.
    rewrite <- Hp, Nat.sub_diag. cbn [insert list_insert].
    rewrite (cons_middle "MATCHED"), (cons_middle "CHECKED"), !app_assoc.
    replace (S (length prefixCode)) with (length (prefixCode ++ ["MATCHED"]))
      by (rewrite length_app; simpl; lia).
    rewrite IH by (rewrite ?length_app; simpl; lia).
    rewrite <- !app_assoc. cbn [length]. f_equal. f_equal.
    unfold agreeing. lia.
  - rewrite bool_decide_eq_false_2 by congruence.
    rewrite (cons_middle c prefixCode), (cons_middle g prefixGuess), !app_assoc.
    replace (S (length prefixCode)) with (length (prefixCode ++ [c]))
      by (rewrite length_app; simpl; lia).
    rewrite IH by (rewrite ?length_app; simpl; lia).
    by rewrite <- !app_assoc.
Qed.

(** The first loop counts the positions at which guess and code agree and
    marks them in both. *)
Lemma exactPass_spec (code guess : list string) :
  length code = CodePuzzle.CODE_LENGTH ->
  length guess = CodePuzzle.CODE_LENGTH ->
  CodePuzzle.exactPass code guess
  = (agreeing guess code, markedCode guess code, markedGuess guess code).
Proof.
  intros Hc Hg. unfold CodePuzzle.exactPass. rewrite <- Hc.
  apply (exactPass_from [] [] code guess 0). { done. } congruence.
Qed.

Lemma partialPass_from (prefix guessTemp codeTemp : list string) (p : nat) :
  (foldl (fun '(partial, codeTemp) i =>
            if bool_decide ((prefix ++ guessTemp) !! i = Some "CHECKED")
            then (partial, codeTemp)
            else
              match findIndex
                      (fun c => bool_decide (Some c = (prefix ++ guessTemp) !! i))
                      codeTemp with
              | Some foundIndex =>
                  (S partial, <[foundIndex := "MATCHED"]> codeTemp)
              | None => (partial, codeTemp)
              end)
         (p, codeTemp) (seq (length prefix) (length guessTemp))).1
  = (p + greedy guessTemp codeTemp)%nat.
Proof.
  revert prefix codeTemp p.
  induction guessTemp as [|g guessTemp IH]; intros prefix codeTemp p.
  { simpl. lia. }
  cbn [length seq foldl greedy].
  rewrite (list_lookup_middle prefix guessTemp g (length prefix) eq_refl).
  assert (Hnext : forall q codeTemp',
    (foldl (fun '(partial, codeTemp) i =>
              if bool_decide ((prefix ++ g :: guessTemp) !! i = Some "CHECKED")
              then (partial, codeTemp)
              else
                match findIndex
                        (fun c => bool_decide
                                    (Some c = (prefix ++ g :: guessTemp) !! i))
                        codeTemp with
                | Some foundIndex =>
                    (S partial, <[foundIndex := "MATCHED"]> codeTemp)
                | None => (partial, codeTemp)
                end)
           (q, codeTemp') (seq (S (length prefix)) (length guessTemp))).1
    = (q + greedy guessTemp codeTemp')%nat).
  { intros q codeTemp'.
    rewrite (cons_middle g prefix), app_assoc.
    replace (S (length prefix)) with (length (prefix ++ [g]))
      by (rewrite length_app; simpl; lia).
    apply IH. }
  destruct (String.eqb_spec g "CHECKED") as [->|Hne].
  - rewrite bool_decide_eq_true_2 by done. apply Hnext.
  - rewrite bool_decide_eq_false_2 by congruence.
    destruct (findIndex _ codeTemp) as [foundIndex|].
    + rewrite Hnext. lia.
    + apply Hnext.
Qed.

Lemma partialPass_spec (codeTemp guessTemp : list string) :
  length guessTemp = CodePuzzle.CODE_LENGTH ->
  CodePuzzle.partialPass codeTemp guessTemp = greedy guessTemp codeTemp.
Proof.
  intros Hg. unfold CodePuzzle.partialPass. rewrite <- Hg.
  apply (partialPass_from [] guessTemp codeTemp 0).
Qed.

Lemma sum_list_fmap_ext {A} (f f' : A -> nat) (l : list A) :
  (forall a, a ∈ l -> f a = f' a) ->
  sum_list (f <$> l) = sum_list (f' <$> l).
Proof.
  induction l as [|a l IH]; intros Hext; csimpl; [done|].
  rewrite (Hext a) by by left. rewrite IH; [done|].
  intros b Hb. apply Hext. by right.
Qed.

Lemma sum_list_fmap_bump {A} (f f' : A -> nat) (l : list A) (a : A) :
  NoDup l -> a ∈ l ->
  (forall b, b ∈ l -> b <> a -> f b = f' b) ->
  f a = S (f' a) ->
  sum_list (f <$> l) = S (sum_list (f' <$> l)).
Proof.
  intros Hdup Hin Hext Ha.
  induction Hdup as [|b l Hb Hdup IH]; [by apply elem_of_nil in Hin|].
  csimpl. apply elem_of_cons in Hin as [<-|Hin].
  - rewrite Ha. rewrite (sum_list_fmap_ext f f' l); [done|].
    intros c Hc. apply Hext; [by right|]. by intros ->.
  - rewrite IH; [|done|intros c Hc; apply Hext; by right].
    rewrite (Hext b); [lia|by left|]. by intros ->.
Qed.

Lemma count_occ_insert_other (l : list string) (j : nat) (old new c : string) :
  l !! j = Some old -> c <> old -> c <> new ->
  count_occ string_dec (<[j := new]> l) c = count_occ string_dec l c.
Proof.
  revert j. induction l as [|a l IH]; intros [|j] Hj Ho Hn; try done.
  - injection Hj as ->. cbn [insert list_insert].
    rewrite !count_occ_cons_neq by congruence. done.
  - cbn [insert list_insert]. destruct (decide (a = c)) as [->|].
    + rewrite !count_occ_cons_eq by done. f_equal. by apply (IH j).
    + rewrite !count_occ_cons_neq by done. by apply (IH j).
Qed.

Lemma count_occ_insert_same (l : list string) (j : nat) (old new : string) :
  l !! j = Some old -> new <> old ->
  count_occ string_dec l old = S (count_occ string_dec (<[j := new]> l) old).
Proof.
  revert j. induction l as [|a l IH]; intros [|j] Hj Hn; try done.
  - injection Hj as ->. cbn [insert list_insert].
    rewrite count_occ_cons_eq by done.
    by rewrite count_occ_cons_neq by done.
  - cbn [insert list_insert]. destruct (decide (a = old)) as [->|].
    + rewrite !count_occ_cons_eq by done. f_equal. by apply (IH j).
    + rewrite !count_occ_cons_neq by done. by apply (IH j).
Qed.

Lemma common_ext (colors guess guess' code code' : list string) :
  (forall c, c ∈ colors ->
     count_occ string_dec guess c = count_occ string_dec guess' c) ->
  (forall c, c ∈ colors ->
     count_occ string_dec code c = count_occ string_dec code' c) ->
  common colors guess code = common colors guess' code'.
Proof.
  intros Hg Hc. unfold common. apply sum_list_fmap_ext.
  intros c Hin. by rewrite Hg, Hc.
Qed.

Lemma count_occ_cons_if (l : list string) (a c : string) :
  count_occ string_dec (a :: l) c
  = ((if bool_decide (a = c) then 1 else 0) + count_occ string_dec l c)%nat.
Proof.
  case_bool_decide.
  - by rewrite count_occ_cons_eq.
  - by rewrite count_occ_cons_neq.
Qed.

Lemma count_occ_middle (l1 l2 : list string) (a c : string) :
  count_occ string_dec (l1 ++ a :: l2) c
  = ((if bool_decide (a = c) then 1 else 0)
     + count_occ string_dec (l1 ++ l2) c)%nat.
Proof. rewrite !count_occ_app, count_occ_cons_if. lia. Qed.

Lemma common_nil (colors code : list string) : common colors [] code = 0%nat.
Proof.
  unfold common. induction colors as [|c colors IH]; simpl in *; [done|].
  exact IH.
Qed.

Section Colors.
Variable colors : list string.
Hypothesis colors_distinct : NoDup colors.
Hypothesis checked_is_no_color : "CHECKED" ∉ colors.
Hypothesis matched_is_no_color : "MATCHED" ∉ colors.

(** The second loop counts the pegs that the guess and the code, as the
    first loop left them, have in common. *)
Lemma greedy_common (guessTemp codeTemp : list string) :
  Forall (fun g => g = "CHECKED" \/ g ∈ colors) guessTemp ->
  greedy guessTemp codeTemp = common colors guessTemp codeTemp.
Proof.
  intros Hg. revert codeTemp.
  induction Hg as [|g guessTemp Hcolor _ IH]; intros codeTemp.
  { by rewrite common_nil. }
  cbn [greedy]. destruct (String.eqb_spec g "CHECKED") as [->|Hne].
  - rewrite IH. apply common_ext; [|done].
    intros c Hc. rewrite count_occ_cons_if.
    case_bool_decide as Heq; [|done]. subst c. by destruct checked_is_no_color.
  - destruct Hcolor as [|Hcolor]; [done|].
    destruct (findIndex _ codeTemp) as [foundIndex|] eqn:Hfound.
    + apply findIndex_first in Hfound as (a & Ha & Heq & _).
      apply bool_decide_eq_true in Heq. injection Heq as ->.
      rewrite IH. symmetry. unfold common.
      apply (sum_list_fmap_bump _ _ colors g colors_distinct Hcolor).
      * intros c Hc Hcg. rewrite count_occ_cons_if.
        rewrite bool_decide_eq_false_2 by congruence.
        rewrite (count_occ_insert_other codeTemp foundIndex g "MATCHED" c);
          [done|done|done|]. intros ->. by destruct matched_is_no_color.
      * rewrite count_occ_cons_if, bool_decide_eq_true_2 by done.
        rewrite (count_occ_insert_same codeTemp foundIndex g "MATCHED" Ha).
        -- lia.
        -- intros <-. by destruct matched_is_no_color.
    + pose proof (proj1 (findIndex_None _ _) Hfound) as Hnone.
      assert (count_occ string_dec codeTemp g = 0%nat) as Hzero.
      { apply count_occ_not_In. intros Hin%list_elem_of_In.
        specialize (Hnone g Hin). simpl in Hnone.
        by rewrite bool_decide_eq_true_2 in Hnone. }
      rewrite IH. unfold common. apply sum_list_fmap_ext. intros c Hc.
      rewrite count_occ_cons_if. case_bool_decide as Heq; [|done].
      subst c. rewrite Hzero. lia.
Qed.

(** Marking an exact match takes one common peg away. *)
Lemma common_marks (before after guess code : list string) :
  length guess = length code ->
  Forall (fun g => g ∈ colors) guess ->
  common colors (before ++ guess) (after ++ code)
  = (agreeing guess code
     + common colors (before ++ markedGuess guess code)
                     (after ++ markedCode guess code))%nat.
Proof.
  intros Hlen Hg. revert before after code Hlen.
  induction Hg as [|g guess Hcolor _ IH]; intros before after code Hlen.
  { by destruct code. }
  destruct code as [|c code]; [done|]. injection Hlen as Hlen.
  unfold agreeing, markedGuess, markedCode.
  cbn [zip zip_with List.filter fst snd].
  destruct (String.eqb_spec g c) as [<-|Hne].
  - cbn [length]. fold (agreeing guess code) (markedGuess guess code)
                       (markedCode guess code).
    transitivity (S (common colors (before ++ guess) (after ++ code))).
    + unfold common.
      apply (sum_list_fmap_bump _ _ colors g colors_distinct Hcolor).
      * intros b Hb Hbg. rewrite !count_occ_middle.
        by rewrite bool_decide_eq_false_2 by congruence.
      * rewrite !count_occ_middle, bool_decide_eq_true_2 by done. lia.
    + rewrite IH by done. simpl. f_equal. f_equal.
      apply common_ext; intros b Hb; rewrite count_occ_middle.
      * case_bool_decide as Heq; [|done]. subst b.
        by destruct checked_is_no_color.
      * case_bool_decide as Heq; [|done]. subst b.
        by destruct matched_is_no_color.
  - fold (agreeing guess code) (markedGuess guess code) (markedCode guess code).
    rewrite (cons_middle g before), (cons_middle c after),
      (cons_middle g before (markedGuess guess code)),
      (cons_middle c after (markedCode guess code)), !app_assoc.
    by apply IH.
Qed.

End Colors.

Lemma agreeing_le (guess code : list string) :
  (agreeing guess code <= length guess)%nat.
Proof.
  unfold agreeing. revert code.
  induction guess as [|g guess IH]; intros [|c code]; simpl; try lia.
  specialize (IH code). destruct (String.eqb g c); simpl; lia.
Qed.

Lemma agreeing_all (guess code : list string) :
  length guess = length code ->
  agreeing guess code = length guess <-> guess = code.
Proof.
  revert code. induction guess as [|g guess IH]; intros [|c code] Hlen;
    try done.
  injection Hlen as Hlen. specialize (IH code Hlen).
  pose proof (agreeing_le guess code) as Hle.
  unfold agreeing in *. simpl.
  destruct (String.eqb_spec g c) as [->|Hne]; simpl.
  - split.
    + intros [= Hall]. f_equal. by apply IH.
    + intros [= ->]. f_equal. by apply IH.
  - split; [lia|congruence].
Qed.

Lemma omap_id_Some {A} (l : list A) : omap id (Some <$> l) = l.
Proof. induction l as [|a l IH]; simpl; [done|]. f_equal. exact IH. Qed.

Lemma no_None_is_Some {A} (l : list (option A)) :
  None ∉ l -> l = Some <$> omap id l.
Proof.
  induction l as [|[a|] l IH]; intros Hnone; simpl.
  - done.
  - f_equal. apply IH. intros Hin. apply Hnone. by right.
  - destruct Hnone. by left.
Qed.

Lemma markedGuess_colors (colors guess code : list string) :
  Forall (fun g => g ∈ colors) guess ->
  Forall (fun g => g = "CHECKED" \/ g ∈ colors) (markedGuess guess code).
Proof.
  unfold markedGuess. intros Hcolors. revert code.
  induction Hcolors as [|g guess Hg _ IH]; intros [|c code]; simpl;
    try by constructor.
  constructor; [|by apply IH]. destruct (String.eqb g c); auto.
Qed.

Lemma COLORS_distinct :
  NoDup CodePuzzle.COLORS
  /\ ("CHECKED" ∉ CodePuzzle.COLORS) /\ ("MATCHED" ∉ CodePuzzle.COLORS).
Proof.
  split_and!.
  - apply (bool_decide_unpack _). vm_compute. exact I.
  - apply (bool_decide_unpack _). vm_compute. exact I.
  - apply (bool_decide_unpack _). vm_compute. exact I.
Qed.

(** A complete guess of four colors, submitted while the lock is still
    being played, is scored as in Mastermind and recorded: [exact] is the
    number of positions at which guess and code agree, [exact + partial] the
    number of pegs they have in common, color by color.  The lock is won
    exactly when the guess is the code, lost when a wrong guess is the
    eighth, and the entry is cleared. *)
Theorem submitGuess_scores_like_mastermind
    (st : CodePuzzle.State) (guess : list string) :
  CodePuzzle.status st = CodePuzzle.playing ->
  length (CodePuzzle.secretCode st) = CodePuzzle.CODE_LENGTH ->
  CodePuzzle.currentGuess st = Some <$> guess ->
  length guess = CodePuzzle.CODE_LENGTH ->
  Forall (fun g => g ∈ CodePuzzle.COLORS) guess ->
  exists fb,
    CodePuzzle.history (CodePuzzle.submitGuess st)
    = CodePuzzle.history st ++ [CodePuzzle.mkAttempt guess fb]
    /\ CodePuzzle.exact fb = agreeing guess (CodePuzzle.secretCode st)
    /\ (CodePuzzle.exact fb + CodePuzzle.partial fb)%nat
       = common CodePuzzle.COLORS guess (CodePuzzle.secretCode st)
    /\ CodePuzzle.status (CodePuzzle.submitGuess st)
       = (if bool_decide (guess = CodePuzzle.secretCode st) then CodePuzzle.won
          else if bool_decide (CodePuzzle.MAX_ATTEMPTS
                               <= S (length (CodePuzzle.history st)))%nat
               then CodePuzzle.lost
               else CodePuzzle.playing)
    /\ CodePuzzle.currentGuess (CodePuzzle.submitGuess st)
       = replicate CodePuzzle.CODE_LENGTH None
    /\ CodePuzzle.secretCode (CodePuzzle.submitGuess st)
       = CodePuzzle.secretCode st.
Proof.
  intros Hstatus Hcode Hcurrent Hlen Hcolors.
  destruct COLORS_distinct as (Hdistinct & Hchecked & Hmatched).
  unfold CodePuzzle.submitGuess. rewrite Hcurrent, Hstatus.
  rewrite bool_decide_eq_false_2.
  2: { by intros (g & ? & _)%list_elem_of_fmap. }
  simpl. rewrite omap_id_Some, exactPass_spec by done.
  assert (length (markedGuess guess (CodePuzzle.secretCode st))
          = CodePuzzle.CODE_LENGTH) as Hmarked.
  { unfold markedGuess. rewrite length_zip_with. lia. }
  rewrite (partialPass_spec _ _ Hmarked).
  eexists. split; [reflexivity|]. simpl. split; [done|].
  split_and!; [|rewrite length_app; simpl|done|done].
  - rewrite (greedy_common CodePuzzle.COLORS Hdistinct Hchecked Hmatched).
    + symmetry.
      apply (common_marks CodePuzzle.COLORS Hdistinct Hchecked Hmatched [] []);
        [congruence|done].
    + by apply markedGuess_colors.
  - pose proof (agreeing_all guess (CodePuzzle.secretCode st)
                  ltac:(congruence)) as Hall.
    rewrite Hlen in Hall.
    destruct (decide (guess = CodePuzzle.secretCode st)) as [Heq|Hne].
    + rewrite !bool_decide_eq_true_2; [done..|]. by apply Hall.
    + rewrite (bool_decide_eq_false_2 (_ = CodePuzzle.CODE_LENGTH));
        [|by rewrite Hall].
      rewrite (bool_decide_eq_false_2 (guess = _)) by done.
      replace (length (CodePuzzle.history st) + 1)%nat
        with (S (length (CodePuzzle.history st))) by lia.
      by case_bool_decide.
Qed.

(** The code is red, blue, green, yellow; the guess red, green, blue,
    white scores one exact and two partial. *)
Lemma submitGuess_scores_like_mastermind_witness :
  let st := CodePuzzle.mkState ["r"; "b"; "g"; "y"] []
              (Some <$> ["r"; "g"; "b"; "w"]) CodePuzzle.playing in
  exists fb,
    CodePuzzle.history (CodePuzzle.submitGuess st)
    = [CodePuzzle.mkAttempt ["r"; "g"; "b"; "w"] fb]
    /\ CodePuzzle.exact fb = 1%nat
    /\ (CodePuzzle.exact fb + CodePuzzle.partial fb)%nat = 3%nat.
Proof.
  intros st.
  destruct (submitGuess_scores_like_mastermind st ["r"; "g"; "b"; "w"]
              eq_refl eq_refl eq_refl eq_refl)
    as (fb & Hhistory & Hexact & Hcommon & _).
  { repeat constructor; apply (bool_decide_unpack _); vm_compute; exact I. }
  exists fb. split_and!; [exact Hhistory|exact Hexact|exact Hcommon].
Defined.

Lemma findIndex_entering (entered : list string) (free : nat) :
  findIndex (fun c => bool_decide (c = None)) (entering entered free)
  = match free with O => None | S _ => Some (length entered) end.
Proof.
  unfold entering. induction entered as [|e entered IH].
  - by destruct free.
  - rewrite fmap_cons. cbn [app findIndex].
    rewrite bool_decide_eq_false_2 by done. rewrite IH. by destruct free.
Qed.

Lemma insert_entering (entered : list string) (free : nat) (c : string) :
  <[length entered := Some c]> (entering entered (S free))
  = entering (entered ++ [c]) free.
Proof.
  unfold entering. rewrite insert_app_r_alt by (rewrite length_fmap; lia).
  rewrite length_fmap, Nat.sub_diag, fmap_app. simpl.
  by rewrite <- app_assoc.
Qed.

Lemma delete_entering (entered : list string) (free : nat) (c : string) :
  <[length entered := None]> (entering (entered ++ [c]) free)
  = entering entered (S free).
Proof.
  unfold entering. rewrite fmap_app, <- app_assoc.
  rewrite insert_app_r_alt by (rewrite length_fmap; lia).
  by rewrite length_fmap, Nat.sub_diag.
Qed.

Lemma lastFilled_entering (entered : list string) (free n : nat) :
  (length entered <= n <= length entered + free)%nat ->
  CodePuzzle.lastFilled (entering entered free) n
  = if bool_decide (entered = []) then None
    else Some (length entered - 1)%nat.
Proof.
  induction n as [|i IH]; intros Hn; simpl.
  - destruct entered; [done|simpl in Hn; lia].
  - unfold entering in *.
    destruct (decide (length entered <= i)%nat) as [Hge|Hlt].
    + rewrite lookup_app_r by (rewrite length_fmap; lia).
      rewrite lookup_replicate_2 by (rewrite length_fmap; lia).
      apply IH. lia.
    + rewrite lookup_app_l by (rewrite length_fmap; lia).
      rewrite list_lookup_fmap.
      destruct (lookup_lt_is_Some_2 entered i ltac:(lia)) as [x ->]. simpl.
      destruct entered; simpl in *; [lia|]. f_equal. lia.
Qed.

Lemma None_in_entering (entered : list string) (free : nat) :
  None ∈ entering entered free <-> (0 < free)%nat.
Proof.
  unfold entering. rewrite elem_of_app, list_elem_of_fmap, elem_of_replicate.
  split.
  - intros [(? & ? & _)|[_ ?]]; [done|lia].
  - intros ?. right. split; [done|lia].
Qed.

(** A complete guess submitted while the lock is played, whatever its
    colors: the attempt is recorded with its exact matches counted, the
    entry is cleared, and the status follows. *)
Lemma submitGuess_complete (st : CodePuzzle.State) (guess : list string) :
  CodePuzzle.status st = CodePuzzle.playing ->
  length (CodePuzzle.secretCode st) = CodePuzzle.CODE_LENGTH ->
  CodePuzzle.currentGuess st = Some <$> guess ->
  length guess = CodePuzzle.CODE_LENGTH ->
  CodePuzzle.submitGuess st
  = CodePuzzle.mkState (CodePuzzle.secretCode st)
      (CodePuzzle.history st
       ++ [CodePuzzle.mkAttempt guess
             (CodePuzzle.mkFeedback
                (agreeing guess (CodePuzzle.secretCode st))
                (greedy (markedGuess guess (CodePuzzle.secretCode st))
                        (markedCode guess (CodePuzzle.secretCode st))))])
      (replicate CodePuzzle.CODE_LENGTH None)
      (if bool_decide (guess = CodePuzzle.secretCode st) then CodePuzzle.won
       else if bool_decide (CodePuzzle.MAX_ATTEMPTS
                            <= S (length (CodePuzzle.history st)))%nat
            then CodePuzzle.lost
            else CodePuzzle.playing).
Proof.
  intros Hstatus Hcode Hcurrent Hlen.
  unfold CodePuzzle.submitGuess. rewrite Hcurrent, Hstatus.
  rewrite bool_decide_eq_false_2.
  2: { by intros (g & ? & _)%list_elem_of_fmap. }
  simpl. rewrite omap_id_Some, exactPass_spec by done.
  assert (length (markedGuess guess (CodePuzzle.secretCode st))
          = CodePuzzle.CODE_LENGTH) as Hmarked.
  { unfold markedGuess. rewrite length_zip_with. lia. }
  rewrite (partialPass_spec _ _ Hmarked). f_equal.
  rewrite length_app. simpl.
  pose proof (agreeing_all guess (CodePuzzle.secretCode st)
                ltac:(congruence)) as Hall.
  rewrite Hlen in Hall.
  destruct (decide (guess = CodePuzzle.secretCode st)) as [Heq|Hne].
  - rewrite !bool_decide_eq_true_2; [done..|]. by apply Hall.
  - rewrite (bool_decide_eq_false_2 (_ = CodePuzzle.CODE_LENGTH));
      [|by rewrite Hall].
    rewrite (bool_decide_eq_false_2 (guess = _)) by done.
    replace (length (CodePuzzle.history st) + 1)%nat
      with (S (length (CodePuzzle.history st))) by lia.
    by case_bool_decide.
Qed.

Lemma handle_secretCode (e : CodePuzzle.Event) (st : CodePuzzle.State) :
  CodePuzzle.secretCode (CodePuzzle.handle e st) = CodePuzzle.secretCode st.
Proof.
  destruct e as [colorId| |]; simpl.
  - unfold CodePuzzle.handleColorSelect. destruct (negb _); [done|].
    by destruct (findIndex _ (CodePuzzle.currentGuess st)).
  - unfold CodePuzzle.handleBackspace. destruct (negb _); [done|].
    by destruct (CodePuzzle.lastFilled (CodePuzzle.currentGuess st) _).
  - unfold CodePuzzle.submitGuess. case_bool_decide; [done|].
    destruct (negb _); [done|].
    by destruct (CodePuzzle.exactPass _ _) as [[? ?] ?].
Qed.

Lemma locked_handle (e : CodePuzzle.Event) (st : CodePuzzle.State) :
  locked st ->
  locked (CodePuzzle.handle e st)
  /\ CodePuzzle.secretCode (CodePuzzle.handle e st) = CodePuzzle.secretCode st
  /\ (CodePuzzle.status st <> CodePuzzle.playing -> CodePuzzle.handle e st = st).
Proof.
  intros Hlocked.
  pose proof Hlocked as [Hcode (entered & free & Hentry & Hlen) Hstatus].
  destruct (decide (CodePuzzle.status st = CodePuzzle.playing)) as [Hplay|Hover].
  2: { assert (CodePuzzle.handle e st = st) as ->; [|by split_and!].
       destruct e; simpl;
         unfold CodePuzzle.handleColorSelect, CodePuzzle.handleBackspace,
           CodePuzzle.submitGuess;
         rewrite (bool_decide_eq_false_2 _ Hover); simpl; [done..|].
       by case_bool_decide. }
  split_and!; [|apply handle_secretCode|done].
  rewrite Hplay in Hstatus. destruct Hstatus as [Hattempts Hwrong].
  destruct e as [colorId| |]; simpl.
  - unfold CodePuzzle.handleColorSelect.
    rewrite (bool_decide_eq_true_2 _ Hplay), Hentry, findIndex_entering. simpl.
    destruct free as [|free].
    + split; [done|by exists entered, 0%nat|by rewrite Hplay].
    + split; simpl; [done| |by rewrite Hplay].
      exists (entered ++ [colorId]), free.
      rewrite insert_entering, length_app. simpl. split; [done|lia].
  - unfold CodePuzzle.handleBackspace.
    rewrite (bool_decide_eq_true_2 _ Hplay), Hentry.
    rewrite lastFilled_entering by (unfold CodePuzzle.CODE_LENGTH in *; lia).
    destruct entered as [|x entered _] using rev_ind.
    + simpl. split; [done|by exists [], free|by rewrite Hplay].
    + rewrite bool_decide_eq_false_2 by (by destruct entered).
      rewrite length_app. simpl.
      replace (length entered + 1 - 1)%nat with (length entered) by lia.
      split; simpl; [done| |by rewrite Hplay].
      exists entered, (S free). rewrite delete_entering.
      rewrite length_app in Hlen. simpl in Hlen. split; [done|lia].
  - destruct free as [|free].
    + unfold entering in Hentry. simpl in Hentry. rewrite app_nil_r in Hentry.
      rewrite (submitGuess_complete st entered Hplay Hcode Hentry)
        by (unfold CodePuzzle.CODE_LENGTH in *; lia).
      split; simpl; [done|by exists [], CodePuzzle.CODE_LENGTH|].
      rewrite length_app. simpl.
      destruct (decide (entered = CodePuzzle.secretCode st)) as [Heq|Hne].
      * rewrite bool_decide_eq_true_2 by done.
        split; [unfold CodePuzzle.MAX_ATTEMPTS in *; lia|].
        eexists. by rewrite last_snoc.
      * rewrite bool_decide_eq_false_2 by done.
        assert (Forall (fun a => CodePuzzle.guess a <> CodePuzzle.secretCode st)
                  (CodePuzzle.history st
                   ++ [CodePuzzle.mkAttempt entered
                         (CodePuzzle.mkFeedback
                            (agreeing entered (CodePuzzle.secretCode st))
                            (greedy (markedGuess entered (CodePuzzle.secretCode st))
                                    (markedCode entered (CodePuzzle.secretCode st))))]))
          as Hall.
        { apply Forall_app. split; [done|]. by constructor. }
        case_bool_decide; (split; [unfold CodePuzzle.MAX_ATTEMPTS in *; lia|done]).
    + unfold CodePuzzle.submitGuess. rewrite Hentry.
      rewrite bool_decide_eq_true_2 by (apply None_in_entering; lia).
      split; [done|by exists entered, (S free)|by rewrite Hplay].
Qed.

Lemma locked_mount (rnd : nat -> Q) (st0 : CodePuzzle.State) :
  CodePuzzle.mount rnd CodePuzzle.initial = Some st0 ->
  locked st0 /\ Forall (fun c => c ∈ CodePuzzle.COLORS) (CodePuzzle.secretCode st0).
Proof.
  unfold CodePuzzle.mount. intros Hmount.
  destruct (mapM _ _) as [code|] eqn:Hcode; [|done].
  injection Hmount as <-. split.
  - split; simpl.
    + apply length_mapM in Hcode. by rewrite <- Hcode.
    + by exists [], CodePuzzle.CODE_LENGTH.
    + split; [unfold CodePuzzle.MAX_ATTEMPTS; lia|constructor].
  - simpl. apply mapM_Some in Hcode. apply Forall_forall. intros c Hc.
    apply list_elem_of_lookup in Hc as [i Hi].
    destruct (Forall2_lookup_r _ _ _ _ _ Hcode Hi) as (k & _ & Hk).
    by eapply list_elem_of_lookup_2.
Qed.

Lemma locked_run (events : list CodePuzzle.Event) (st : CodePuzzle.State) :
  locked st ->
  locked (CodePuzzle.run events st)
  /\ CodePuzzle.secretCode (CodePuzzle.run events st) = CodePuzzle.secretCode st
  /\ (CodePuzzle.status st <> CodePuzzle.playing ->
      CodePuzzle.run events st = st).
Proof.
  revert st. induction events as [|e events IH]; intros st Hlocked; [done|].
  destruct (locked_handle e st Hlocked) as (Hstep & Hcode & Hover).
  destruct (IH _ Hstep) as (Hrest & Hcode' & Hover').
  unfold CodePuzzle.run in *. simpl. split_and!; [done|congruence|].
  intros Hstatus. rewrite (Hover Hstatus) in *. by apply Hover'.
Qed.

(** From the moment its code is set, whatever the player does: the code
    stays; at most eight guesses are recorded; the lock is won exactly when
    the last guess recorded is the code, lost exactly when eight guesses are
    recorded and none is the code; and once won or lost nothing the player
    does changes anything. *)
Theorem the_lock_is_settled_within_eight_guesses
    (rnd : nat -> Q) (st0 : CodePuzzle.State) (events : list CodePuzzle.Event) :
  CodePuzzle.mount rnd CodePuzzle.initial = Some st0 ->
  let st := CodePuzzle.run events st0 in
  CodePuzzle.secretCode st = CodePuzzle.secretCode st0
  /\ (length (CodePuzzle.history st) <= CodePuzzle.MAX_ATTEMPTS)%nat
  /\ (CodePuzzle.status st = CodePuzzle.won
      <-> exists a, last (CodePuzzle.history st) = Some a
                    /\ CodePuzzle.guess a = CodePuzzle.secretCode st0)
  /\ (CodePuzzle.status st = CodePuzzle.lost
      <-> length (CodePuzzle.history st) = CodePuzzle.MAX_ATTEMPTS
          /\ Forall (fun a => CodePuzzle.guess a <> CodePuzzle.secretCode st0)
                    (CodePuzzle.history st))
  /\ (CodePuzzle.status st <> CodePuzzle.playing ->
      forall more, CodePuzzle.run more st = st).
Proof.
  intros [Hlocked _]%locked_mount st.
  destruct (locked_run events st0 Hlocked) as (Hst & Hcode & _).
  fold st in Hst, Hcode.
  assert (Hlast : forall a,
            last (CodePuzzle.history st) = Some a ->
            Forall (fun a => CodePuzzle.guess a <> CodePuzzle.secretCode st)
                   (CodePuzzle.history st) ->
            CodePuzzle.guess a <> CodePuzzle.secretCode st).
  { intros a Ha Hall. rewrite Forall_forall in Hall. apply Hall.
    apply last_Some in Ha as [h ->]. apply elem_of_app. right. by left. }
  pose proof (locked_status st Hst) as Hstatus.
  split_and!; [done| | | |].
  - destruct (CodePuzzle.status st); destruct Hstatus; lia.
  - rewrite <- Hcode. split.
    + intros Hwon. rewrite Hwon in Hstatus. by destruct Hstatus.
    + intros (a & Ha & Hright).
      destruct (CodePuzzle.status st); [|done|];
        destruct Hstatus as [_ Hwrong]; by destruct (Hlast a Ha Hwrong).
  - rewrite <- Hcode. split.
    + intros Hlost. by rewrite Hlost in Hstatus.
    + intros [Hfull Hwrong].
      destruct (CodePuzzle.status st); [| |done].
      * destruct Hstatus. lia.
      * destruct Hstatus as [_ (a & Ha & Hright)].
        by destruct (Hlast a Ha Hwrong).
  - intros Hover more. by apply locked_run.
Qed.

(** With the code red, red, red, red: a right guess wins, and what is
    clicked afterwards changes nothing. *)
Lemma the_lock_is_settled_within_eight_guesses_witness :
  exists st0,
    CodePuzzle.mount (fun _ => 0%Q) CodePuzzle.initial = Some st0
    /\ let st := CodePuzzle.run
                   [CodePuzzle.Select "r"; CodePuzzle.Select "r";
                    CodePuzzle.Select "r"; CodePuzzle.Select "r";
                    CodePuzzle.Submit] st0 in
       CodePuzzle.status st = CodePuzzle.won
       /\ CodePuzzle.run [CodePuzzle.Select "b"; CodePuzzle.Submit] st = st.
Proof.
  set (st0 := CodePuzzle.mkState ["r"; "r"; "r"; "r"] []
                (replicate CodePuzzle.CODE_LENGTH None) CodePuzzle.playing).
  exists st0. split; [reflexivity|]. intros st.
  destruct (the_lock_is_settled_within_eight_guesses (fun _ => 0%Q) st0
              [CodePuzzle.Select "r"; CodePuzzle.Select "r";
               CodePuzzle.Select "r"; CodePuzzle.Select "r";
               CodePuzzle.Submit] eq_refl)
    as (_ & _ & Hwon & _ & Hover).
  fold st in Hwon, Hover.
  assert (Hstatus : CodePuzzle.status st = CodePuzzle.won).
  { apply Hwon. eexists. split; reflexivity. }
  split; [exact Hstatus|]. apply Hover. by rewrite Hstatus.
Defined.

(** While the lock is played: a color put into an entry that has a free
    slot is taken out again by Backspace, which gives the state before; a
    full entry takes no further color; and Backspace on an empty entry
    changes nothing. *)
Theorem backspace_undoes_the_last_color
    (st : CodePuzzle.State) (colorId : string) :
  locked st ->
  CodePuzzle.status st = CodePuzzle.playing ->
  (None ∈ CodePuzzle.currentGuess st ->
   CodePuzzle.handleBackspace (CodePuzzle.handleColorSelect colorId st) = st)
  /\ (None ∉ CodePuzzle.currentGuess st ->
      CodePuzzle.handleColorSelect colorId st = st)
  /\ (CodePuzzle.currentGuess st = replicate CodePuzzle.CODE_LENGTH None ->
      CodePuzzle.handleBackspace st = st).
Proof.
  intros [Hcode (entered & free & Hentry & Hlen) _] Hplay.
  assert (Hselect :
    CodePuzzle.handleColorSelect colorId st
    = match free with
      | O => st
      | S _ => CodePuzzle.mkState (CodePuzzle.secretCode st)
                 (CodePuzzle.history st)
                 (<[length entered := Some colorId]> (CodePuzzle.currentGuess st))
                 (CodePuzzle.status st)
      end).
  { unfold CodePuzzle.handleColorSelect.
    rewrite (bool_decide_eq_true_2 _ Hplay), Hentry, findIndex_entering.
    by destruct free. }
  split_and!.
  - intros Hfree. rewrite Hentry in Hfree. apply None_in_entering in Hfree.
    rewrite Hselect. destruct free as [|free]; [lia|].
    unfold CodePuzzle.handleBackspace.
    cbn [CodePuzzle.status CodePuzzle.currentGuess CodePuzzle.secretCode
         CodePuzzle.history].
    rewrite (bool_decide_eq_true_2 _ Hplay), Hentry, insert_entering.
    rewrite lastFilled_entering
      by (rewrite length_app; unfold CodePuzzle.CODE_LENGTH in *; simpl; lia).
    rewrite bool_decide_eq_false_2 by (by destruct entered).
    rewrite length_app. cbn [negb length].
    replace (length entered + 1 - 1)%nat with (length entered) by lia.
    rewrite delete_entering, <- Hentry. by destruct st.
  - intros Hfull. rewrite Hselect. destruct free as [|free]; [done|].
    destruct Hfull. rewrite Hentry. apply None_in_entering. lia.
  - intros Hempty.
    assert (entered = []) as ->.
    { destruct entered as [|x entered]; [done|].
      rewrite Hentry in Hempty. unfold entering in Hempty.
      by destruct (CodePuzzle.CODE_LENGTH). }
    unfold CodePuzzle.handleBackspace.
    rewrite (bool_decide_eq_true_2 _ Hplay), Hentry.
    by rewrite lastFilled_entering
      by (unfold CodePuzzle.CODE_LENGTH in *; simpl in *; lia).
Qed.

(** Red is entered after blue and taken back. *)
Lemma backspace_undoes_the_last_color_witness :
  let st := CodePuzzle.mkState ["r"; "b"; "g"; "y"] []
              [Some "b"; None; None; None] CodePuzzle.playing in
  CodePuzzle.currentGuess (CodePuzzle.handleColorSelect "r" st)
  = [Some "b"; Some "r"; None; None]
  /\ CodePuzzle.handleBackspace (CodePuzzle.handleColorSelect "r" st) = st.
Proof.
  intros st. split; [reflexivity|].
  apply (backspace_undoes_the_last_color st "r"); [|reflexivity|].
  - split; simpl; [done|by exists ["b"], 3%nat|].
    split; [unfold CodePuzzle.MAX_ATTEMPTS; lia|constructor].
  - simpl. right. by left.
Defined.

(** ** The dice roller *)

Lemma clicks_converted (pr : DiceRoller.Props) (cs : list DiceRoller.Click)
    (rs : list DiceFace) (spent bonus : Z) :
  exists rs' spent',
    DiceRoller.clicks pr cs (DiceRoller.mkState (Some rs) spent bonus)
    = DiceRoller.mkState (Some rs') spent' bonus
    /\ Forall2 kept_or_converted rs rs'.
Proof.
  revert rs spent. induction cs as [|c cs IH]; intros rs spent.
  - exists rs, spent. split; [done|apply kept_or_converted_refl].
  - destruct (click_effect pr c rs spent bonus) as (rs1 & spent1 & Hc & H1 & _).
    destruct (IH rs1 spent1) as (rs' & spent' & Hcs & H2).
    exists rs', spent'. unfold DiceRoller.clicks in *. simpl. rewrite Hc.
    split; [done|]. by eapply kept_or_converted_trans.
Qed.

Lemma clicks_unrolled (pr : DiceRoller.Props) (cs : list DiceRoller.Click)
    (st : DiceRoller.State) :
  DiceRoller.results st = None -> DiceRoller.clicks pr cs st = st.
Proof.
  intros Hnone. induction cs as [|c cs IH]; [done|].
  unfold DiceRoller.clicks in *. simpl.
  assert (DiceRoller.click pr c st = st) as ->; [|done].
  destruct c; simpl;
    unfold DiceRoller.convertClue, DiceRoller.useSingleConvertItem,
      DiceRoller.useAllConvertItem; by rewrite Hnone.
Qed.

(** Whatever is clicked once the dice lie on the table, in whatever
    order: no die is added or removed, no die stops showing a success, so
    the number of successes never goes down and a roll that passes keeps
    passing.  Before the roll, clicks do nothing. *)
Theorem clicks_never_take_a_success_away
    (pr : DiceRoller.Props) (cs : list DiceRoller.Click) (st : DiceRoller.State) :
  let st' := DiceRoller.clicks pr cs st in
  length <$> DiceRoller.results st' = length <$> DiceRoller.results st
  /\ DiceRoller.passes st <= DiceRoller.passes st'
  /\ DiceRoller.passes st' + DiceRoller.clues st'
     = DiceRoller.passes st + DiceRoller.clues st
  /\ (DiceRoller.isPass pr st = true -> DiceRoller.isPass pr st' = true)
  /\ DiceRoller.bonusDice st' = DiceRoller.bonusDice st
  /\ (DiceRoller.results st = None -> st' = st).
Proof.
  intros st'. subst st'. destruct st as [[rs|] spent bonus].
  2: { rewrite clicks_unrolled by done. split_and!; try done; lia. }
  destruct (clicks_converted pr cs rs spent bonus) as (rs' & spent' & -> & Hconv).
  unfold DiceRoller.isPass, DiceRoller.passes, DiceRoller.clues. simpl.
  pose proof (count_face_monotone rs rs' Hconv) as Hmono.
  assert (DiceRoller.count_face ElderSign rs' + DiceRoller.count_face Clue rs'
          = DiceRoller.count_face ElderSign rs + DiceRoller.count_face Clue rs)
    as Hsum.
  { rewrite !count_face_spec. clear Hmono.
    induction Hconv as [|f g rs rs' [->|[-> ->]] _ IH]; simpl; [done| |lia].
    destruct g; simpl; lia. }
  split_and!; [|done|done| |done|done].
  - f_equal. symmetry. by eapply Forall2_length.
  - rewrite !Z.leb_le. lia.
Qed.

Lemma count_face_convert_all (rs : list DiceFace) :
  let rs' := (fun r => if bool_decide (r = Clue) then ElderSign else r) <$> rs in
  DiceRoller.count_face Clue rs' = 0
  /\ DiceRoller.count_face ElderSign rs'
     = DiceRoller.count_face ElderSign rs + DiceRoller.count_face Clue rs
  /\ DiceRoller.count_face Blank rs' = DiceRoller.count_face Blank rs.
Proof.
  cbv zeta. rewrite !count_face_spec.
  induction rs as [|[] rs (IH1 & IH2 & IH3)]; csimpl in *; split_and!; lia.
Qed.

(** The Eldritch Glyph, used on rolled dice: no die shows a clue
    afterwards, the successes have grown by the number of clues shown
    before, the blanks and the clues spent are as before, and the item is
    consumed.  Before the roll it does nothing and is not consumed. *)
Theorem eldritch_glyph_turns_every_clue_into_a_success (st : DiceRoller.State) :
  let st' := (DiceRoller.useAllConvertItem st).1 in
  match DiceRoller.results st with
  | Some _ =>
    DiceRoller.clues st' = 0
    /\ DiceRoller.passes st' = DiceRoller.passes st + DiceRoller.clues st
    /\ DiceRoller.spentClues st' = DiceRoller.spentClues st
    /\ Forall2 kept_or_converted (default [] (DiceRoller.results st))
                                 (default [] (DiceRoller.results st'))
    /\ (DiceRoller.useAllConvertItem st).2
       = [DiceRoller.ConsumeItem "Eldritch Glyph"]
  | None => DiceRoller.useAllConvertItem st = (st, [])
  end.
Proof.
  unfold DiceRoller.useAllConvertItem, DiceRoller.clues, DiceRoller.passes.
  destruct (DiceRoller.results st) as [rs|] eqn:Hrs; simpl; [|done].
  destruct (count_face_convert_all rs) as (Hclues & Hpasses & _).
  split_and!; [done|done|done|apply converted_all|done].
Qed.

Lemma findIndex_is_first {A} (p : A -> bool) (l : list A) (i : nat) :
  findIndex p l = Some i -> forall j a, (j < i)%nat -> l !! j = Some a -> p a = false.
Proof.
  intros (_ & _ & _ & Hbefore)%findIndex_first j a Hj Ha.
  apply Hbefore. eapply list_elem_of_lookup_2. by rewrite lookup_take_lt.
Qed.

(** The Detective's Journal, used on rolled dice: when a die shows a
    clue, the first such die, and no other, turns into a success, no clue is
    spent, and the item is marked as used for the round; when no die shows a
    clue, nothing changes and the item is not marked. *)
Theorem detectives_journal_converts_the_first_clue
    (rs : list DiceFace) (spent bonus : Z) :
  let st := DiceRoller.mkState (Some rs) spent bonus in
  if bool_decide (0 < DiceRoller.clues st)
  then exists i,
         rs !! i = Some Clue
         /\ (forall j, (j < i)%nat -> rs !! j <> Some Clue)
         /\ DiceRoller.useSingleConvertItem st
            = (DiceRoller.mkState (Some (<[i := ElderSign]> rs)) spent bonus,
               [DiceRoller.MarkItemUsed])
         /\ DiceRoller.passes (DiceRoller.useSingleConvertItem st).1
            = DiceRoller.passes st + 1
         /\ DiceRoller.clues (DiceRoller.useSingleConvertItem st).1
            = DiceRoller.clues st - 1
  else DiceRoller.useSingleConvertItem st = (st, []).
Proof.
  cbv zeta. unfold DiceRoller.useSingleConvertItem, DiceRoller.clues,
    DiceRoller.passes. simpl.
  destruct (findIndex _ rs) as [i|] eqn:Hfind.
  - pose proof (findIndex_is_first _ _ _ Hfind) as Hfirst.
    apply findIndex_Some in Hfind as (r & Hr & Hclue).
    apply bool_decide_eq_true in Hclue as ->.
    assert (DiceRoller.count_face Clue (<[i:=ElderSign]> rs)
            = DiceRoller.count_face Clue rs - 1) as Hclues.
    { rewrite !count_face_spec. clear Hfirst. revert i Hr.
      induction rs as [|r rs IH]; intros [|i] Hi; simpl in *; try done.
      - injection Hi as ->. simpl. lia.
      - specialize (IH i Hi). destruct r; simpl; lia. }
    assert (0 < DiceRoller.count_face Clue rs) as Hsome.
    { pose proof (count_face_spec Clue (<[i:=ElderSign]> rs)). lia. }
    rewrite bool_decide_eq_true_2 by done. exists i. simpl.
    split_and!; [done| |done|by apply count_face_insert_clue|done].
    intros j Hj Hclue. by specialize (Hfirst j Clue Hj Hclue).
  - pose proof (proj1 (findIndex_None _ _) Hfind) as Hnone.
    rewrite bool_decide_eq_false_2; [done|].
    rewrite count_face_spec. intros Hpos.
    assert (In Clue rs) as Hin by (apply (count_occ_In DiceFace_eq_dec); lia).
    apply list_elem_of_In in Hin. by specialize (Hnone Clue Hin).
Qed.

Lemma random_index_below (u : Q) (n k : nat) :
  (0 <= u)%Q ->
  (random_index u n < k)%nat
  <-> (u * inject_Z (Z.of_nat n) < inject_Z (Z.of_nat k))%Q.
Proof.
  intros Hlo. unfold random_index.
  set (q := (u * inject_Z (Z.of_nat n))%Q).
  assert (Hq0 : (0 <= q)%Q).
  { apply Qmult_le_0_compat; [done|].
    change 0%Q with (inject_Z 0). rewrite <- Zle_Qle. lia. }
  assert (H0 : 0 <= Qfloor q).
  { change 0 with (Qfloor 0). by apply Qfloor_resp_le. }
  split.
  - intros Hlt. apply Qlt_le_trans with (inject_Z (Qfloor q + 1)).
    + apply Qlt_floor.
    + rewrite <- Zle_Qle. lia.
  - intros Hlt.
    assert (Qfloor q < Z.of_nat k); [|lia].
    rewrite Zlt_Qlt. eapply Qle_lt_trans; [apply Qfloor_le|done].
Qed.

(** A draw picks a face of [DICE_FACES], never a slot past its end: a
    success below 3/8, a clue from there to below 5/8, a blank above. *)
Lemma face_of_draw_in_range (u : Q) :
  (0 <= u)%Q -> (u < 1)%Q ->
  DICE_FACES !! random_index u (length DICE_FACES)
  = Some (DiceRoller.face_of_draw u)
  /\ DiceRoller.face_of_draw u
     = (if Qltb u (3 # 8) then ElderSign
        else if Qltb u (5 # 8) then Clue else Blank).
Proof.
  intros Hlo Hhi. unfold DiceRoller.face_of_draw.
  pose proof (random_index_lt u (length DICE_FACES) Hlo Hhi ltac:(simpl; lia))
    as Hrange.
  pose proof (random_index_below u (length DICE_FACES) 3 Hlo) as H3.
  pose proof (random_index_below u (length DICE_FACES) 5 Hlo) as H5.
  assert (Hq3 : (u * inject_Z (Z.of_nat (length DICE_FACES)) < inject_Z 3)%Q
                <-> Qltb u (3 # 8) = true).
  { rewrite Qltb_lt. simpl. unfold Qlt. simpl. lia. }
  assert (Hq5 : (u * inject_Z (Z.of_nat (length DICE_FACES)) < inject_Z 5)%Q
                <-> Qltb u (5 # 8) = true).
  { rewrite Qltb_lt. simpl. unfold Qlt. simpl. lia. }
  simpl in H3, H5. rewrite Hq3 in H3. rewrite Hq5 in H5.
  set (n := random_index u (length DICE_FACES)) in *.
  assert (H3' : if Qltb u (3 # 8) then (n < 3)%nat else (3 <= n)%nat).
  { destruct (Qltb u (3 # 8)); [by apply H3|].
    destruct (decide (n < 3)%nat) as [Hn|Hn]; [by apply H3 in Hn|lia]. }
  assert (H5' : if Qltb u (5 # 8) then (n < 5)%nat else (5 <= n)%nat).
  { destruct (Qltb u (5 # 8)); [by apply H5|].
    destruct (decide (n < 5)%nat) as [Hn|Hn]; [by apply H5 in Hn|lia]. }
  clear H3 H5 Hq3 Hq5. simpl in Hrange.
  destruct (Qltb u (3 # 8)), (Qltb u (5 # 8));
    do 8 (destruct n as [|n]; [simpl; split; try done; lia|]); lia.
Qed.

Lemma passiveBonus_bounds (pr : DiceRoller.Props) :
  0 <= DiceRoller.passiveBonus pr <= 1.
Proof.
  unfold DiceRoller.passiveBonus.
  destruct (DiceRoller.attribute pr); simpl;
    repeat match goal with |- context [includes ?a ?b] => destruct (includes a b) end;
    lia.
Qed.

(** A roll whose total, the test's amount plus the bonus dice of the items
    used plus the passive bonus, is an array length (0 to 2^32 - 1) puts
    that many dice on the table; the passive bonus is 1 for the one item
    that matches the attribute tested and 0 otherwise; each die shows a
    success when its draw is below 3/8, a clue from there to below 5/8 and
    a blank above; no clue is spent by rolling.  With any other total the
    roll throws and puts no dice on the table. *)
Theorem rollDice_rolls_that_many_fair_dice
    (pr : DiceRoller.Props) (rnd : nat -> Q) (st : DiceRoller.State) :
  (forall i, (0 <= rnd i)%Q /\ (rnd i < 1)%Q) ->
  let total := DiceRoller.amount pr + DiceRoller.bonusDice st
               + DiceRoller.passiveBonus pr in
  0 <= DiceRoller.passiveBonus pr <= 1
  /\ (0 <= total <= 4294967295 ->
      exists st' rs,
        DiceRoller.rollDice pr rnd st = Some st'
        /\ DiceRoller.results st' = Some rs
        /\ length rs = Z.to_nat total
        /\ (forall i, (i < length rs)%nat ->
              rs !! i = Some (if Qltb (rnd i) (3 # 8) then ElderSign
                              else if Qltb (rnd i) (5 # 8) then Clue else Blank))
        /\ DiceRoller.spentClues st' = DiceRoller.spentClues st
        /\ DiceRoller.bonusDice st' = DiceRoller.bonusDice st)
  /\ (total < 0 \/ 4294967295 < total ->
      DiceRoller.rollDice pr rnd st = None).
Proof.
  intros Hrnd total. split; [apply passiveBonus_bounds|].
  unfold DiceRoller.rollDice. fold total. split.
  - intros Htotal.
    rewrite (proj2 (Z.ltb_ge _ _)), (proj2 (Z.ltb_ge _ _)) by lia. simpl.
    eexists _, _. split; [reflexivity|]. simpl. split; [reflexivity|].
    rewrite length_fmap, length_seq. split; [done|]. split; [|done].
    intros i Hi. rewrite list_lookup_fmap, lookup_seq_lt by done. simpl.
    destruct (Hrnd i) as [Hlo Hhi].
    by destruct (face_of_draw_in_range (rnd i) Hlo Hhi) as [_ ->].
  - intros [Hneg|Hbig].
    + by rewrite (proj2 (Z.ltb_lt _ _)) by lia.
    + rewrite (proj2 (Z.ltb_lt 4294967295 _)) by lia. by rewrite orb_true_r.
Qed.

(** A Lore test of three dice by a player holding the Ancient Tome and the
    Elder Sign, after a Lucky Cigarette Case: six dice. *)
Lemma rollDice_rolls_that_many_fair_dice_witness :
  let pr := DiceRoller.mkProps Lore 3 0 ["Ancient Tome"; "Elder Sign"] false 2 in
  let st := (DiceRoller.useExtraDiceItem DiceRoller.initial).1 in
  exists st' rs,
    DiceRoller.rollDice pr (fun i => (Z.of_nat (i mod 6) # 6)%Q) st = Some st'
    /\ DiceRoller.results st' = Some rs
    /\ length rs = 6%nat /\ rs !! 3%nat = Some Clue.
Proof.
  intros pr st.
  destruct (rollDice_rolls_that_many_fair_dice pr
              (fun i => (Z.of_nat (i mod 6) # 6)%Q) st)
    as (_ & Hroll & _).
  { intros i. pose proof (Nat.mod_upper_bound i 6).
    split; unfold Qle, Qlt; simpl; lia. }
  destruct Hroll as (st' & rs & Hst' & Hrs & Hlen & Hfaces & _).
  { vm_compute. split; discriminate. }
  exists st', rs. split; [exact Hst'|]. split; [exact Hrs|].
  split; [exact Hlen|].
  apply (Hfaces 3%nat). rewrite Hlen. vm_compute. lia.
Defined.

(** ** The content bridge: live calls and fallback rooms *)

Local Ltac split5 := split; [|split; [|split; [|split]]].

Lemma generateWithRetry_cost (service : nat -> Gemini.Outcome)
    (retries : nat) (b : Gemini.Bridge) :
  let r := Gemini.generateWithRetry service retries b in
  Gemini.ai r.2 = Gemini.ai b
  /\ (Gemini.liveCalls b <= Gemini.liveCalls r.2 <= Gemini.liveCalls b + S retries)%nat
  /\ (Gemini.ai b = false -> r.2 = b)
  /\ (forall n, (Gemini.liveCalls b <= n)%nat ->
        (S n < Gemini.liveCalls r.2)%nat ->
        exists error, service n = Gemini.Rejected error
                      /\ Gemini.isQuotaError error = false)
  /\ (Gemini.isOffline r.2 = true ->
      Gemini.isOffline b = true
      \/ exists error,
           service (pred (Gemini.liveCalls r.2)) = Gemini.Rejected error
           /\ Gemini.isQuotaError error = true
           /\ (Gemini.liveCalls b < Gemini.liveCalls r.2)%nat).
Proof.
  revert b. induction retries as [|retries IH]; intros b; cbv zeta;
    rewrite generateWithRetry_unfold;
    (destruct (Gemini.isOffline b) eqn:Hoff; simpl;
     [split5; [done|lia|done|intros; lia|by intros; left]|]);
    (destruct (Gemini.ai b) eqn:Hai; simpl;
     [|split5; [done|lia|done|intros; lia|by rewrite Hoff]]);
    destruct (service (Gemini.liveCalls b)) as [text|error] eqn:Hcall; simpl.
  - split5; [done|lia|done|intros; lia|done].
  - destruct (Gemini.isQuotaError error) eqn:Hquota; simpl;
      (split5; [done|lia|done|intros; lia|]); [|done].
    intros _. right. exists error. split; [done|split; [done|lia]].
  - split5; [done|lia|done|intros; lia|done].
  - destruct (Gemini.isQuotaError error) eqn:Hquota; simpl.
    { split5; [done|lia|done|intros; lia|].
      intros _. right. exists error. split; [done|split; [done|lia]]. }
    set (b1 := Gemini.mkBridge true false (S (Gemini.liveCalls b))).
    destruct (IH b1) as (Hai' & Hcalls & _ & Hretried & Htrip).
    simpl in *. split5; [done|lia|done| |].
    + intros n Hn Hlt.
      destruct (decide (n = Gemini.liveCalls b)) as [->|Hne]; [by exists error|].
      apply Hretried; lia.
    + intros Hoff'. destruct (Htrip Hoff') as [|(e & He & Hq & Hlt)]; [done|].
      right. exists e. split; [done|split; [done|lia]].
Qed.

(** What a content-generation call costs.  It makes at most two live calls,
    and none on a bridge without a client; the second live call is a retry
    after an error that is no quota error; and the breaker is tripped by
    nothing but a quota error: a call that leaves it tripped either found
    it tripped or had its last live call rejected with a quota error. *)
Theorem a_call_makes_at_most_two_live_calls
    (service : nat -> Gemini.Outcome) (parsers : Gemini.Parsers)
    (c : Gemini.Call) (l : Gemini.Local) (b : Gemini.Bridge) :
  let b' := (Gemini.generate service parsers c l b).2 in
  Gemini.ai b' = Gemini.ai b
  /\ (Gemini.liveCalls b <= Gemini.liveCalls b' <= Gemini.liveCalls b + 2)%nat
  /\ (Gemini.ai b = false -> b' = b)
  /\ (Gemini.liveCalls b' = Gemini.liveCalls b + 2 ->
      exists error, service (Gemini.liveCalls b) = Gemini.Rejected error
                    /\ Gemini.isQuotaError error = false)%nat
  /\ (Gemini.isOffline b' = true ->
      Gemini.isOffline b = true
      \/ exists error,
           service (pred (Gemini.liveCalls b')) = Gemini.Rejected error
           /\ Gemini.isQuotaError error = true
           /\ (Gemini.liveCalls b < Gemini.liveCalls b')%nat).
Proof.
  intros b'.
  assert (Hb' : b' = if Gemini.isOffline b then b
                     else (Gemini.generateWithRetry service 1 b).2).
  { subst b'. unfold Gemini.generate, mbind, Gemini.M_bind, Gemini.offline.
    destruct (Gemini.isOffline b); [done|].
    by destruct (Gemini.generateWithRetry service 1 b) as [[thrown|text] b1]. }
  destruct (Gemini.isOffline b) eqn:Hoff.
  { rewrite Hb'. split5; [done|lia|done|intros; lia|by intros; left]. }
  destruct (generateWithRetry_cost service 1 b)
    as (Hai & Hcalls & Hnone & Hretried & Htrip).
  rewrite <- Hb' in *. rewrite Hoff in Htrip.
  split5; [done|lia|done| |done].
  intros Htwo. apply Hretried; lia.
Qed.

Lemma includes_elem_of (s : string) (arr : list string) :
  includes s arr = true <-> s ∈ arr.
Proof. unfold includes. by rewrite bool_decide_eq_true. Qed.

Lemma includes_not_elem_of (s : string) (arr : list string) :
  includes s arr = false <-> s ∉ arr.
Proof. unfold includes. by rewrite bool_decide_eq_false. Qed.

Lemma lookup_random_index {A} (arr : list A) (u : Q) :
  (0 <= u)%Q -> (u < 1)%Q -> arr <> [] ->
  exists a, arr !! random_index u (length arr) = Some a /\ a ∈ arr.
Proof.
  intros Hlo Hhi Harr.
  assert (Hlen : (0 < length arr)%nat) by (destruct arr; [done|simpl; lia]).
  destruct (lookup_lt_is_Some_2 arr (random_index u (length arr))) as [a Ha].
  { by apply random_index_lt. }
  exists a. split; [done|]. by eapply list_elem_of_lookup_2.
Qed.

Lemma lookup_rem {A} (arr : list A) (now : Z) :
  0 <= now -> arr <> [] ->
  exists a,
    (let index := Z.rem now (Z.of_nat (length arr)) in
     if index <? 0 then None else arr !! Z.to_nat index) = Some a
    /\ a ∈ arr.
Proof.
  intros Hnow Harr.
  assert (Hlen : (0 < length arr)%nat) by (destruct arr; [done|simpl; lia]).
  pose proof (Z.rem_bound_pos now (Z.of_nat (length arr)) Hnow ltac:(lia))
    as Hrem.
  cbv zeta. rewrite (proj2 (Z.ltb_ge _ _)) by lia.
  destruct (lookup_lt_is_Some_2 arr
              (Z.to_nat (Z.rem now (Z.of_nat (length arr))))) as [a Ha]; [lia|].
  exists a. split; [done|]. by eapply list_elem_of_lookup_2.
Qed.

(** The room the bridge makes up when it is offline.  There always is one,
    with two search points.  From a room that is no hallway it is a
    corridor.  From a hallway it is never a hallway: a kitchen or a bathroom
    the mansion does not have yet as long as one of the two is missing, and
    after that a room whose type the mansion has already only if it is a
    bedroom or a closet. *)
Theorem fallback_room_fits_the_mansion
    (direction fromType : string) (existingTypes : list string)
    (u : Q) (now : Z) :
  (0 <= u)%Q -> (u < 1)%Q -> 0 <= now ->
  let known := toLowerCase <$> existingTypes in
  exists room,
    Gemini.getFallbackRoom direction fromType existingTypes u now = Some room
    /\ (exists p1 p2, Gemini.searchPoints room = Some [p1; p2])
    /\ (fromType <> "hallway" -> Gemini.visualType room = "hallway")
    /\ (fromType = "hallway" ->
        Gemini.visualType room <> "hallway"
        /\ (("kitchen" ∉ known) \/ ("bathroom" ∉ known) ->
            (Gemini.visualType room = "kitchen"
             \/ Gemini.visualType room = "bathroom")
            /\ (Gemini.visualType room ∉ known))
        /\ (Gemini.visualType room ∈ known ->
            Gemini.visualType room = "bedroom"
            \/ Gemini.visualType room = "closet")).
Proof.
  intros Hlo Hhi Hnow known. unfold Gemini.getFallbackRoom.
  fold known. clearbody known.
  destruct (String.eqb fromType "hallway") eqn:Hfrom; simpl negb; cbv iota.
  2:{ apply String.eqb_neq in Hfrom. eexists. split; [reflexivity|].
      split; [by eexists _, _|]. split; [done|]. done. }
  apply String.eqb_eq in Hfrom. simpl.
  destruct (includes "kitchen" known) eqn:Ek,
           (includes "bathroom" known) eqn:Eb,
           (includes "study" known) eqn:Es,
           (includes "ritual" known) eqn:Er;
    (apply includes_elem_of in Ek || apply includes_not_elem_of in Ek);
    (apply includes_elem_of in Eb || apply includes_not_elem_of in Eb);
    (apply includes_elem_of in Es || apply includes_not_elem_of in Es);
    (apply includes_elem_of in Er || apply includes_not_elem_of in Er);
    simpl;
    match goal with
    | |- exists room, ?l !! random_index u _ = Some room /\ _ =>
        destruct (lookup_random_index l u Hlo Hhi ltac:(done))
          as (room & Hroom & Hin)
    | |- exists room, (if _ <? 0 then None else ?l !! _) = Some room /\ _ =>
        destruct (lookup_rem l now Hnow ltac:(done)) as (room & Hroom & Hin)
    end;
    (exists room; split; [exact Hroom|]); clear Hroom;
    repeat (apply elem_of_cons in Hin as [->|Hin]);
    try (by apply elem_of_nil in Hin);
    (split; [by eexists _, _|]); (split; [done|]); intros _;
    (split; [done|]); simpl;
    (split;
     [intros [?|?]; try done; (split; [first [by left|by right]|done])
     |intros ?; try done; first [by left|by right]]).
Qed.

(** A door of the hallway, in a mansion that has a kitchen and no bathroom
    yet: the bridge, offline, puts a bathroom behind it. *)
Lemma fallback_room_fits_the_mansion_witness :
  exists room,
    Gemini.getFallbackRoom "NORTH" "hallway" ["Foyer"; "Hallway"; "Kitchen"]
                           0 1700000000001
    = Some room
    /\ Gemini.visualType room = "bathroom".
Proof.
  destruct (fallback_room_fits_the_mansion "NORTH" "hallway"
              ["Foyer"; "Hallway"; "Kitchen"] 0 1700000000001)
    as (room & Hroom & _ & _ & Hhall);
    [apply Qle_refl|reflexivity|lia|].
  exists room. split; [exact Hroom|].
  destruct (Hhall eq_refl) as (_ & Hmissing & _).
  destruct Hmissing as [[Hkitchen|Hbathroom] Hnew].
  - right. apply (bool_decide_unpack _). vm_compute. exact I.
  - exfalso. apply Hnew. rewrite Hkitchen.
    apply (bool_decide_unpack _). vm_compute. exact I.
  - exact Hbathroom.
Defined.

(** ** The Mythos phase *)

(** What a SPAWN event of the Mythos phase brings: one monster more,
    behind those of the captured state, on the cell of a tile of the map and
    at full health; it is the first template of its tier, a Cultist, or a
    Deep One once the threat is above 6.  The investigators are those of
    the captured state. *)
Theorem mythos_spawn_is_a_cultist_or_a_deep_one
    (currentState prev : App.State) (event : Gemini.MythosAnswer)
    (u : Q) (now : Z) :
  (0 <= u)%Q -> (u < 1)%Q ->
  GameState.tiles currentState <> [] ->
  Gemini.kind event = SPAWN ->
  let s := App.runMythosPhase_event currentState event u now prev in
  exists monster tile,
    GameState.monsters s = GameState.monsters currentState ++ [monster]
    /\ tile ∈ GameState.tiles currentState
    /\ position monster = cell tile
    /\ Monster.name monster
       = (if 6 <? App.threat currentState then "Deep One" else "Cultist")
    /\ Monster.tier monster = (if 6 <? App.threat currentState then 2 else 1)
    /\ Monster.health monster = Monster.maxHealth monster
    /\ GameState.players s = GameState.players currentState.
Proof.
  intros Hlo Hhi Htiles Hkind s. subst s. unfold App.runMythosPhase_event.
  rewrite Hkind.
  destruct (lookup_lt_is_Some_2 (GameState.tiles currentState)
              (random_index u (length (GameState.tiles currentState))))
    as [tile Htile].
  { apply random_index_lt; [done..|].
    destruct (GameState.tiles currentState); [done|simpl; lia]. }
  rewrite Htile.
  assert (Htemplate :
            App.spawnTemplate (if 6 <? App.threat currentState then 2 else 1)
            = Some (if 6 <? App.threat currentState
                    then mkMonsterTemplate "m_deepone" "Deep One" 2 4 1 0
                    else mkMonsterTemplate "m_cultist" "Cultist" 1 2 0 1)).
  { by destruct (6 <? App.threat currentState). }
  rewrite Htemplate. eexists _, tile. split; [reflexivity|].
  split; [by eapply list_elem_of_lookup_2|].
  by destruct (6 <? App.threat currentState).
Qed.

(** The second round of a solo game begins with something emerging from
    the shadows: a Cultist, in the corridor. *)
Lemma mythos_spawn_is_a_cultist_or_a_deep_one_witness :
  let lobby := at_the_foyer Offline [] 7 in
  exists monster,
    GameState.monsters
      (App.runMythosPhase_event lobby (Gemini.getFallbackMythos 7) (1 # 2) 5 lobby)
    = [monster]
    /\ Monster.name monster = "Cultist" /\ position monster = (0, -1).
Proof.
  intros lobby.
  destruct (mythos_spawn_is_a_cultist_or_a_deep_one lobby lobby
              (Gemini.getFallbackMythos 7) (1 # 2) 5)
    as (monster & tile & Hmonsters & Htile & Hcell & Hname & _);
    [done..|].
  exists monster. split; [exact Hmonsters|]. split; [exact Hname|].
  rewrite Hcell.
  assert (Hsecond : GameState.monsters
                      (App.runMythosPhase_event lobby (Gemini.getFallbackMythos 7)
                                                (1 # 2) 5 lobby)
                    !! 0%nat
                    = Some (Monster.mkMonster "m_5" "m_cultist" "Cultist"
                              (Num 2) (Num 2) 0 1 0 (-1) 1)) by reflexivity.
  rewrite Hmonsters in Hsecond. injection Hsecond as ->.
  change ((0, -1) = cell tile) in Hcell. by rewrite <- Hcell.
Defined.

Lemma firstAttack_spec (players : list Player.t) (moved : list Monster.t) :
  match AppCallbacks.firstAttack players moved with
  | Some (monster, victim) =>
      monster ∈ moved /\ victim ∈ players
      /\ (Player.x victim, Player.y victim) = position monster
  | None =>
      forall monster victim,
        monster ∈ moved -> victim ∈ players ->
        (Player.x victim, Player.y victim) <> position monster
  end.
Proof.
  induction moved as [|monster moved IH]; simpl.
  { intros monster victim Hin. by apply elem_of_nil in Hin. }
  destruct (List.find _ players) as [victim|] eqn:Hfind.
  - apply find_some in Hfind as [Hin Hcell].
    apply andb_prop in Hcell as [Hx Hy].
    apply Z.eqb_eq in Hx, Hy. split_and!; [by left| |].
    + by apply list_elem_of_In.
    + unfold position. by rewrite Hx, Hy.
  - destruct (AppCallbacks.firstAttack players moved) as [[m v]|].
    + destruct IH as (Hm & Hv & Hcell). split_and!; [by right|done..].
    + intros m v [->|Hm]%elem_of_cons Hv; [|by apply IH].
      apply list_elem_of_In in Hv.
      pose proof (find_none _ _ Hfind v Hv) as Hmiss. simpl in Hmiss.
      intros [= Hx Hy]. rewrite Hx, Hy, !Z.eqb_refl in Hmiss. done.
Qed.

(** How the Mythos phase of the callback snapshot starts.  The monsters
    have moved in either case.  If one of them stands on the cell of an
    investigator, that investigator has to dodge it with an Agility roll
    against 2, against 3 if the monster is of tier 3, and the round counter
    is advanced; otherwise no monster shares a cell with an investigator and
    an event is asked for at a threat level of at most 10, exactly 10 once
    the escape is open. *)
Theorem mythos_phase_starts_with_an_attack_or_an_event
    (currentState : AppCallbacks.State) :
  let moved := AppCallbacks.moveMonsters currentState in
  match AppCallbacks.startMythosPhase currentState with
  | AppCallbacks.Attacked s roll =>
      GameState.monsters s = moved
      /\ GameState.round s = GameState.round currentState + 1
      /\ GameState.phase s = Mythos
      /\ GameState.players s = GameState.players currentState
      /\ exists monster victim,
           monster ∈ moved /\ victim ∈ GameState.players currentState
           /\ (Player.x victim, Player.y victim) = position monster
           /\ playerId roll = Player.id victim
           /\ attribute roll = Agility
           /\ count roll = Player.attributes victim Agility
           /\ target roll = (if Monster.tier monster =? 3 then 3 else 2)
  | AppCallbacks.AwaitingEvent s threatLevel =>
      GameState.monsters s = moved
      /\ GameState.round s = GameState.round currentState
      /\ GameState.players s = GameState.players currentState
      /\ (forall monster victim,
            monster ∈ moved -> victim ∈ GameState.players currentState ->
            (Player.x victim, Player.y victim) <> position monster)
      /\ threatLevel <= 10
      /\ (GameState.isEscapeOpen currentState = true -> threatLevel = 10)
      /\ (GameState.isEscapeOpen currentState = false ->
          threatLevel
          = Z.min 10 (GameState.round currentState + 1
                      + Z.of_nat (length (GameState.tiles currentState)) / 3))
  end.
Proof.
  intros moved. unfold AppCallbacks.startMythosPhase. fold moved.
  pose proof (firstAttack_spec (GameState.players currentState) moved) as Hfirst.
  destruct (AppCallbacks.firstAttack (GameState.players currentState) moved)
    as [[monster victim]|].
  - destruct Hfirst as (Hm & Hv & Hcell). split_and!; [done..|].
    exists monster, victim. by split_and!.
  - split_and!; [done..| | |].
    + destruct (GameState.isEscapeOpen currentState); lia.
    + by intros ->.
    + intros ->. lia.
Qed.

(** ** The sliding puzzle *)

Lemma swap_involutive {A} (i j : nat) (arr : list A) :
  App.swap i j (App.swap i j arr) = arr.
Proof.
  unfold App.swap at 2.
  destruct (arr !! i) as [x|] eqn:Hx; [|by unfold App.swap; rewrite Hx].
  destruct (arr !! j) as [y|] eqn:Hy; [|by unfold App.swap; rewrite Hx, Hy].
  pose proof (lookup_lt_Some _ _ _ Hx) as Hi.
  pose proof (lookup_lt_Some _ _ _ Hy) as Hj.
  unfold App.swap.
  assert (Hi' : <[i:=y]> (<[j:=x]> arr) !! i = Some y).
  { apply list_lookup_insert_eq. by rewrite length_insert. }
  assert (Hj' : <[i:=y]> (<[j:=x]> arr) !! j = Some x).
  { destruct (decide (i = j)) as [->|Hne].
    - rewrite list_lookup_insert_eq by (by rewrite length_insert). congruence.
    - rewrite list_lookup_insert_ne by done. by apply list_lookup_insert_eq. }
  rewrite Hi', Hj'. apply list_eq. intros k.
  destruct (decide (k = i)) as [->|Hki].
  { rewrite list_lookup_insert_eq by (by rewrite !length_insert). done. }
  rewrite list_lookup_insert_ne by done.
  destruct (decide (k = j)) as [->|Hkj].
  { rewrite list_lookup_insert_eq by (by rewrite !length_insert). done. }
  by rewrite !list_lookup_insert_ne by done.
Qed.

Lemma swap_lookup_r {A} (i j : nat) (arr : list A) (x : A) :
  arr !! i = Some x -> (j < length arr)%nat -> App.swap i j arr !! j = Some x.
Proof.
  intros Hx Hj. unfold App.swap. rewrite Hx.
  destruct (lookup_lt_is_Some_2 arr j Hj) as [y Hy]. rewrite Hy.
  destruct (decide (i = j)) as [->|Hne].
  - rewrite list_lookup_insert_eq by (by rewrite length_insert). congruence.
  - rewrite list_lookup_insert_ne by done. by apply list_lookup_insert_eq.
Qed.

Lemma winState_distinct : NoDup SlidingPuzzle.winState.
Proof. apply (bool_decide_unpack _). vm_compute. exact I. Qed.

Lemma board_length (g : list Z) (e : nat) : board g e -> length g = 9%nat.
Proof. intros [Hperm _]. by rewrite Hperm. Qed.

Lemma board_gap (g : list Z) (e : nat) :
  board g e -> (e < 9)%nat /\ findIndex (Z.eqb 0) g = Some e.
Proof.
  intros Hboard. pose proof (board_length g e Hboard) as Hlen.
  destruct Hboard as [Hperm Hgap].
  pose proof (lookup_lt_Some _ _ _ Hgap) as He. split; [lia|].
  destruct (findIndex_is_Some (Z.eqb 0) g 0) as [i Hi];
    [by eapply list_elem_of_lookup_2|done|].
  rewrite Hi. f_equal.
  destruct (findIndex_Some _ _ _ Hi) as (a & Ha & Hzero).
  apply Z.eqb_eq in Hzero as <-.
  eapply NoDup_lookup; [|done..]. rewrite Hperm. apply winState_distinct.
Qed.

Lemma board_swap (g : list Z) (e n : nat) :
  board g e -> (n < 9)%nat -> board (App.swap e n g) n.
Proof.
  intros Hboard Hn. pose proof (board_length g e Hboard) as Hlen.
  destruct (board_gap g e Hboard) as [He _]. destruct Hboard as [Hperm Hgap].
  split.
  - destruct (swap_Permutation e n g) as [-> _]; [lia..|done].
  - apply swap_lookup_r; [done|lia].
Qed.

Lemma checkWin_spec (g : list Z) :
  length g = 9%nat -> SlidingPuzzle.checkWin g = true <-> g = SlidingPuzzle.winState.
Proof.
  intros Hlen. split; [|by intros ->].
  do 9 (destruct g as [|? g]; [done|]). destruct g; [|done].
  unfold SlidingPuzzle.checkWin. simpl.
  rewrite !andb_true_iff, !bool_decide_eq_true.
  intros (? & ? & ? & ? & ? & ? & ? & ? & ? & _).
  unfold SlidingPuzzle.winState. by simplify_eq.
Qed.

(** The test of [handleTileClick] picks the cells that share a side with
    the gap. *)
Lemma isAdjacent_besides (index emptyIdx : nat) :
  (index < 9)%nat -> (emptyIdx < 9)%nat ->
  (Z.abs (Z.of_nat index - Z.of_nat emptyIdx) =? 1)
  && (index / 3 =? emptyIdx / 3)%nat
  || (Z.abs (Z.of_nat index - Z.of_nat emptyIdx) =? 3) = true
  <-> besides index emptyIdx.
Proof.
  intros Hi He. unfold besides.
  do 9 (destruct index as [|index];
        [do 9 (destruct emptyIdx as [|emptyIdx]; [by vm_compute|]); lia|]).
  lia.
Qed.

(** The cells the shuffling loop moves the gap to are cells of the grid
    that share a side with it. *)
Lemma neighbors_besides (e n : nat) :
  (e < 9)%nat -> n ∈ SlidingPuzzle.neighbors e -> (n < 9)%nat /\ besides e n.
Proof.
  intros He. unfold besides.
  do 9 (destruct e as [|e];
        [match goal with
         | |- _ ∈ ?l -> _ => let l' := eval vm_compute in l in change l with l'
         end; intros Hn;
         repeat (apply elem_of_cons in Hn as [->|Hn]);
         try (by apply elem_of_nil in Hn); (split; [lia|by vm_compute])|]).
  lia.
Qed.

Lemma neighbors_at_least_two (e : nat) :
  (e < 9)%nat -> (2 <= length (SlidingPuzzle.neighbors e))%nat
  /\ NoDup (SlidingPuzzle.neighbors e).
Proof.
  intros He.
  do 9 (destruct e as [|e];
        [split; [vm_compute; lia|apply (bool_decide_unpack _); by vm_compute]|]).
  lia.
Qed.

Lemma click_besides (g : list Z) (e index : nat) (m : Z) :
  board g e -> (index < 9)%nat ->
  SlidingPuzzle.handleTileClick index (SlidingPuzzle.mkState g m false)
  = Some (if bool_decide (besides index e)
          then SlidingPuzzle.mkState (App.swap index e g) (m + 1)
                 (SlidingPuzzle.checkWin (App.swap index e g))
          else SlidingPuzzle.mkState g m false).
Proof.
  intros Hboard Hindex. pose proof (board_length g e Hboard) as Hlen.
  destruct (board_gap g e Hboard) as [He Hgap].
  unfold SlidingPuzzle.handleTileClick. simpl. rewrite Hgap.
  pose proof (isAdjacent_besides index e Hindex He) as Hadjacent.
  destruct (_ || _).
  - rewrite bool_decide_eq_true_2 by by apply Hadjacent.
    by rewrite (proj2 (Nat.ltb_lt _ _)) by lia.
  - rewrite bool_decide_eq_false_2; [done|].
    intros Hbesides. apply Hadjacent in Hbesides. done.
Qed.

Lemma besides_sym (i e : nat) : besides i e -> besides e i.
Proof. unfold besides. lia. Qed.

Lemma filter_but_one (l : list nat) (x : option nat) :
  NoDup l -> (2 <= length l)%nat ->
  (0 < length (List.filter (fun n => negb (bool_decide (x = Some n))) l))%nat.
Proof.
  destruct l as [|a [|b l]]; simpl; [lia..|]. intros Hdistinct _.
  apply NoDup_cons in Hdistinct as [Ha _].
  assert (a <> b) by (intros ->; apply Ha; by left).
  repeat case_bool_decide; simpl; try lia. congruence.
Qed.

(** One round of the shuffling loop moves the gap to a cell next to it,
    never the one it came from last, and one click takes the move back. *)
Lemma shuffleStep_spec (u : Q) (g : list Z) (e : nat) (previousMoves : list nat) :
  (0 <= u)%Q -> (u < 1)%Q -> board g e ->
  exists n,
    SlidingPuzzle.shuffleStep u (g, e, previousMoves)
    = Some (App.swap e n g, n, previousMoves ++ [n])
    /\ n ∈ SlidingPuzzle.neighbors e
    /\ last previousMoves <> Some n
    /\ board (App.swap e n g) n
    /\ undo [e] (App.swap e n g) g.
Proof.
  intros Hlo Hhi Hboard. pose proof (board_length g e Hboard) as Hlen.
  destruct (board_gap g e Hboard) as [He _].
  destruct (neighbors_at_least_two e He) as [Htwo Hdistinct].
  unfold SlidingPuzzle.shuffleStep.
  set (valid := List.filter _ (SlidingPuzzle.neighbors e)).
  pose proof (filter_but_one _ (last previousMoves) Hdistinct Htwo) as Hvalid.
  fold valid in Hvalid. rewrite (proj2 (Nat.ltb_lt _ _)) by done.
  destruct (lookup_lt_is_Some_2 valid (random_index u (length valid)))
    as [n Hn]; [by apply random_index_lt|].
  rewrite Hn. simpl. exists n.
  apply list_elem_of_lookup_2, list_elem_of_In, filter_In in Hn as [Hn Hlast].
  apply list_elem_of_In in Hn. apply negb_true_iff, bool_decide_eq_false in Hlast.
  destruct (neighbors_besides e n He Hn) as [Hn9 Hbesides].
  pose proof (board_swap g e n Hboard Hn9) as Hboard'.
  split_and!; [done..|].
  exists g. split_and!; [done| |done].
  intros m. rewrite (click_besides _ n e m Hboard' He).
  rewrite bool_decide_eq_true_2 by done. by rewrite swap_involutive.
Qed.

Lemma undo_app (clicks : list nat) (c : nat) (g' g1 g : list Z) :
  undo clicks g' g1 -> undo [c] g1 g -> undo (clicks ++ [c]) g' g.
Proof.
  revert g'. induction clicks as [|index clicks IH]; intros g'; simpl.
  - by intros ->.
  - intros (g2 & Hlen & Hclick & Hrest) Hlast. exists g2.
    split_and!; [done..|]. by apply IH.
Qed.

Lemma shuffleLoop_spec (rnd : nat -> Q) (n i : nat) (g : list Z) (e : nat)
    (previousMoves : list nat) :
  (forall k, (0 <= rnd k)%Q /\ (rnd k < 1)%Q) -> board g e ->
  exists g' e' previousMoves' clicks,
    SlidingPuzzle.shuffleLoop rnd i n (g, e, previousMoves)
    = Some (g', e', previousMoves')
    /\ board g' e' /\ length clicks = n /\ undo clicks g' g.
Proof.
  intros Hrnd. revert i g e previousMoves.
  induction n as [|n IH]; intros i g e previousMoves Hboard;
    cbn [SlidingPuzzle.shuffleLoop].
  { by exists g, e, previousMoves, []. }
  destruct (Hrnd i) as [Hlo Hhi].
  destruct (shuffleStep_spec (rnd i) g e previousMoves Hlo Hhi Hboard)
    as (next & -> & _ & _ & Hboard' & Hback).
  simpl.
  destruct (IH (S i) _ _ (previousMoves ++ [next]) Hboard')
    as (g' & e' & previousMoves' & clicks & -> & Hboard'' & Hlen & Hundo).
  exists g', e', previousMoves', (clicks ++ [e]).
  split_and!; [done..| |].
  - rewrite length_app. simpl. lia.
  - by eapply undo_app.
Qed.

Lemma run_solved (clicks : list nat) (st : SlidingPuzzle.State) :
  SlidingPuzzle.solved st = true -> SlidingPuzzle.run clicks st = Some st.
Proof.
  intros Hsolved. induction clicks as [|index clicks IH]; simpl; [done|].
  unfold SlidingPuzzle.handleTileClick. by rewrite Hsolved.
Qed.

Lemma undo_solves (clicks : list nat) (g' : list Z) (m : Z) :
  clicks <> [] -> undo clicks g' SlidingPuzzle.winState ->
  exists st',
    SlidingPuzzle.run clicks (SlidingPuzzle.mkState g' m false) = Some st'
    /\ SlidingPuzzle.solved st' = true
    /\ SlidingPuzzle.grid st' = SlidingPuzzle.winState.
Proof.
  revert g' m. induction clicks as [|index clicks IH]; intros g' m; [done|].
  intros _ (g1 & Hlen & Hclick & Hrest). simpl. rewrite Hclick. simpl.
  destruct (SlidingPuzzle.checkWin g1) eqn:Hwin.
  - rewrite run_solved by done. eexists. split_and!; [done..|].
    by apply checkWin_spec.
  - destruct clicks as [|c clicks]; [|by apply IH].
    simpl in Hrest. subst g1. done.
Qed.

(** The puzzle the component sets up on mount can always be solved.  For
    draws in [[0, 1)] the shuffling loop ends with the eight tiles and the
    gap on the grid, each once, and there are fifty cells such that clicking
    them one after the other leaves the puzzle solved, with the grid in
    order. *)
Theorem the_shuffled_puzzle_can_be_solved (rnd : nat -> Q) :
  (forall k, (0 <= rnd k)%Q /\ (rnd k < 1)%Q) ->
  exists st0,
    SlidingPuzzle.mount rnd SlidingPuzzle.initial = Some st0
    /\ SlidingPuzzle.grid st0 ≡ₚ SlidingPuzzle.winState
    /\ SlidingPuzzle.solved st0 = false
    /\ exists clicks st',
         length clicks = 50%nat
         /\ SlidingPuzzle.run clicks st0 = Some st'
         /\ SlidingPuzzle.solved st' = true
         /\ SlidingPuzzle.grid st' = SlidingPuzzle.winState.
Proof.
  intros Hrnd. unfold SlidingPuzzle.mount.
  destruct (shuffleLoop_spec rnd 50 0 SlidingPuzzle.winState 8 [] Hrnd)
    as (g' & e' & previousMoves' & clicks & -> & Hboard & Hlen & Hundo);
    [by split|].
  simpl. eexists. split; [reflexivity|]. simpl.
  split; [by destruct Hboard|]. split; [done|].
  destruct (undo_solves clicks g' 0) as (st' & Hrun & Hsolved & Hgrid);
    [by destruct clicks|done|].
  by exists clicks, st'.
Qed.

(** Every draw 0: each round takes the first cell the gap may move to,
    and fifty clicks put the tiles in order again. *)
Lemma the_shuffled_puzzle_can_be_solved_witness :
  exists st0 clicks st',
    SlidingPuzzle.mount (fun _ => 0%Q) SlidingPuzzle.initial = Some st0
    /\ SlidingPuzzle.run clicks st0 = Some st'
    /\ SlidingPuzzle.solved st' = true.
Proof.
  destruct (the_shuffled_puzzle_can_be_solved (fun _ => 0%Q))
    as (st0 & Hmount & _ & _ & clicks & st' & _ & Hrun & Hsolved & _).
  { intros k. split; [apply Qle_refl|reflexivity]. }
  by exists st0, clicks, st'.
Defined.

(** What a click on a cell of the unsolved puzzle does.  On a cell that
    shares a side with the gap, the tile and the gap change places, the
    move is counted, and the puzzle is solved exactly when the grid is in
    order now; the grid still holds the eight tiles and the gap, each once.
    On any other cell nothing changes. *)
Theorem a_click_slides_the_tile_next_to_the_gap
    (g : list Z) (e index : nat) (m : Z) :
  board g e -> (index < 9)%nat ->
  exists st',
    SlidingPuzzle.handleTileClick index (SlidingPuzzle.mkState g m false)
    = Some st'
    /\ (besides index e ->
        SlidingPuzzle.grid st' !! index = Some 0
        /\ SlidingPuzzle.grid st' !! e = g !! index
        /\ (forall k, k <> index -> k <> e ->
              SlidingPuzzle.grid st' !! k = g !! k)
        /\ SlidingPuzzle.grid st' ≡ₚ SlidingPuzzle.winState
        /\ SlidingPuzzle.moves st' = m + 1
        /\ (SlidingPuzzle.solved st' = true
            <-> SlidingPuzzle.grid st' = SlidingPuzzle.winState))
    /\ (~ besides index e -> st' = SlidingPuzzle.mkState g m false).
Proof.
  intros Hboard Hindex. pose proof (board_length g e Hboard) as Hlen.
  destruct (board_gap g e Hboard) as [He _].
  rewrite (click_besides g e index m Hboard Hindex).
  eexists. split; [reflexivity|]. case_bool_decide as Hbesides; [|done].
  split; [|done]. intros _. simpl.
  destruct Hboard as [Hperm Hgap].
  destruct (lookup_lt_is_Some_2 g index) as [v Hv]; [lia|].
  assert (Hswap : App.swap index e g = <[index := 0]> (<[e := v]> g)).
  { unfold App.swap. by rewrite Hv, Hgap. }
  assert (index <> e).
  { intros ->. unfold besides in Hbesides. lia. }
  split_and!.
  - rewrite Hswap. apply list_lookup_insert_eq. rewrite length_insert. lia.
  - rewrite Hswap, list_lookup_insert_ne by done.
    rewrite list_lookup_insert_eq by lia. done.
  - intros k Hk1 Hk2. rewrite Hswap. by rewrite !list_lookup_insert_ne by done.
  - destruct (swap_Permutation index e g) as [-> _]; [lia..|done].
  - done.
  - apply checkWin_spec.
    destruct (swap_Permutation index e g) as [_ ->]; [lia..|done].
Qed.

(** The solved grid with the gap moved one cell up: a click on the last
    cell solves the puzzle. *)
Lemma a_click_slides_the_tile_next_to_the_gap_witness :
  exists st',
    SlidingPuzzle.handleTileClick 8
      (SlidingPuzzle.mkState [1; 2; 3; 4; 5; 0; 7; 8; 6] 0 false) = Some st'
    /\ SlidingPuzzle.solved st' = true
    /\ SlidingPuzzle.moves st' = 1.
Proof.
  destruct (a_click_slides_the_tile_next_to_the_gap
              [1; 2; 3; 4; 5; 0; 7; 8; 6] 5 8 0)
    as (st' & Hclick & Hmove & _).
  - split; [|done]. apply (bool_decide_unpack _). by vm_compute.
  - lia.
  - exists st'. split; [exact Hclick|].
    destruct Hmove as (Hgap & Hgap' & Hrest & _ & Hmoves & Hsolved);
      [by vm_compute|].
    split; [|exact Hmoves]. apply Hsolved.
    injection Hclick as <-. reflexivity.
Defined.
